(** * Vetri-Nichyam: the Express REST API over flat JSON files

    A shallow embedding of the [express/] part of the repository:

    - [utils/database.js]        (module [database])
    - [utils/responseHandler.js] (module [responseHandler])
    - [utils/validator.js]       (module [validator])
    - [routes/userRoutes.js], [routes/productRoutes.js],
      [routes/orderRoutes.js]    (modules [userRoutes], [productRoutes],
                                  [orderRoutes])
    - [server.js]                (module [server])

    JavaScript values are an inductive type [value]; objects are finite maps
    from property names to values.  Numbers are the IEEE doubles, kept as
    exact rationals with the two infinities and NaN; arithmetic rounds to
    the nearest double ([round64]).  [-0] is identified with [0]: nothing in
    the program tells them apart.  Strings are sequences of code units below
    256.

    Code that touches the outside world ([fs], [new Date()]) is a program in
    a small free monad [prog]: a tree of calls to the outside, with
    exceptions.  [exec] runs a program against a [world] (a disk and a
    clock) and records the calls it made.  Only own properties of objects
    are modelled; the request body is the object the Express body parsers
    leave in [req.body]. *)

From Stdlib Require Import ZArith QArith Qround Qabs String Ascii List Lia Bool.
From stdpp Require Import gmap strings list fin_maps.
Import ListNotations.

Local Open Scope string_scope.
Local Open Scope list_scope.
Local Open Scope Z_scope.

(** ** Numbers *)

Inductive number : Type :=
| NaN
| Inf (neg : bool)
| Fin (q : Q).

(** Round [n/d] (with [0 <= n], [0 < d]) to the nearest integer, ties to
    even. *)
Definition rne (n d : Z) : Z :=
  let q := n / d in
  let r := n mod d in
  match (2 * r ?= d) with
  | Lt => q
  | Gt => q + 1
  | Eq => if Z.even q then q else q + 1
  end.

(** [floor (log2 (n/d))] for positive [n] and [d]. *)
Definition ilog2 (n d : Z) : Z :=
  let l := Z.log2 n - Z.log2 d in
  let ge := if 0 <=? l then d * 2 ^ l <=? n else d <=? n * 2 ^ (- l) in
  if ge then l else l - 1.

(** The double nearest to a rational (round to nearest, ties to even;
    53 bits of precision, exponents from -1074, overflow to infinity). *)
Definition round64 (q : Q) : number :=
  let n := Qnum (Qred q) in
  let d := Z.pos (Qden (Qred q)) in
  if n =? 0 then Fin 0 else
  let a := Z.abs n in
  let e := Z.max (ilog2 a d - 52) (-1074) in
  if 0 <=? e then
    let m := rne a (d * 2 ^ e) in
    if 2 ^ 1024 <=? m * 2 ^ e then Inf (n <? 0)
    else Fin (inject_Z (Z.sgn n * m * 2 ^ e))
  else
    let m := rne (a * 2 ^ (- e)) d in
    Fin (Qred (Qmake (Z.sgn n * m) (Z.to_pos (2 ^ (- e))))).

Definition num_isNaN (x : number) : bool :=
  match x with NaN => true | _ => false end.

Definition num_neg (x : number) : number :=
  match x with
  | NaN => NaN
  | Inf s => Inf (negb s)
  | Fin q => Fin (Qopp q)
  end.

(** [x + y] *)
Definition num_add (x y : number) : number :=
  match x, y with
  | NaN, _ | _, NaN => NaN
  | Inf s, Inf t => if Bool.eqb s t then Inf s else NaN
  | Inf s, Fin _ | Fin _, Inf s => Inf s
  | Fin a, Fin b => round64 (Qplus a b)
  end.

(** [x - y] *)
Definition num_sub (x y : number) : number := num_add x (num_neg y).

Definition Qsign_neg (q : Q) : bool := Qnum q <? 0.
Definition Qis_zero (q : Q) : bool := Qnum q =? 0.

(** [x * y] *)
Definition num_mul (x y : number) : number :=
  match x, y with
  | NaN, _ | _, NaN => NaN
  | Inf s, Inf t => Inf (xorb s t)
  | Inf s, Fin q | Fin q, Inf s =>
      if Qis_zero q then NaN else Inf (xorb s (Qsign_neg q))
  | Fin a, Fin b => round64 (Qmult a b)
  end.

(** [x / y] *)
Definition num_div (x y : number) : number :=
  match x, y with
  | NaN, _ | _, NaN => NaN
  | Inf _, Inf _ => NaN
  | Inf s, Fin q => Inf (xorb s (Qsign_neg q))
  | Fin _, Inf _ => Fin 0
  | Fin a, Fin b =>
      if Qis_zero b then (if Qis_zero a then NaN else Inf (Qsign_neg a))
      else round64 (Qdiv a b)
  end.

(** [x < y] on numbers; false as soon as one side is NaN. *)
Definition num_ltb (x y : number) : bool :=
  match x, y with
  | NaN, _ | _, NaN => false
  | Inf s, Inf t => s && negb t
  | Inf s, Fin _ => s
  | Fin _, Inf t => negb t
  | Fin a, Fin b => match Qcompare a b with Lt => true | _ => false end
  end.

(** [x === y] on numbers. *)
Definition num_eqb (x y : number) : bool :=
  match x, y with
  | Inf s, Inf t => Bool.eqb s t
  | Fin a, Fin b => Qeq_bool a b
  | _, _ => false
  end.

(** [x <= y] *)
Definition num_leb (x y : number) : bool := num_ltb x y || num_eqb x y.

(** [Math.max(...xs)] once the arguments are numbers. *)
Definition num_max2 (x y : number) : number :=
  match x, y with
  | NaN, _ | _, NaN => NaN
  | _, _ => if num_ltb x y then y else x
  end.

Definition Math_max (xs : list number) : number :=
  fold_left num_max2 xs (Inf true).

Definition Math_ceil (x : number) : number :=
  match x with
  | Fin q => Fin (inject_Z (Qceiling q))
  | _ => x
  end.

(** [ToIntegerOrInfinity], as [slice] applies it to its arguments: the
    result is an integer, or an infinity kept as [inr neg]. *)
Definition ToIntegerOrInfinity (x : number) : Z + bool :=
  match x with
  | NaN => inl 0
  | Inf s => inr s
  | Fin q => inl (if Qsign_neg q then - Qfloor (Qopp q) else Qfloor q)
  end.

(** ** Strings *)

Definition code (c : ascii) : Z := Z.of_N (N_of_ascii c).

(** White space as [trim], [parseInt] and the regular expressions' [\s]
    see it. *)
Definition is_ws (c : ascii) : bool :=
  let n := code c in
  ((9 <=? n) && (n <=? 13)) || (n =? 32) || (n =? 160).

Definition is_digit (c : ascii) : bool :=
  let n := code c in (48 <=? n) && (n <=? 57).

Definition digit_val (c : ascii) : Z := code c - 48.

(** The value of a hexadecimal digit, if it is one. *)
Definition hex_val (c : ascii) : option Z :=
  let n := code c in
  if (48 <=? n) && (n <=? 57) then Some (n - 48)
  else if (97 <=? n) && (n <=? 102) then Some (n - 87)
  else if (65 <=? n) && (n <=? 70) then Some (n - 55)
  else None.

Definition lower_char (c : ascii) : ascii :=
  let n := code c in
  if ((65 <=? n) && (n <=? 90))
     || ((192 <=? n) && (n <=? 222) && negb (n =? 215))
  then ascii_of_N (Z.to_N (n + 32)) else c.

Definition chars (s : string) : list ascii := list_ascii_of_string s.
Definition str (l : list ascii) : string := string_of_list_ascii l.

(** [s.toLowerCase()] *)
Definition toLowerCase (s : string) : string := str (map lower_char (chars s)).

Fixpoint drop_ws (l : list ascii) : list ascii :=
  match l with
  | c :: r => if is_ws c then drop_ws r else l
  | [] => []
  end.

Definition trim_chars (l : list ascii) : list ascii :=
  rev (drop_ws (rev (drop_ws l))).

(** [s.trim()] *)
Definition trim (s : string) : string := str (trim_chars (chars s)).

Fixpoint starts_with (p l : list ascii) : bool :=
  match p, l with
  | [], _ => true
  | a :: p', b :: l' => Ascii.eqb a b && starts_with p' l'
  | _ :: _, [] => false
  end.

Fixpoint contains (p l : list ascii) : bool :=
  starts_with p l || match l with [] => false | _ :: r => contains p r end.

(** [s.includes(t)] *)
Definition includes (s t : string) : bool := contains (chars t) (chars s).

Fixpoint span_digits (l : list ascii) : list ascii * list ascii :=
  match l with
  | c :: r =>
      if is_digit c then let (ds, rest) := span_digits r in (c :: ds, rest)
      else ([], l)
  | [] => ([], [])
  end.

Fixpoint span_hex (l : list ascii) (acc : Z) (seen : bool)
  : option Z * list ascii :=
  match l with
  | c :: r =>
      match hex_val c with
      | Some v => span_hex r (16 * acc + v) true
      | None => (if seen then Some acc else None, l)
      end
  | [] => (if seen then Some acc else None, [])
  end.

Definition digits_val (ds : list ascii) : Z :=
  fold_left (fun acc c => 10 * acc + digit_val c) ds 0.

Definition pow10 (e : Z) : Q :=
  if 0 <=? e then inject_Z (10 ^ e) else Qmake 1 (Z.to_pos (10 ^ (- e))).

Definition take_sign (l : list ascii) : bool * list ascii :=
  match l with
  | "-"%char :: r => (true, r)
  | "+"%char :: r => (false, r)
  | _ => (false, l)
  end.

Definition signed (neg : bool) (x : number) : number :=
  if neg then num_neg x else x.

(** The exponent part [e±ddd] at the head of [l], when there is a whole
    one. *)
Definition scan_exponent (l : list ascii) : option (Z * list ascii) :=
  match l with
  | c :: r =>
      if Ascii.eqb c "e" || Ascii.eqb c "E" then
        let (neg, r1) := take_sign r in
        let (ds, r2) := span_digits r1 in
        match ds with
        | [] => None
        | _ => Some (if neg then - digits_val ds else digits_val ds, r2)
        end
      else None
  | [] => None
  end.

(** The longest prefix of [l] that is an unsigned decimal literal
    ([Infinity], [12], [12.], [12.5], [.5], each but the first with an
    optional exponent), with its value and what follows it. *)
Definition scan_unsigned (l : list ascii) : option (number * list ascii) :=
  if starts_with (chars "Infinity") l then Some (Inf false, skipn 8 l)
  else
    let (ip, r1) := span_digits l in
    let mant :=
      match r1 with
      | "."%char :: r2 =>
          let (fp, r3) := span_digits r2 in
          match ip, fp with
          | [], [] => None
          | _, _ => Some (ip ++ fp, Z.of_nat (length fp), r3)
          end
      | _ => match ip with [] => None | _ => Some (ip, 0, r1) end
      end in
    match mant with
    | None => None
    | Some (ds, scale, rest) =>
        let (ex, rest') :=
          match scan_exponent rest with
          | Some (e, r) => (e, r)
          | None => (0, rest)
          end in
        Some (round64 (Qmult (inject_Z (digits_val ds)) (pow10 (ex - scale))),
              rest')
    end.

Definition scan_decimal (l : list ascii) : option (number * list ascii) :=
  let (neg, r) := take_sign l in
  match scan_unsigned r with
  | Some (x, rest) => Some (signed neg x, rest)
  | None => None
  end.

(** [parseFloat] on a string. *)
Definition parseFloat_string (s : string) : number :=
  match scan_decimal (drop_ws (chars s)) with
  | Some (x, _) => x
  | None => NaN
  end.

(** [parseInt] on a string; [radix10] tells whether the call passes the
    radix 10 (then a [0x] prefix is not looked for). *)
Definition parseInt_string (radix10 : bool) (s : string) : number :=
  let (neg, r) := take_sign (drop_ws (chars s)) in
  let hex :=
    negb radix10 && (starts_with (chars "0x") r || starts_with (chars "0X") r) in
  if hex then
    match fst (span_hex (skipn 2 r) 0 false) with
    | Some v => signed neg (round64 (inject_Z v))
    | None => NaN
    end
  else
    match fst (span_digits r) with
    | [] => NaN
    | ds => signed neg (round64 (inject_Z (digits_val ds)))
    end.

Fixpoint span_radix (b : Z) (l : list ascii) (acc : Z) (seen : bool)
  : option Z * list ascii :=
  match l with
  | c :: r =>
      if is_digit c && (digit_val c <? b) then
        span_radix b r (b * acc + digit_val c) true
      else (if seen then Some acc else None, l)
  | [] => (if seen then Some acc else None, [])
  end.

(** [Number(s)]: the whole trimmed string must be a numeric literal. *)
Definition StringToNumber (s : string) : number :=
  let l := trim_chars (chars s) in
  let whole (r : option Z * list ascii) : number :=
    match r with
    | (Some v, []) => round64 (inject_Z v)
    | _ => NaN
    end in
  match l with
  | [] => Fin 0
  | _ =>
      if starts_with (chars "0x") l || starts_with (chars "0X") l then
        whole (span_hex (skipn 2 l) 0 false)
      else if starts_with (chars "0o") l || starts_with (chars "0O") l then
        whole (span_radix 8 (skipn 2 l) 0 false)
      else if starts_with (chars "0b") l || starts_with (chars "0B") l then
        whole (span_radix 2 (skipn 2 l) 0 false)
      else
        match scan_decimal l with
        | Some (x, []) => x
        | _ => NaN
        end
  end.

Definition digit_char (d : Z) : ascii := ascii_of_N (Z.to_N (d + 48)).

Fixpoint dec_digits (fuel : nat) (z : Z) (acc : list ascii) : list ascii :=
  match fuel with
  | O => acc
  | S f =>
      let acc' := digit_char (z mod 10) :: acc in
      if z <? 10 then acc' else dec_digits f (z / 10) acc'
  end.

(** The decimal digits of a non-negative integer. *)
Definition Z_digits (z : Z) : list ascii :=
  dec_digits (S (Z.to_nat (Z.log2 z))) z [].

Definition Qltb (a b : Q) : bool :=
  match Qcompare a b with Lt => true | _ => false end.

(** The [n] with [10^(n-1) <= q < 10^n], for positive [q]. *)
Definition decimal_exponent (q : Q) : Z :=
  let est := ilog2 (Qnum q) (Z.pos (Qden q)) * 30103 / 100000 + 1 in
  let fix_up (n : Z) : Z :=
    if Qltb q (pow10 (n - 1)) then n - 1
    else if Qltb q (pow10 n) then n else n + 1 in
  fix_up (fix_up (fix_up est)).

Definition Qdist (a b : Q) : Q := Qabs (Qminus a b).

(** Among the [k]-digit decimals [s * 10^(n-k)] next to [q], one that
    rounds to [q], the closer when both do. *)
Definition shortest_at (q : Q) (n k : Z) : option (Z * Z) :=
  let scale := pow10 (n - k) in
  let lo := Qfloor (Qdiv q scale) in
  let hi := lo + 1 in
  let ok (s : Z) := num_eqb (round64 (Qmult (inject_Z s) scale)) (Fin q) in
  let near_lo :=
    negb (Qltb (Qdist (Qmult (inject_Z hi) scale) q)
               (Qdist (Qmult (inject_Z lo) scale) q)) in
  match ok lo, ok hi with
  | true, true => Some (if near_lo then lo else hi, n - k)
  | true, false => Some (lo, n - k)
  | false, true => Some (hi, n - k)
  | false, false => None
  end.

Fixpoint shortest_from (fuel : nat) (q : Q) (n k : Z) : Z * Z :=
  match fuel with
  | O => (Qfloor (Qdiv q (pow10 (n - k))), n - k)
  | S f =>
      match shortest_at q n k with
      | Some r => r
      | None => shortest_from f q n (k + 1)
      end
  end.

Fixpoint strip_zeros (fuel : nat) (s j : Z) : Z * Z :=
  match fuel with
  | O => (s, j)
  | S f => if (s mod 10 =? 0) && negb (s =? 0)
           then strip_zeros f (s / 10) (j + 1) else (s, j)
  end.

Definition zeros (n : Z) : list ascii := repeat "0"%char (Z.to_nat n).

(** [Number::toString] for a positive number: the shortest decimal that
    reads back as the same double, laid out as the language does. *)
Definition positive_toString (q : Q) : list ascii :=
  let n0 := decimal_exponent q in
  let (s0, j0) := shortest_from 17 q n0 1 in
  let (s, j) := strip_zeros 25 s0 j0 in
  let ds := Z_digits s in
  let k := Z.of_nat (length ds) in
  let n := k + j in
  if (k <=? n) && (n <=? 21) then ds ++ zeros (n - k)
  else if (0 <? n) && (n <=? 21) then
    firstn (Z.to_nat n) ds ++ "."%char :: skipn (Z.to_nat n) ds
  else if (-6 <? n) && (n <=? 0) then
    chars "0." ++ zeros (- n) ++ ds
  else
    let e := n - 1 in
    let es := (if e <? 0 then "-"%char else "+"%char) :: Z_digits (Z.abs e) in
    match ds with
    | [d] => d :: "e"%char :: es
    | d :: rest => d :: "."%char :: rest ++ "e"%char :: es
    | [] => []
    end.

(** [String(x)] for a number. *)
Definition Number_toString (x : number) : string :=
  match x with
  | NaN => "NaN"
  | Inf false => "Infinity"
  | Inf true => "-Infinity"
  | Fin q =>
      if Qis_zero q then "0"
      else if Qsign_neg q then str ("-"%char :: positive_toString (Qabs q))
      else str (positive_toString q)
  end.

(** ** Values, exceptions *)

#[warnings="-register-all"]
Inductive value : Type :=
| VUndefined
| VNull
| VBool (b : bool)
| VNum (n : number)
| VStr (s : string)
| VArr (l : list value)
| VObj (o : gmap string value).

(** A thrown [Error]: its [name] and [message]. *)
Inductive exn : Type := Error (name message : string).

Definition TypeError : string -> exn := Error "TypeError".
Definition SyntaxError : string -> exn := Error "SyntaxError".

Definition exn_message (e : exn) : string :=
  match e with Error _ m => m end.

(** The outcome of code that computes without touching the outside. *)
Inductive result (A : Type) : Type :=
| Ok (a : A)
| Raise (e : exn).
Arguments Ok {A} a.
Arguments Raise {A} e.

#[global] Instance result_ret : MRet result := fun A a => Ok a.
#[global] Instance result_bind : MBind result := fun A B f m =>
  match m with Ok a => f a | Raise e => Raise e end.

Definition num (z : Z) : value := VNum (Fin (inject_Z z)).

(** [!!v] *)
Definition truthy (v : value) : bool :=
  match v with
  | VUndefined | VNull => false
  | VBool b => b
  | VNum NaN => false
  | VNum (Inf _) => true
  | VNum (Fin q) => negb (Qis_zero q)
  | VStr s => negb (String.eqb s "")
  | VArr _ | VObj _ => true
  end.

(** [a || b] *)
Definition js_or (a b : value) : value := if truthy a then a else b.

(** [a === b].  Two arrays or two objects are never the same reference
    where the program compares them: one side always comes from the
    request or is a literal, the other from a file. *)
Definition strict_eq (a b : value) : bool :=
  match a, b with
  | VUndefined, VUndefined => true
  | VNull, VNull => true
  | VBool x, VBool y => Bool.eqb x y
  | VNum x, VNum y => num_eqb x y
  | VStr x, VStr y => String.eqb x y
  | _, _ => false
  end.

Definition Array_isArray (v : value) : bool :=
  match v with VArr _ => true | _ => false end.

Definition is_string (v : value) : bool :=
  match v with VStr _ => true | _ => false end.

(** The array index a property name stands for. *)
Definition index_of_key (k : string) : option nat :=
  match chars k with
  | [] => None
  | c :: r =>
      if forallb is_digit (c :: r) && (negb (Ascii.eqb c "0") || (length r =? 0)%nat)
      then Some (Z.to_nat (digits_val (c :: r))) else None
  end.

Definition char_at (s : string) (i : nat) : value :=
  match nth_error (chars s) i with
  | Some c => VStr (String c EmptyString)
  | None => VUndefined
  end.

(** [v.k] and [v[k]]: own properties only; reading a property of
    [undefined] or [null] throws. *)
Definition get (v : value) (k : string) : result value :=
  match v with
  | VUndefined =>
      Raise (TypeError ("Cannot read properties of undefined (reading '" +:+ k +:+ "')"))
  | VNull =>
      Raise (TypeError ("Cannot read properties of null (reading '" +:+ k +:+ "')"))
  | VObj o => Ok (default VUndefined (o !! k))
  | VArr l =>
      if String.eqb k "length" then Ok (num (Z.of_nat (length l)))
      else match index_of_key k with
           | Some i => Ok (nth i l VUndefined)
           | None => Ok VUndefined
           end
  | VStr s =>
      if String.eqb k "length" then Ok (num (Z.of_nat (String.length s)))
      else match index_of_key k with
           | Some i => Ok (char_at s i)
           | None => Ok VUndefined
           end
  | VBool _ | VNum _ => Ok VUndefined
  end.

(** A property of an object known to be one ([req.body], [req.query]). *)
Definition prop (o : gmap string value) (k : string) : value :=
  default VUndefined (o !! k).

Definition join (sep : string) (parts : list string) : string :=
  match parts with
  | [] => ""
  | p :: ps => fold_left (fun acc s => acc +:+ sep +:+ s) ps p
  end.

Definition sequence {A} (l : list (result A)) : result (list A) :=
  fold_right (fun r acc => x ← r; xs ← acc; Ok (x :: xs)) (Ok []) l.

(** [String(v)].  A plain object turns into ["[object Object]"] through
    the inherited [toString]; when it has an own property of that name
    (which in parsed JSON is never a function), the conversion throws. *)
Fixpoint ToString (v : value) : result string :=
  match v with
  | VUndefined => Ok "undefined"
  | VNull => Ok "null"
  | VBool true => Ok "true"
  | VBool false => Ok "false"
  | VNum n => Ok (Number_toString n)
  | VStr s => Ok s
  | VArr l =>
      parts ← sequence
        (map (fun x => match x with
                       | VUndefined | VNull => Ok ""
                       | _ => ToString x
                       end) l);
      Ok (join "," parts)
  | VObj o =>
      match o !! "toString" with
      | Some _ => Raise (TypeError "Cannot convert object to primitive value")
      | None => Ok "[object Object]"
      end
  end.

(** [Number(v)] *)
Definition ToNumber (v : value) : result number :=
  match v with
  | VUndefined => Ok NaN
  | VNull => Ok (Fin 0)
  | VBool true => Ok (Fin 1)
  | VBool false => Ok (Fin 0)
  | VNum n => Ok n
  | VStr s => Ok (StringToNumber s)
  | VArr _ | VObj _ => s ← ToString v; Ok (StringToNumber s)
  end.

(** [isNaN(v)] *)
Definition isNaN (v : value) : result bool :=
  n ← ToNumber v; Ok (num_isNaN n).

(** [v < c], [v <= c] and [v > c] against a number [c]. *)
Definition lt_num (v : value) (c : number) : result bool :=
  n ← ToNumber v; Ok (num_ltb n c).
Definition le_num (v : value) (c : number) : result bool :=
  n ← ToNumber v; Ok (num_leb n c).
Definition gt_num (v : value) (c : number) : result bool :=
  n ← ToNumber v; Ok (num_ltb c n).

(** [parseInt(v)], [parseInt(v, 10)] and [parseFloat(v)] *)
Definition parseInt (v : value) : result number :=
  s ← ToString v; Ok (parseInt_string false s).
Definition parseInt10 (v : value) : result number :=
  s ← ToString v; Ok (parseInt_string true s).
Definition parseFloat (v : value) : result number :=
  s ← ToString v; Ok (parseFloat_string s).

(** [v.toLowerCase()]: a method of strings only. *)
Definition call_toLowerCase (v : value) : result string :=
  match v with
  | VStr s => Ok (toLowerCase s)
  | VUndefined =>
      Raise (TypeError "Cannot read properties of undefined (reading 'toLowerCase')")
  | VNull =>
      Raise (TypeError "Cannot read properties of null (reading 'toLowerCase')")
  | _ => Raise (TypeError "toLowerCase is not a function")
  end.

(** What [JSON.stringify] keeps of a value nested in an array or object:
    members that are [undefined] go, array slots that are [undefined] and
    numbers that are not finite become [null]. *)
Fixpoint jsonify (v : value) : value :=
  match v with
  | VUndefined => VNull
  | VNum (Fin q) => VNum (Fin q)
  | VNum _ => VNull
  | VArr l => VArr (map jsonify l)
  | VObj o =>
      VObj (omap (fun x => match x with
                           | VUndefined => None
                           | _ => Some (jsonify x)
                           end) o)
  | VNull | VBool _ | VStr _ => v
  end.

(** ** The outside world *)

(** The text of a file: a JSON text, given by the value it denotes, or
    text that is not JSON (the empty text among them). *)
Inductive text : Type :=
| Json (v : value)
| Raw (s : string).

(** [JSON.stringify(v, null, 2)]; [None] is the [undefined] it returns
    for [undefined]. *)
Definition JSON_stringify (v : value) : option text :=
  match v with
  | VUndefined => None
  | _ => Some (Json (jsonify v))
  end.

(** [JSON.parse(t)] *)
Definition JSON_parse (t : text) : result value :=
  match t with
  | Json v => Ok (jsonify v)
  | Raw s => Raise (SyntaxError "Unexpected end of JSON input")
  end.

(** A text used as a condition: only the empty string is false. *)
Definition text_truthy (t : text) : bool :=
  match t with
  | Raw s => negb (String.eqb s "")
  | Json _ => true
  end.

(** An entry of the disk: a regular file, something that cannot be read
    or written as one (a directory), or a regular file that can be read
    and refuses every write (its permissions or its file system are
    read-only, or no room is left). *)
Inductive node : Type :=
| File (t : text)
| Dir
| Locked (t : text).

(** The disk holds the entries of the [db] directory under their
    normalised paths; the clock answers the [n]-th [new Date()] with
    [calendar n]. *)
Record world : Type := World {
  disk : gmap string node;
  ticks : nat;
  calendar : nat -> string
}.

Definition set_disk (w : world) (d : gmap string node) : world :=
  World d (ticks w) (calendar w).

Inductive call : Type -> Type :=
| ExistsSync (p : string) : call bool
| ReadFileSync (p : string) : call (result text)
| WriteFileSync (p : string) (t : option text) : call (result unit)
| NewDate : call string.

Fixpoint split_slash (l cur : list ascii) : list string :=
  match l with
  | [] => [str (rev cur)]
  | c :: r =>
      if Ascii.eqb c "/" then str (rev cur) :: split_slash r []
      else split_slash r (c :: cur)
  end.

(** How a path stands on the disk.  The [db] directory itself ([.]) and
    the directories above it exist; an entry can be created only inside
    a directory; a path written with a final [/] names a directory; a
    locked file is read like any file and cannot be written. *)
Inductive standing : Type :=
| IsFile (t : text)
| IsDir
| Absent
| Unusable
| IsLocked (t : text).

Definition last_segment (p : string) : string :=
  List.last (split_slash (chars p) []) "".

Definition parent (p : string) : string :=
  match removelast (split_slash (chars p) []) with
  | [] => "."
  | segs => join "/" segs
  end.

Definition is_directory (d : gmap string node) (p : string) : bool :=
  String.eqb p "." || String.eqb (last_segment p) ".."
  || match d !! p with Some Dir => true | _ => false end.

Definition stand (d : gmap string node) (p : string) : standing :=
  if String.eqb (last_segment p) "" then
    (if is_directory d (parent p) then IsDir else Unusable)
  else if is_directory d p then IsDir
  else match d !! p with
       | Some (File t) => IsFile t
       | Some (Locked t) => IsLocked t
       | _ => if is_directory d (parent p) then Absent else Unusable
       end.

Definition ENOENT : exn := Error "Error" "ENOENT: no such file or directory".
Definition EISDIR : exn := Error "Error" "EISDIR: illegal operation on a directory".
Definition EACCES : exn := Error "Error" "EACCES: permission denied".

(** What a call does to the world and answers. *)
Definition perform {X} (c : call X) (w : world) : X * world :=
  match c in call X return X * world with
  | ExistsSync p =>
      (match stand (disk w) p with
       | IsFile _ | IsDir | IsLocked _ => true
       | _ => false
       end, w)
  | ReadFileSync p =>
      (match stand (disk w) p with
       | IsFile t | IsLocked t => Ok t
       | IsDir => Raise EISDIR
       | Absent | Unusable => Raise ENOENT
       end, w)
  | WriteFileSync p None =>
      (Raise (TypeError "The 'data' argument must be of type string"), w)
  | WriteFileSync p (Some t) =>
      match stand (disk w) p with
      | IsFile _ | Absent => (Ok tt, set_disk w (<[p := File t]> (disk w)))
      | IsDir => (Raise EISDIR, w)
      | Unusable => (Raise ENOENT, w)
      | IsLocked _ => (Raise EACCES, w)
      end
  | NewDate => (calendar w (ticks w), World (disk w) (S (ticks w)) (calendar w))
  end.

(** Programs: a value, a thrown exception, or a call and what follows. *)
Inductive prog (A : Type) : Type :=
| Ret (a : A)
| Throw (e : exn)
| Do {X : Type} (c : call X) (k : X -> prog A).
Arguments Ret {A} a.
Arguments Throw {A} e.
Arguments Do {A X} c k.

Fixpoint prog_bind {A B} (f : A -> prog B) (p : prog A) : prog B :=
  match p with
  | Ret a => f a
  | Throw e => Throw e
  | Do c k => Do c (fun x => prog_bind f (k x))
  end.

#[global] Instance prog_ret : MRet prog := fun A a => Ret a.
#[global] Instance prog_mbind : MBind prog := fun A B f p => prog_bind f p.

(** [try { p } catch (e) { h e }] *)
Fixpoint try_catch {A} (p : prog A) (h : exn -> prog A) : prog A :=
  match p with
  | Ret a => Ret a
  | Throw e => h e
  | Do c k => Do c (fun x => try_catch (k x) h)
  end.

(** Pure code inside a program. *)
Definition lift {A} (r : result A) : prog A :=
  match r with Ok a => Ret a | Raise e => Throw e end.

(** One record of the log: the call and its answer. *)
Inductive event : Type :=
| Event {X : Type} (c : call X) (answer : X).

(** Run a program: its outcome, the world it leaves and the calls it
    made, in order. *)
Fixpoint exec {A} (p : prog A) (w : world) : result A * world * list event :=
  match p with
  | Ret a => (Ok a, w, [])
  | Throw e => (Raise e, w, [])
  | Do c k =>
      let (x, w1) := perform c w in
      let '(r, w2, log) := exec (k x) w1 in
      (r, w2, Event c x :: log)
  end.

Definition outcome {A} (p : prog A) (w : world) : result A := (exec p w).1.1.
Definition after {A} (p : prog A) (w : world) : world := (exec p w).1.2.
Definition calls {A} (p : prog A) (w : world) : list event := (exec p w).2.

Definition fs_existsSync (p : string) : prog bool := Do (ExistsSync p) Ret.
Definition fs_readFileSync (p : string) : prog text := Do (ReadFileSync p) lift.
Definition fs_writeFileSync (p : string) (t : option text) : prog unit :=
  Do (WriteFileSync p t) lift.

(** [new Date().toISOString()] *)
Definition now_ISO : prog string := Do NewDate Ret.

(** ** Paths below the [db] directory *)

(** One more segment on a path kept as the reversed list of its
    segments. *)
Definition push_segment (stack : list string) (seg : string) : list string :=
  if String.eqb seg "" || String.eqb seg "." then stack
  else if String.eqb seg ".." then
    match stack with
    | [] => [".."]
    | s :: rest => if String.eqb s ".." then ".." :: stack else rest
    end
  else seg :: stack.

(** [path.join(dbDir, filename)], as a path relative to [dbDir]. *)
Definition path_join_dbDir (filename : string) : string :=
  let segs := split_slash (chars filename) [] in
  match rev (fold_left push_segment segs []) with
  | [] => "."
  | kept =>
      if String.eqb (List.last segs "x") "" then join "/" kept +:+ "/"
      else join "/" kept
  end.

(** ** Arrays *)

(** The receiver of an array method: [data.find] and the like exist on
    arrays only. *)
Definition as_array (method : string) (v : value) : result (list value) :=
  match v with
  | VArr l => Ok l
  | VUndefined =>
      Raise (TypeError ("Cannot read properties of undefined (reading '" +:+ method +:+ "')"))
  | VNull =>
      Raise (TypeError ("Cannot read properties of null (reading '" +:+ method +:+ "')"))
  | _ => Raise (TypeError ("data." +:+ method +:+ " is not a function"))
  end.

(** [l.filter(f)] *)
Fixpoint Array_filter (f : value -> result bool) (l : list value)
  : result (list value) :=
  match l with
  | [] => Ok []
  | x :: r =>
      b ← f x;
      r' ← Array_filter f r;
      Ok (if b : bool then x :: r' else r')
  end.

(** [l.findIndex(f)]; [None] is the [-1] of the language. *)
Fixpoint Array_findIndex (f : value -> result bool) (l : list value)
  : result (option nat) :=
  match l with
  | [] => Ok None
  | x :: r =>
      b ← f x;
      if b : bool then Ok (Some O)
      else i ← Array_findIndex f r; Ok (option_map S i)
  end.

(** [l.find(f)]; [undefined] when there is none. *)
Definition Array_find (f : value -> result bool) (l : list value)
  : result value :=
  i ← Array_findIndex f l;
  Ok (match i with Some n => nth n l VUndefined | None => VUndefined end).

(** [l.map(f)] *)
Definition Array_map {B} (f : value -> result B) (l : list value)
  : result (list B) :=
  sequence (map f l).

Definition optZ (i : option nat) : Z :=
  match i with Some n => Z.of_nat n | None => -1 end.

(** The own enumerable properties an object spread [{...v}] copies. *)
Definition own_props (v : value) : gmap string value :=
  match v with
  | VObj o => o
  | VArr l =>
      list_to_map (imap (fun i x => (str (Z_digits (Z.of_nat i)), x)) l)
  | VStr s =>
      list_to_map (imap (fun i c => (str (Z_digits (Z.of_nat i)),
                                     VStr (String c EmptyString))) (chars s))
  | _ => ∅
  end.

(** ** utils/database.js *)

Module database.

Definition filePath (filename : string) : string := path_join_dbDir filename.

(** [readFile]: what the [catch] logs on the console is not kept. *)
Definition readFile (filename : string) : prog value :=
  try_catch
    (let filePath := filePath filename in
     present ← fs_existsSync filePath;
     if negb (present : bool) then Ret (VArr [])
     else
       data ← fs_readFileSync filePath;
       if text_truthy data then lift (JSON_parse data) else Ret (VArr []))
    (fun error => Ret (VArr [])).

Definition writeFile (filename : string) (data : value) : prog bool :=
  try_catch
    (let filePath := filePath filename in
     fs_writeFileSync filePath (JSON_stringify data);; Ret true)
    (fun error => Ret false).

Definition getAll (filename : string) : prog value :=
  readFile filename.

(** [item => item.id === parseInt(id)] *)
Definition id_is (id : value) (item : value) : result bool :=
  i ← get item "id";
  n ← parseInt id;
  Ok (strict_eq i (VNum n)).

Definition getById (filename : string) (id : value) : prog value :=
  data ← readFile filename;
  items ← lift (as_array "find" data);
  found ← lift (Array_find (id_is id) items);
  Ret (js_or found VNull).

(** [item => item.id || 0] *)
Definition id_or_0 (item : value) : result value :=
  i ← get item "id"; Ok (js_or i (num 0)).

(** [data.length > 0 ? Math.max(...data.map(item => item.id || 0)) + 1 : 1] *)
Definition next_id (data : value) : result number :=
  len ← get data "length";
  some ← gt_num len (Fin 0);
  if some : bool then
    items ← as_array "map" data;
    ids ← Array_map id_or_0 items;
    ns ← sequence (map ToNumber ids);
    Ok (num_add (Math_max ns) (Fin 1))
  else Ok (Fin 1).

Definition create (filename : string) (newRecord : gmap string value)
  : prog value :=
  data ← readFile filename;
  id ← lift (next_id data);
  createdAt ← now_ISO;
  updatedAt ← now_ISO;
  let record :=
    <["updatedAt" := VStr updatedAt]>
      (<["createdAt" := VStr createdAt]>
         (newRecord ∪ {["id" := VNum id]})) in
  items ← lift (as_array "push" data);
  let data := VArr (items ++ [VObj record]) in
  writeFile filename data;;
  Ret (VObj record).

Definition update (filename : string) (id : value)
  (updateData : gmap string value) : prog value :=
  data ← readFile filename;
  items ← lift (as_array "findIndex" data);
  index ← lift (Array_findIndex (id_is id) items);
  match index with
  | None => Ret VNull
  | Some index =>
      let old := nth index items VUndefined in
      old_id ← lift (get old "id");
      old_createdAt ← lift (get old "createdAt");
      updatedAt ← now_ISO;
      let record :=
        VObj (<["updatedAt" := VStr updatedAt]>
                (<["createdAt" := old_createdAt]>
                   (<["id" := old_id]>
                      (updateData ∪ own_props old)))) in
      let data := VArr (<[index := record]> items) in
      writeFile filename data;;
      Ret record
  end.

(** [item => item.id !== parseInt(id)] *)
Definition id_is_not (id : value) (item : value) : result bool :=
  b ← id_is id item; Ok (negb b).

Definition deleteRecord (filename : string) (id : value) : prog bool :=
  data ← readFile filename;
  items ← lift (as_array "filter" data);
  filteredData ← lift (Array_filter (id_is_not id) items);
  if (length filteredData =? length items)%nat then Ret false
  else
    writeFile filename (VArr filteredData);;
    Ret true.

(** The callback of [search]. *)
Definition search_match (field : string) (wanted : value) (item : value)
  : result bool :=
  v ← get item field;
  fieldValue ← match v with
               | VUndefined | VNull => Ok ""
               | _ => ToString v
               end;
  needle ← ToString wanted;
  Ok (includes (toLowerCase fieldValue) (toLowerCase needle)).

Definition search (filename : string) (field : string) (wanted : value)
  : prog (list value) :=
  data ← readFile filename;
  items ← lift (as_array "filter" data);
  lift (Array_filter (search_match field wanted) items).

(** [filter]: the callback computes a value from the record, and its
    truth decides. *)
Definition filter (filename : string) (filterFn : value -> result value)
  : prog (list value) :=
  data ← readFile filename;
  items ← lift (as_array "filter" data);
  lift (Array_filter (fun item => v ← filterFn item; Ok (truthy v)) items).

Definition count (filename : string) : prog value :=
  data ← readFile filename;
  lift (get data "length").

End database.

(** ** Express: requests, responses, routers *)

(** The methods the routes are declared for.  What Express does on its
    own for the others (HEAD served as GET without a body, OPTIONS
    answered with the methods a path allows) is not modelled. *)
Inductive verb : Type := GET | POST | PUT | PATCH | DELETE.

Definition verb_name (m : verb) : string :=
  match m with
  | GET => "GET" | POST => "POST" | PUT => "PUT"
  | PATCH => "PATCH" | DELETE => "DELETE"
  end.

Definition verb_eqb (a b : verb) : bool := String.eqb (verb_name a) (verb_name b).

(** A request as the handlers see it, after the body parsers: [path] is
    the list of the decoded segments of the URL path, [params] is filled
    in by the router. *)
Record request : Type := Request {
  method : verb;
  path : list string;
  params : gmap string value;
  query : gmap string value;
  body : gmap string value;
  headers : gmap string string
}.

(** What [res.status(code).json(payload)] sends. *)
Record response : Type := Response {
  status : Z;
  payload : value
}.

(** [res.status(code).json(v)]: the payload goes out as JSON. *)
Definition res_json (code : Z) (v : value) : response :=
  Response code (jsonify v).

(** A middleware answers, or calls [next()] ([None]). *)
Definition middleware : Type := request -> prog (option response).

Inductive segment : Type :=
| Lit (s : string)
| Param (name : string).

(** Route paths match without regard to case. *)
Definition lit_eqb (a b : string) : bool :=
  String.eqb (toLowerCase a) (toLowerCase b).

Fixpoint match_path (pat : list segment) (segs : list string)
  : option (gmap string value) :=
  match pat, segs with
  | [], [] => Some ∅
  | Lit s :: pat', x :: segs' =>
      if lit_eqb s x then match_path pat' segs' else None
  | Param name :: pat', x :: segs' =>
      ps ← match_path pat' segs'; Some (<[name := VStr x]> ps)
  | _, _ => None
  end.

Record route : Type := Route {
  route_verb : verb;
  route_path : list segment;
  route_stack : list middleware
}.

(** The handlers of a route, in order, until one answers. *)
Fixpoint run_stack (stack : list middleware) (req : request)
  : prog (option response) :=
  match stack with
  | [] => Ret None
  | h :: rest =>
      r ← h req;
      match r with
      | Some resp => Ret (Some resp)
      | None => run_stack rest req
      end
  end.

Definition with_params (req : request) (ps : gmap string value) : request :=
  Request (method req) (path req) ps (query req) (body req) (headers req).

Definition with_path (req : request) (p : list string) : request :=
  Request (method req) p (params req) (query req) (body req) (headers req).

(** A router: the first route that matches and answers. *)
Fixpoint run_router (routes : list route) (req : request)
  : prog (option response) :=
  match routes with
  | [] => Ret None
  | r :: rest =>
      match (if verb_eqb (route_verb r) (method req)
             then match_path (route_path r) (path req) else None) with
      | Some ps =>
          a ← run_stack (route_stack r) (with_params req ps);
          match a with
          | Some resp => Ret (Some resp)
          | None => run_router rest req
          end
      | None => run_router rest req
      end
  end.

(** [app.use(prefix, router)] *)
Fixpoint strip_prefix (prefix : list string) (segs : list string)
  : option (list string) :=
  match prefix, segs with
  | [], _ => Some segs
  | p :: prefix', x :: segs' =>
      if lit_eqb p x then strip_prefix prefix' segs' else None
  | _ :: _, [] => None
  end.

Definition mount (prefix : list string) (routes : list route) : middleware :=
  fun req =>
    match strip_prefix prefix (path req) with
    | Some rest => run_router routes (with_path req rest)
    | None => Ret None
    end.

(** A final handler as a middleware. *)
Definition handler (h : request -> prog response) : middleware :=
  fun req => r ← h req; Ret (Some r).

(** ** utils/responseHandler.js *)

Module responseHandler.

Definition success (data : value) (message : string) (statusCode : Z)
  : prog value :=
  timestamp ← now_ISO;
  Ret (VObj (<["timestamp" := VStr timestamp]>
            (<["data" := data]>
            (<["message" := VStr message]>
            (<["statusCode" := num statusCode]>
            {["status" := VBool true]}))))).

(** [error]: [details] is spread in only when it is truthy. *)
Definition error (message : string) (statusCode : Z) (details : value)
  : prog value :=
  timestamp ← now_ISO;
  Ret (VObj (<["timestamp" := VStr timestamp]>
            ((if truthy details then {["details" := details]} else ∅) ∪
            (<["message" := VStr message]>
            (<["statusCode" := num statusCode]>
            {["status" := VBool false]}))))).

Definition paginated (data : value) (page limit total : number) : prog value :=
  let totalPages := Math_ceil (num_div total limit) in
  timestamp ← now_ISO;
  Ret (VObj (<["timestamp" := VStr timestamp]>
            (<["pagination" :=
                 VObj (<["hasPrev" := VBool (num_ltb (Fin 1) page)]>
                      (<["hasNext" := VBool (num_ltb page totalPages)]>
                      (<["totalPages" := VNum totalPages]>
                      (<["total" := VNum total]>
                      (<["limit" := VNum limit]>
                      {["page" := VNum page]})))))]>
            (<["data" := data]>
            (<["statusCode" := num 200]>
            {["status" := VBool true]}))))).

End responseHandler.

(** ** utils/validator.js *)

Module validator.

(** The test [validateRequired] applies to one field of the body. *)
Definition is_missing (body : gmap string value) (field : string) : bool :=
  match prop body field with
  | VUndefined | VNull => true
  | VStr s => String.eqb (trim s) ""
  | _ => false
  end.

Definition validateRequired (requiredFields : list string) : middleware :=
  fun req =>
    let missing := List.filter (is_missing (body req)) requiredFields in
    if (0 <? length missing)%nat then
      Ret (Some (res_json 400
        (VObj (<["details" := VStr ("Missing required fields: " +:+ join ", " missing)]>
              (<["message" := VStr "Validation Error"]>
              (<["statusCode" := num 400]>
              {["status" := VBool false]}))))))
    else Ret None.

Definition no_ws_at (l : list ascii) : bool :=
  forallb (fun c => negb (is_ws c) && negb (Ascii.eqb c "@")) l.

(** Some [.] of the list has a character before and after it. *)
Fixpoint inner_dot (seen : bool) (l : list ascii) : bool :=
  match l with
  | c :: ((_ :: _) as r) => (seen && Ascii.eqb c ".") || inner_dot true r
  | _ => false
  end.

Fixpoint split_at_sign (l cur : list ascii) : option (list ascii * list ascii) :=
  match l with
  | [] => None
  | c :: r => if Ascii.eqb c "@" then Some (rev cur, r)
              else split_at_sign r (c :: cur)
  end.

(** [/^[^\s@]+@[^\s@]+\.[^\s@]+$/.test(s)] *)
Definition emailRegex_test (s : string) : bool :=
  match split_at_sign (chars s) [] with
  | Some (user, host) =>
      negb (length user =? 0)%nat && no_ws_at user && no_ws_at host
      && inner_dot false host
  | None => false
  end.

Definition validateEmail : middleware :=
  fun req =>
    let email := prop (body req) "email" in
    if truthy email then
      s ← lift (ToString email);
      if negb (emailRegex_test s) then
        Ret (Some (res_json 400
          (VObj (<["message" := VStr "Invalid email format"]>
                (<["statusCode" := num 400]>
                {["status" := VBool false]})))))
      else Ret None
    else Ret None.

(** [/^\d{10}$/.test(digitsOnly)]: ten characters, each a digit. *)
Definition phoneRegex_test (digitsOnly : list ascii) : bool :=
  (length digitsOnly =? 10)%nat && forallb is_digit digitsOnly.

Definition validatePhone : middleware :=
  fun req =>
    let phone := prop (body req) "phone" in
    match phone with
    | VUndefined | VNull => Ret None
    | _ =>
        s ← lift (ToString phone);
        let digitsOnly := List.filter is_digit (chars s) in
        if negb (phoneRegex_test digitsOnly) then
          Ret (Some (res_json 400
            (VObj (<["message" := VStr "Invalid phone format. Use 10 digits."]>
                  (<["statusCode" := num 400]>
                  {["status" := VBool false]})))))
        else Ret None
    end.

(** [id === undefined || isNaN(id) || parseInt(id) <= 0] *)
Definition invalid_id (id : value) : result bool :=
  if strict_eq id VUndefined then Ok true
  else
    nan ← isNaN id;
    if nan : bool then Ok true
    else n ← parseInt id; Ok (num_leb n (Fin 0)).

Definition validateId : middleware :=
  fun req =>
    let id := js_or (js_or (js_or (prop (params req) "id")
                                  (prop (params req) "userId"))
                           (prop (params req) "orderId"))
                    (prop (params req) "productId") in
    bad ← lift (invalid_id id);
    if bad : bool then
      Ret (Some (res_json 400
        (VObj (<["message" := VStr "Invalid ID format"]>
              (<["statusCode" := num 400]>
              {["status" := VBool false]})))))
    else Ret None.

End validator.

(** ** What the route files share *)

(** [try { ... } catch (error) { res.status(500).json(response.error(message, 500)) }] *)
Definition catch500 (message : string) (p : prog response) : prog response :=
  try_catch p (fun error =>
    e ← responseHandler.error message 500 VNull; Ret (res_json 500 e)).

(** [res.status(code).json(response.error(message, code))] *)
Definition send_error (code : Z) (message : string) : prog response :=
  e ← responseHandler.error message code VNull; Ret (res_json code e).

(** [res.status(code).json(response.success(data, message, code))] *)
Definition send_success (code : Z) (data : value) (message : string)
  : prog response :=
  s ← responseHandler.success data message code; Ret (res_json code s).

(** [n || d] on numbers. *)
Definition num_or (n d : number) : number :=
  if truthy (VNum n) then n else d.

(** An end of a [slice], clamped into the array. *)
Definition clamp_index (len : Z) (x : number) : Z :=
  match ToIntegerOrInfinity x with
  | inr true => 0
  | inr false => len
  | inl k => if k <? 0 then Z.max (len + k) 0 else Z.min k len
  end.

Definition slice_list {A} (l : list A) (from to : number) : list A :=
  let len := Z.of_nat (length l) in
  let k := clamp_index len from in
  let final := clamp_index len to in
  firstn (Z.to_nat (final - k)) (skipn (Z.to_nat k) l).

(** [v.slice(from, to)]: arrays and strings have the method. *)
Definition js_slice (v : value) (from to : number) : result value :=
  match v with
  | VArr l => Ok (VArr (slice_list l from to))
  | VStr s => Ok (VStr (str (slice_list (chars s) from to)))
  | VUndefined | VNull =>
      Raise (TypeError "Cannot read properties of undefined (reading 'slice')")
  | _ => Raise (TypeError "slice is not a function")
  end.

(** Put [x] into a list sorted by [cmp], after the elements that do not
    come after it. *)
Fixpoint sort_insert (cmp : value -> value -> result number) (x : value)
  (l : list value) : result (list value) :=
  match l with
  | [] => Ok [x]
  | y :: r =>
      c ← cmp y x;
      if num_ltb (Fin 0) c then Ok (x :: y :: r)
      else r' ← sort_insert cmp x r; Ok (y :: r')
  end.

(** [l.sort(cmp)]: a stable sort. *)
Definition Array_sort (cmp : value -> value -> result number) (l : list value)
  : result (list value) :=
  fold_left (fun acc x => sorted ← acc; sort_insert cmp x sorted) l (Ok []).

(** The page of a list the three list routes send:
    [const total = xs.length; const start = (page - 1) * limit;
     res.json(response.paginated(xs.slice(start, start + limit), page, limit, total))] *)
Definition send_page (xs : value) (page limit : number) : prog response :=
  total ← lift (get xs "length");
  let start := num_mul (num_sub page (Fin 1)) limit in
  paged ← lift (js_slice xs start (num_add start limit));
  total ← lift (ToNumber total);
  p ← responseHandler.paginated paged page limit total;
  Ret (res_json 200 p).

(** [parseInt(req.query.name, 10) || d] *)
Definition query_int (req : request) (name : string) (d : Z) : result number :=
  n ← parseInt10 (prop (query req) name); Ok (num_or n (Fin (inject_Z d))).

(** ** routes/userRoutes.js *)

Module userRoutes.

Definition FILENAME : string := "users.json".

(** [(user.name || '').toLowerCase().includes(q) ||
     (user.email || '').toLowerCase().includes(q)] *)
Definition matches_query (q : string) (user : value) : result bool :=
  name ← get user "name";
  n ← call_toLowerCase (js_or name (VStr ""));
  if includes n q then Ok true
  else
    email ← get user "email";
    e ← call_toLowerCase (js_or email (VStr ""));
    Ok (includes e q).

Definition list_users (req : request) : prog response :=
  catch500 "Failed to fetch users" (
    let searchQuery := prop (query req) "search" in
    page ← lift (query_int req "page" 1);
    limit ← lift (query_int req "limit" 10);
    all ← database.getAll FILENAME;
    let users := js_or all (VArr []) in
    users ←
      (if truthy searchQuery then
         s ← lift (ToString searchQuery);
         let q := toLowerCase s in
         items ← lift (as_array "filter" users);
         kept ← lift (Array_filter (matches_query q) items);
         Ret (VArr kept)
       else Ret users);
    send_page users page limit).

Definition get_user (req : request) : prog response :=
  catch500 "Failed to fetch user" (
    user ← database.getById FILENAME (prop (params req) "id");
    if negb (truthy user) then send_error 404 "User not found"
    else send_success 200 user "User fetched successfully").

Definition create_user (req : request) : prog response :=
  catch500 "Failed to create user" (
    let b := body req in
    existingUser ← database.search FILENAME "email" (prop b "email");
    if (0 <? length existingUser)%nat then send_error 409 "Email already exists"
    else
      newUser ← database.create FILENAME
        (<["isActive" := VBool true]>
        (<["country" := js_or (prop b "country") (VStr "")]>
        (<["city" := js_or (prop b "city") (VStr "")]>
        (<["address" := js_or (prop b "address") (VStr "")]>
        (<["phone" := prop b "phone"]>
        (<["email" := prop b "email"]>
        {["name" := prop b "name"]}))))));
      send_success 201 newUser "User created successfully").

Definition put_user (req : request) : prog response :=
  catch500 "Failed to update user" (
    user ← database.getById FILENAME (prop (params req) "id");
    if negb (truthy user) then send_error 404 "User not found"
    else
      let email := prop (body req) "email" in
      old_email ← (if truthy email then lift (get user "email") else Ret VUndefined);
      taken ←
        (if truthy email && negb (strict_eq email old_email) then
           existingUser ← database.search FILENAME "email" email;
           Ret (0 <? length existingUser)%nat
         else Ret false);
      if taken : bool then send_error 409 "Email already exists"
      else
        updatedUser ← database.update FILENAME (prop (params req) "id") (body req);
        send_success 200 updatedUser "User updated successfully").

Definition patch_user (req : request) : prog response :=
  catch500 "Failed to update user" (
    user ← database.getById FILENAME (prop (params req) "id");
    if negb (truthy user) then send_error 404 "User not found"
    else
      updatedUser ← database.update FILENAME (prop (params req) "id") (body req);
      send_success 200 updatedUser "User partially updated").

Definition delete_user (req : request) : prog response :=
  catch500 "Failed to delete user" (
    user ← database.getById FILENAME (prop (params req) "id");
    if negb (truthy user) then send_error 404 "User not found"
    else
      database.deleteRecord FILENAME (prop (params req) "id");;
      send_success 200 VNull "User deleted successfully").

Definition active_users (req : request) : prog response :=
  catch500 "Failed to fetch active users" (
    activeUsers ← database.filter FILENAME (fun user =>
      a ← get user "isActive"; Ok (VBool (strict_eq a (VBool true))));
    send_success 200 (VArr activeUsers) "Active users fetched").

Definition router : list route :=
  [ Route GET [] [handler list_users];
    Route GET [Param "id"] [validator.validateId; handler get_user];
    Route POST []
      [validator.validateRequired ["name"; "email"; "phone"];
       validator.validateEmail; validator.validatePhone; handler create_user];
    Route PUT [Param "id"]
      [validator.validateId; validator.validateEmail; validator.validatePhone;
       handler put_user];
    Route PATCH [Param "id"] [validator.validateId; handler patch_user];
    Route DELETE [Param "id"] [validator.validateId; handler delete_user];
    Route GET [Lit "filter"; Lit "active"] [handler active_users] ].

End userRoutes.

(** ** routes/productRoutes.js *)

Module productRoutes.

Definition FILENAME : string := "products.json".

(** [parseFloat(p.price) || 0] *)
Definition price_of (p : value) : result number :=
  v ← get p "price"; n ← parseFloat v; Ok (num_or n (Fin 0)).

(** [isNaN(price) || price < 0 || isNaN(stock) || stock < 0] *)
Definition invalid_product (price stock : value) : result bool :=
  a ← isNaN price;
  if a : bool then Ok true else
  b ← lt_num price (Fin 0);
  if b : bool then Ok true else
  c ← isNaN stock;
  if c : bool then Ok true else
  lt_num stock (Fin 0).

Section Locale.

(** [a.localeCompare(b)]: the collation of the host. *)
Variable localeCompare : string -> string -> number.

Definition by_name (a b : value) : result number :=
  an ← get a "name";
  sa ← ToString (js_or an (VStr ""));
  bn ← get b "name";
  sb ← ToString (js_or bn (VStr ""));
  Ok (localeCompare sa sb).

Definition by_price_asc (a b : value) : result number :=
  x ← price_of a; y ← price_of b; Ok (num_sub x y).

Definition by_price_desc (a b : value) : result number :=
  y ← price_of b; x ← price_of a; Ok (num_sub y x).

Definition list_products (req : request) : prog response :=
  catch500 "Failed to fetch products" (
    let category := prop (query req) "category" in
    let minPrice := prop (query req) "minPrice" in
    let maxPrice := prop (query req) "maxPrice" in
    let sort := match prop (query req) "sort" with
                | VUndefined => VStr "name"
                | s => s
                end in
    page ← lift (query_int req "page" 1);
    limit ← lift (query_int req "limit" 10);
    all ← database.getAll FILENAME;
    let products := js_or all (VArr []) in
    products ←
      (if truthy category then
         c ← lift (ToString category);
         let cat := toLowerCase c in
         items ← lift (as_array "filter" products);
         kept ← lift (Array_filter (fun p =>
                   pc ← get p "category";
                   l ← call_toLowerCase (js_or pc (VStr ""));
                   Ok (String.eqb l cat)) items);
         Ret (VArr kept)
       else Ret products);
    products ←
      (if truthy minPrice || truthy maxPrice then
         min ← (if truthy minPrice then lift (parseFloat minPrice) else Ret (Fin 0));
         max ← (if truthy maxPrice then lift (parseFloat maxPrice) else Ret (Inf false));
         items ← lift (as_array "filter" products);
         kept ← lift (Array_filter (fun p =>
                   price ← price_of p;
                   Ok (num_leb min price && num_leb price max)) items);
         Ret (VArr kept)
       else Ret products);
    items ← lift (as_array "sort" products);
    sorted ← lift (Array_sort
                     (if strict_eq sort (VStr "price-asc") then by_price_asc
                      else if strict_eq sort (VStr "price-desc") then by_price_desc
                      else by_name) items);
    send_page (VArr sorted) page limit).

End Locale.

Definition get_product (req : request) : prog response :=
  catch500 "Failed to fetch product" (
    product ← database.getById FILENAME (prop (params req) "id");
    if negb (truthy product) then send_error 404 "Product not found"
    else send_success 200 product "Product fetched successfully").

Definition create_product (req : request) : prog response :=
  catch500 "Failed to create product" (
    let b := body req in
    let price := prop b "price" in
    let stock := prop b "stock" in
    bad ← lift (invalid_product price stock);
    if bad : bool then send_error 400 "Price and stock must be positive numbers"
    else
      price' ← lift (parseFloat price);
      stock' ← lift (parseInt stock);
      newProduct ← database.create FILENAME
        (<["inStock" := VBool (num_ltb (Fin 0) stock')]>
        (<["image" := js_or (prop b "image") (VStr "")]>
        (<["description" := js_or (prop b "description") (VStr "")]>
        (<["stock" := VNum stock']>
        (<["category" := prop b "category"]>
        (<["price" := VNum price']>
        {["name" := prop b "name"]}))))));
      send_success 201 newProduct "Product created successfully").

(** [const updateData = { ...req.body }] and the two conversions. *)
Definition put_updateData (b : gmap string value) : result (gmap string value) :=
  u ← match prop b "stock" with
      | VUndefined => Ok b
      | stock =>
          n ← parseInt stock;
          Ok (<["stock" := VNum n]> (<["inStock" := VBool (num_ltb (Fin 0) n)]> b))
      end;
  match prop u "price" with
  | VUndefined => Ok u
  | price => x ← parseFloat price; Ok (<["price" := VNum x]> u)
  end.

Definition put_product (req : request) : prog response :=
  catch500 "Failed to update product" (
    product ← database.getById FILENAME (prop (params req) "id");
    if negb (truthy product) then send_error 404 "Product not found"
    else
      updateData ← lift (put_updateData (body req));
      updatedProduct ← database.update FILENAME (prop (params req) "id") updateData;
      send_success 200 updatedProduct "Product updated successfully").

Definition patch_product (req : request) : prog response :=
  catch500 "Failed to update product" (
    product ← database.getById FILENAME (prop (params req) "id");
    if negb (truthy product) then send_error 404 "Product not found"
    else
      updatedProduct ← database.update FILENAME (prop (params req) "id") (body req);
      send_success 200 updatedProduct "Product partially updated").

Definition delete_product (req : request) : prog response :=
  catch500 "Failed to delete product" (
    product ← database.getById FILENAME (prop (params req) "id");
    if negb (truthy product) then send_error 404 "Product not found"
    else
      database.deleteRecord FILENAME (prop (params req) "id");;
      send_success 200 VNull "Product deleted successfully").

Definition low_stock (req : request) : prog response :=
  catch500 "Failed to fetch low stock products" (
    threshold ← lift (query_int req "threshold" 5);
    lowStockProducts ← database.filter FILENAME (fun product =>
      s ← get product "stock";
      n ← parseInt10 s;
      Ok (VBool (num_leb (num_or n (Fin 0)) threshold)));
    send_success 200 (VArr lowStockProducts) "Low stock products fetched").

Definition by_category (req : request) : prog response :=
  catch500 "Failed to fetch products by category" (
    products ← database.filter FILENAME (fun p =>
      c ← get p "category";
      l ← call_toLowerCase c;
      r ← call_toLowerCase (prop (params req) "category");
      Ok (VBool (String.eqb l r)));
    if (length products =? 0)%nat
    then send_error 404 "No products found in this category"
    else send_success 200 (VArr products) "Products by category fetched").

Definition router (localeCompare : string -> string -> number) : list route :=
  [ Route GET [] [handler (list_products localeCompare)];
    Route GET [Param "id"] [validator.validateId; handler get_product];
    Route POST []
      [validator.validateRequired ["name"; "price"; "category"; "stock"];
       handler create_product];
    Route PUT [Param "id"] [validator.validateId; handler put_product];
    Route PATCH [Param "id"] [validator.validateId; handler patch_product];
    Route DELETE [Param "id"] [validator.validateId; handler delete_product];
    Route GET [Lit "stock"; Lit "low"] [handler low_stock];
    Route GET [Lit "category"; Param "category"] [handler by_category] ].

End productRoutes.

(** ** routes/orderRoutes.js *)

Module orderRoutes.

Definition FILENAME : string := "orders.json".

Definition list_orders (req : request) : prog response :=
  catch500 "Failed to fetch orders" (
    let userId := prop (query req) "userId" in
    let status := prop (query req) "status" in
    page ← lift (query_int req "page" 1);
    limit ← lift (query_int req "limit" 10);
    all ← database.getAll FILENAME;
    let orders := js_or all (VArr []) in
    orders ←
      (if truthy userId then
         items ← lift (as_array "filter" orders);
         kept ← lift (Array_filter (fun o =>
                   u ← get o "userId";
                   n ← parseInt10 userId;
                   Ok (strict_eq u (VNum n))) items);
         Ret (VArr kept)
       else Ret orders);
    orders ←
      (if truthy status then
         st ← lift (ToString status);
         let s := toLowerCase st in
         items ← lift (as_array "filter" orders);
         kept ← lift (Array_filter (fun o =>
                   os ← get o "status";
                   x ← ToString (js_or os (VStr ""));
                   Ok (String.eqb (toLowerCase x) s)) items);
         Ret (VArr kept)
       else Ret orders);
    send_page orders page limit).

Definition get_order (req : request) : prog response :=
  catch500 "Failed to fetch order" (
    order ← database.getById FILENAME (prop (params req) "id");
    if negb (truthy order) then send_error 404 "Order not found"
    else send_success 200 order "Order fetched successfully").

(** [!Array.isArray(items) || items.length === 0] *)
Definition invalid_items (items : value) : bool :=
  match items with
  | VArr l => (length l =? 0)%nat
  | _ => true
  end.

(** [isNaN(totalAmount) || totalAmount <= 0] *)
Definition invalid_amount (totalAmount : value) : result bool :=
  a ← isNaN totalAmount;
  if a : bool then Ok true else le_num totalAmount (Fin 0).

Definition create_order (req : request) : prog response :=
  catch500 "Failed to create order" (
    let b := body req in
    let items := prop b "items" in
    let totalAmount := prop b "totalAmount" in
    if invalid_items items
    then send_error 400 "Items must be a non-empty array"
    else
      bad ← lift (invalid_amount totalAmount);
      if bad : bool
      then send_error 400 "Total amount must be a positive number"
      else
        userId ← lift (parseInt (prop b "userId"));
        amount ← lift (parseFloat totalAmount);
        newOrder ← database.create FILENAME
          (<["notes" := js_or (prop b "notes") (VStr "")]>
          (<["shippingAddress" := js_or (prop b "shippingAddress") (VStr "")]>
          (<["paymentMethod" := js_or (prop b "paymentMethod") (VStr "credit-card")]>
          (<["status" := VStr "pending"]>
          (<["totalAmount" := VNum amount]>
          (<["items" := items]>
          {["userId" := VNum userId]}))))));
        send_success 201 newOrder "Order created successfully").

Definition put_order (req : request) : prog response :=
  catch500 "Failed to update order" (
    order ← database.getById FILENAME (prop (params req) "id");
    if negb (truthy order) then send_error 404 "Order not found"
    else
      let userId := prop (body req) "userId" in
      owner ← (if truthy userId then lift (get order "userId") else Ret VUndefined);
      if truthy userId && negb (strict_eq userId owner)
      then send_error 400 "Cannot change userId after order creation"
      else
        updateData ←
          match prop (body req) "totalAmount" with
          | VUndefined => Ret (body req)
          | t => x ← lift (parseFloat t);
                 Ret (<["totalAmount" := VNum x]> (body req))
          end;
        updatedOrder ← database.update FILENAME (prop (params req) "id") updateData;
        send_success 200 updatedOrder "Order updated successfully").

Definition validStatuses : list string :=
  ["pending"; "confirmed"; "shipped"; "delivered"; "cancelled"].

Definition patch_order (req : request) : prog response :=
  catch500 "Failed to update order" (
    order ← database.getById FILENAME (prop (params req) "id");
    if negb (truthy order) then send_error 404 "Order not found"
    else
      let status := prop (body req) "status" in
      bad ← (if truthy status then
               s ← lift (call_toLowerCase status);
               Ret (negb (existsb (String.eqb s) validStatuses))
             else Ret false);
      if bad : bool then
        send_error 400
          ("Invalid status. Must be one of: " +:+ join ", " validStatuses)
      else
        updatedOrder ← database.update FILENAME (prop (params req) "id") (body req);
        send_success 200 updatedOrder "Order partially updated").

Definition delete_order (req : request) : prog response :=
  catch500 "Failed to delete order" (
    order ← database.getById FILENAME (prop (params req) "id");
    if negb (truthy order) then send_error 404 "Order not found"
    else
      database.deleteRecord FILENAME (prop (params req) "id");;
      send_success 200 VNull "Order deleted successfully").

Definition orders_of_user (req : request) : prog response :=
  catch500 "Failed to fetch user orders" (
    userOrders ← database.filter FILENAME (fun o =>
      u ← get o "userId";
      n ← parseInt (prop (params req) "userId");
      Ok (VBool (strict_eq u (VNum n))));
    if (length userOrders =? 0)%nat
    then send_error 404 "No orders found for this user"
    else send_success 200 (VArr userOrders) "User orders fetched").

Definition orders_by_status (req : request) : prog response :=
  catch500 "Failed to fetch orders by status" (
    orders ← database.filter FILENAME (fun o =>
      s ← get o "status";
      l ← call_toLowerCase s;
      r ← call_toLowerCase (prop (params req) "status");
      Ok (VBool (String.eqb l r)));
    if (length orders =? 0)%nat
    then send_error 404 "No orders found with this status"
    else
      st ← lift (ToString (prop (params req) "status"));
      send_success 200 (VArr orders)
        ("Orders with status '" +:+ st +:+ "' fetched")).

Definition cancel_order (req : request) : prog response :=
  catch500 "Failed to cancel order" (
    order ← database.getById FILENAME (prop (params req) "id");
    if negb (truthy order) then send_error 404 "Order not found"
    else
      status ← lift (get order "status");
      if negb (strict_eq status (VStr "pending"))
      then send_error 400 "Only pending orders can be cancelled"
      else
        updatedOrder ← database.update FILENAME (prop (params req) "id")
                         {["status" := VStr "cancelled"]};
        send_success 200 updatedOrder "Order cancelled successfully").

Definition router : list route :=
  [ Route GET [] [handler list_orders];
    Route GET [Param "id"] [validator.validateId; handler get_order];
    Route POST []
      [validator.validateRequired ["userId"; "items"; "totalAmount"];
       handler create_order];
    Route PUT [Param "id"] [validator.validateId; handler put_order];
    Route PATCH [Param "id"] [validator.validateId; handler patch_order];
    Route DELETE [Param "id"] [validator.validateId; handler delete_order];
    Route GET [Lit "user"; Param "userId"]
      [validator.validateId; handler orders_of_user];
    Route GET [Lit "status"; Param "status"] [handler orders_by_status];
    Route POST [Param "id"; Lit "cancel"]
      [validator.validateId; handler cancel_order] ].

End orderRoutes.

(** ** server.js *)

Module server.

Section Host.

Variable localeCompare : string -> string -> number.
(** [process.env.NODE_ENV] and the [stack] the engine gives an error. *)
Variable NODE_ENV : option string.
Variable stack_of : exn -> string.

Definition health : middleware :=
  fun req =>
    match method req, path req with
    | GET, [h] =>
        if lit_eqb "health" h then
          timestamp ← now_ISO;
          Ret (Some (res_json 200
            (VObj (<["timestamp" := VStr timestamp]>
                  {["status" := VStr "Server is running"]}))))
        else Ret None
    | _, _ => Ret None
    end.

Definition req_path (req : request) : string :=
  "/" +:+ join "/" (path req).

Definition not_found (req : request) : prog response :=
  Ret (res_json 404
    (VObj (<["message" := VStr (verb_name (method req) +:+ " " +:+ req_path req
                                 +:+ " - Endpoint does not exist")]>
          (<["path" := VStr (req_path req)]>
          {["error" := VStr "Route not found"]})))).

(** The error-handling middleware at the end of the stack.  It answers
    with [err.status || 500].  The errors that reach it here are thrown
    by the code of the routes, by [fs] or by [JSON]: an [exn] is an
    [Error] with a name and a message and has no [status], so the
    status is 500.  An error of [express.json()] on a body it cannot
    parse does carry a [status]; such a request never reaches a route
    and is no [request] here, whose [body] is a parsed object. *)
Definition error_handler (err : exn) : prog response :=
  timestamp ← now_ISO;
  let message := js_or (VStr (exn_message err)) (VStr "Internal Server Error") in
  let production :=
    match NODE_ENV with Some e => String.eqb e "production" | None => false end in
  Ret (res_json 500
    (VObj ((if production then ∅ else {["details" := VStr (stack_of err)]}) ∪
          (<["timestamp" := VStr timestamp]>
          (<["statusCode" := num 500]>
          {["error" := message]}))))).

Definition app (req : request) : prog response :=
  try_catch
    (r ← run_stack
           [ health;
             mount ["api"; "users"] userRoutes.router;
             mount ["api"; "products"] (productRoutes.router localeCompare);
             mount ["api"; "orders"] orderRoutes.router ] req;
     match r with
     | Some resp => Ret resp
     | None => not_found req
     end)
    error_handler.

End Host.

End server.

(** ** What a run shows *)

(** The path a call goes to, if it goes to the disk. *)
Definition call_path {X} (c : call X) : option string :=
  match c with
  | ExistsSync p | ReadFileSync p | WriteFileSync p _ => Some p
  | NewDate => None
  end.


Definition call_write {X} (c : call X) : option (string * option text) :=
  match c with
  | WriteFileSync p t => Some (p, t)
  | _ => None
  end.


Definition writes_of (log : list event) : list (string * option text) :=
  omap (fun e => match e with Event c _ => call_write c end) log.

(** Every call of the program that goes to the disk goes to a path in
    [P], whatever the answers. *)
Fixpoint confined {A} (P : string -> Prop) (p : prog A) : Prop :=
  match p with
  | Ret _ | Throw _ => True
  | Do c k =>
      match call_path c with Some q => P q | None => True end
      /\ forall x, confined P (k x)
  end.

(** The program makes no call that reads or writes the disk. *)
Definition offline {A} (p : prog A) : Prop := confined (fun _ => False) p.

(** The response of a program that ends normally. *)
Definition answer_of (p : prog response) (w : world) : option response :=
  match outcome p w with Ok r => Some r | Raise _ => None end.

(** What [readFile] finds in a file, read off the disk directly. *)
Definition parsed (w : world) (filename : string) : value :=
  match stand (disk w) (database.filePath filename) with
  | IsFile t | IsLocked t =>
      if text_truthy t then
        match JSON_parse t with Ok v => v | Raise _ => VArr [] end
      else VArr []
  | _ => VArr []
  end.

(** The calls of one [readFile]. *)
Definition read_log (w : world) (filename : string) : list event :=
  let p := database.filePath filename in
  match stand (disk w) p with
  | IsFile t | IsLocked t => [Event (ExistsSync p) true; Event (ReadFileSync p) (Ok t)]
  | IsDir => [Event (ExistsSync p) true; Event (ReadFileSync p) (Raise EISDIR)]
  | Absent | Unusable => [Event (ExistsSync p) false]
  end.

(** The size of a value, for inductions. *)
Fixpoint vsize (v : value) : nat :=
  match v with
  | VArr l => S (list_sum (map vsize l))
  | VObj o => S (map_fold (fun _ x acc => (vsize x + acc)%nat) O o)
  | _ => 1%nat
  end.

(** The number [n] is the integer [z]. *)
Definition represents (n : number) (z : Z) : Prop :=
  exists q, n = Fin q /\ Qeq q (inject_Z z).

(** An id the program itself can hand out and count on: an integer
    that doubles hold exactly together with its successor. *)
Definition safe_integer (q : Q) : Prop :=
  exists z : Z, Qeq q (inject_Z z) /\ Z.abs z < 2 ^ 53.

(** The [id] of a stored record is usable: missing or otherwise falsy
    (then [create] counts it as 0), or a safe integer. *)
Definition usable_id (item : value) : Prop :=
  exists i, get item "id" = Ok i /\
    (truthy i = false \/ exists q, i = VNum (Fin q) /\ safe_integer q).

(** The number [create] counts a record's id as. *)
Definition counted_id (item : value) : number :=
  match get item "id" with
  | Ok i => match js_or i (num 0) with VNum n => n | _ => NaN end
  | Raise _ => NaN
  end.

(** The [id] property of a record as [===] sees it. *)
Definition id_of (item : value) : value :=
  match get item "id" with Ok i => i | Raise _ => VUndefined end.

(** No two records of the array have the same id. *)
Definition distinct_ids (items : list value) : Prop :=
  forall i j a b, i <> j -> items !! i = Some a -> items !! j = Some b ->
    strict_eq (id_of a) (id_of b) = false.

(** ** Interleaved runs *)

(** One call of a program. *)
Definition step {A} (p : prog A) (w : world) : prog A * world :=
  match p with
  | Do c k => let (x, w') := perform c w in (k x, w')
  | _ => (p, w)
  end.

(** Two programs over one world; the schedule says whose call is next
    ([true]: the first program's). *)
Fixpoint interleave {A B} (schedule : list bool) (p : prog A) (q : prog B)
  (w : world) : prog A * prog B * world :=
  match schedule with
  | [] => (p, q, w)
  | true :: rest => let (p', w') := step p w in interleave rest p' q w'
  | false :: rest => let (q', w') := step q w in interleave rest p q' w'
  end.

(** The calls a program has reached: its next call, if any. *)
Definition next_call {A} (p : prog A) : option (option string) :=
  match p with
  | Do c _ => Some (call_path c)
  | _ => None
  end.

(** The world after [n] more readings of the clock. *)
Definition later (n : nat) (w : world) : world :=
  World (disk w) (n + ticks w) (calendar w).

(** The answer of [fs.writeFileSync(filePath, text)] in a world. *)
Definition write_answer (w : world) (p : string) (t : option text) : result unit :=
  (perform (WriteFileSync p t) w).1.

Arguments perform : simpl never.

(** The operations [utils/database.js] exports on a file, with their
    arguments, and what each runs; results are given as values. *)
Inductive operation : Type :=
| GetAll
| GetById (id : value)
| Create (newRecord : gmap string value)
| Update (id : value) (updateData : gmap string value)
| DeleteRecord (id : value)
| Search (field : string) (wanted : value)
| Filter (filterFn : value -> result value)
| Count.

Definition run_operation (filename : string) (o : operation) : prog value :=
  match o with
  | GetAll => database.getAll filename
  | GetById id => database.getById filename id
  | Create newRecord => database.create filename newRecord
  | Update id updateData => database.update filename id updateData
  | DeleteRecord id => b ← database.deleteRecord filename id; Ret (VBool b)
  | Search field wanted => l ← database.search filename field wanted; Ret (VArr l)
  | Filter filterFn => l ← database.filter filename filterFn; Ret (VArr l)
  | Count => database.count filename
  end.


(** The call of an event goes to the disk only at a path in [P]. *)
Definition event_within (P : string -> Prop) (e : event) : Prop :=
  match e with
  | Event c _ => match call_path c with Some q => P q | None => True end
  end.

(** The same request with other headers. *)
Definition with_headers (req : request) (h : gmap string string) : request :=
  Request (method req) (path req) (params req) (query req) (body req) h.




(** What the server does with a request once its route is known: the
    stack of the route, then the 404 and error handlers of [server.js]. *)
Definition served (NODE_ENV : option string) (stack_of : exn -> string)
    (stack : list middleware) (routed original : request) : prog response :=
  try_catch
    (r ← (a ← (a ← run_stack stack routed;
               match a with
               | Some resp => Ret (Some resp)
               | None => Ret None
               end);
          match a with
          | Some resp => Ret (Some resp)
          | None => Ret None
          end);
     match r with
     | Some resp => Ret resp
     | None => server.not_found original
     end)
    (server.error_handler NODE_ENV stack_of).


(** The record [create] builds, and the one [update] puts in place of
    [old]. *)
Definition created_record (newRecord : gmap string value) (id : number)
    (createdAt updatedAt : string) : value :=
  VObj (<["updatedAt" := VStr updatedAt]>
          (<["createdAt" := VStr createdAt]>
             (newRecord ∪ {["id" := VNum id]}))).

Definition updated_record (old : value) (updateData : gmap string value)
    (old_id old_createdAt : value) (updatedAt : string) : value :=
  VObj (<["updatedAt" := VStr updatedAt]>
          (<["createdAt" := old_createdAt]>
             (<["id" := old_id]>
                (updateData ∪ own_props old)))).

(** What [update] finds before it changes anything: nothing, or the
    array, the index of the record, the record, its [id] and its
    [createdAt]. *)
Definition update_plan (data : value) (id : value)
  : result (option (list value * nat * value * value * value)) :=
  items ← as_array "findIndex" data;
  index ← Array_findIndex (database.id_is id) items;
  match index with
  | None => Ok None
  | Some i =>
      let old := nth i items VUndefined in
      old_id ← get old "id";
      old_createdAt ← get old "createdAt";
      Ok (Some (items, i, old, old_id, old_createdAt))
  end.



(** The event of writing [data] to a file in a world. *)
Definition write_event (w : world) (filename : string) (data : value) : event :=
  let p := database.filePath filename in
  Event (WriteFileSync p (JSON_stringify data))
        (write_answer w p (JSON_stringify data)).

(** The world after [writeFile filename data]. *)
Definition written (w : world) (filename : string) (data : value) : world :=
  (perform (WriteFileSync (database.filePath filename) (JSON_stringify data)) w).2.

(** Every handler of every route stays within [P], whatever the request. *)
Definition routes_within (P : string -> Prop) (routes : list route) : Prop :=
  Forall (fun r => Forall (fun m : middleware => forall req, confined P (m req))
                          (route_stack r)) routes.


(** ** Sample stores and requests *)

(** A world whose [db] directory holds one file, with [data] in it. *)
Definition world_of (filename : string) (data : value) : world :=
  World {[ database.filePath filename := File (Json data) ]} 0
        (fun n => "2024-01-01T00:00:0" +:+ str (Z_digits (Z.of_nat n)) +:+ ".000Z").


(** A host for the server: a locale that does not tell names apart, no
    [NODE_ENV], no stack traces. *)
Definition plain_app : request -> prog response :=
  server.app (fun _ _ => Fin 0) None (fun _ => "").

(** A pending order with the id 0, which no [create] has numbered. *)
Definition order_zero : value :=
  VObj (<["status" := VStr "pending"]> {["id" := num 0]}).

(** A pending order as [create] numbers the first one. *)
Definition sample_order : value :=
  VObj (<["status" := VStr "pending"]> (<["userId" := num 7]> {["id" := num 1]})).

(** A record whose id is a text, and one whose id is 2^53. *)
Definition text_id_record : value := VObj {["id" := VStr "abc"]}.
Definition big_id_record : value := VObj {["id" := num (2 ^ 53)]}.

(** A body that passes the checks of [POST /api/products]. *)
Definition sample_product_body : gmap string value :=
  <["name" := VStr "Lamp"]> (<["price" := num 12]>
    (<["category" := VStr "home"]> {["stock" := num 3]})).

(** What [update] is given to overwrite, [id] and [createdAt] included. *)
Definition sample_update : gmap string value :=
  <["id" := num 9]> (<["createdAt" := VStr "never"]> {["status" := VStr "shipped"]}).

(** ** Calls a program never makes *)

(** Every call of the program is one [allowed] lets through, whatever
    the answers. *)
Fixpoint calls_only {A} (allowed : forall X, call X -> Prop) (p : prog A) : Prop :=
  match p with
  | Ret _ | Throw _ => True
  | Do c k => allowed _ c /\ forall x, calls_only allowed (k x)
  end.

Definition not_a_write (X : Type) (c : call X) : Prop := call_write c = None.

(** The program never calls [fs.writeFileSync]. *)
Definition never_writes {A} (p : prog A) : Prop := calls_only not_a_write p.

(** Every route of the verb [GET] has handlers that never write. *)
Definition get_routes_read_only (routes : list route) : Prop :=
  Forall (fun r => route_verb r = GET ->
            Forall (fun m : middleware => forall req, never_writes (m req))
                   (route_stack r)) routes.

(** ** Requests no route takes *)

(** The route takes the request: its verb, and a path of its shape. *)
Definition takes (r : route) (req : request) : bool :=
  verb_eqb (route_verb r) (method req)
  && match match_path (route_path r) (path req) with
     | Some _ => true
     | None => false
     end.

(** Some route of the router mounted at [prefix] takes the request. *)
Definition routed (prefix : list string) (routes : list route) (req : request)
  : bool :=
  match strip_prefix prefix (path req) with
  | Some rest => existsb (fun r => takes r (with_path req rest)) routes
  | None => false
  end.

(** The request is [GET /health]. *)
Definition is_health (req : request) : bool :=
  match method req, path req with
  | GET, [h] => lit_eqb "health" h
  | _, _ => false
  end.

(** ** What a program does once it has written *)

(** The program throws nothing and every result is in [Q]. *)
Fixpoint settled {A} (Q : A -> Prop) (p : prog A) : Prop :=
  match p with
  | Ret a => Q a
  | Throw _ => False
  | Do _ k => forall x, settled Q (k x)
  end.

(** From its first call of [fs.writeFileSync] on, whatever the answers,
    the program is settled. *)
Fixpoint guarded {A} (Q : A -> Prop) (p : prog A) : Prop :=
  match p with
  | Ret _ | Throw _ => True
  | Do c k =>
      match call_write c with
      | Some _ => forall x, settled Q (k x)
      | None => forall x, guarded Q (k x)
      end
  end.

(** A response that reports success. *)
Definition succeeded (r : response) : Prop := status r < 400.

(** A middleware's answer that is a response reporting success. *)
Definition answered (o : option response) : Prop :=
  exists r, o = Some r /\ succeeded r.

(** Every handler of every route is guarded. *)
Definition routes_guarded (routes : list route) : Prop :=
  Forall (fun r => Forall (fun m : middleware => forall req, guarded answered (m req))
                          (route_stack r)) routes.


(** ** What an answer says about itself *)

(** Every result of the program is in [Q], whatever the answers of its
    calls. *)
Fixpoint returns {A} (Q : A -> Prop) (p : prog A) : Prop :=
  match p with
  | Ret a => Q a
  | Throw _ => True
  | Do _ k => forall x, returns Q (k x)
  end.

(** The payload names the status the response is sent with, and its
    [status] flag tells success from failure as the status does. *)
Definition labelled (r : response) : Prop :=
  get (payload r) "statusCode" = Ok (num (status r))
  /\ get (payload r) "status" = Ok (VBool (status r <? 400)).

(** A middleware's answer, if it gives one, is labelled. *)
Definition labels (o : option response) : Prop :=
  forall r, o = Some r -> labelled r.

(** Every handler of every route labels its answers. *)
Definition routes_labelled (routes : list route) : Prop :=
  Forall (fun r => Forall (fun m : middleware => forall req, returns labels (m req))
                          (route_stack r)) routes.

(** * Proofs *)

(** ** Running programs *)


Lemma exec_bind {A B} (p : prog A) (k : A -> prog B) (w : world) :
  exec (p ≫= k) w =
  match exec p w with
  | (Ok a, w1, l1) => let '(r, w2, l2) := exec (k a) w1 in (r, w2, l1 ++ l2)
  | (Raise e, w1, l1) => (Raise e, w1, l1)
  end.
Proof.
  revert w. induction p as [a|e|X c k' IH]; intros w; simpl.
  - by destruct (exec (k a) w) as [[r w2] l2].
  - done.
  - destruct (perform c w) as [x w1]. unfold mbind, prog_mbind in IH.
    rewrite IH. destruct (exec (k' x) w1) as [[[a|e] w2] l2]; [|done].
    by destruct (exec (k a) w2) as [[r w3] l3].
Qed.

Lemma exec_try_catch {A} (p : prog A) (h : exn -> prog A) (w : world) :
  exec (try_catch p h) w =
  match exec p w with
  | (Ok a, w1, l1) => (Ok a, w1, l1)
  | (Raise e, w1, l1) => let '(r, w2, l2) := exec (h e) w1 in (r, w2, l1 ++ l2)
  end.
Proof.
  revert w. induction p as [a|e|X c k' IH]; intros w; simpl.
  - done.
  - by destruct (exec (h e) w) as [[r w2] l2].
  - destruct (perform c w) as [x w1]. rewrite IH.
    destruct (exec (k' x) w1) as [[[a|e] w2] l2]; [done|].
    by destruct (exec (h e) w2) as [[r w3] l3].
Qed.

Lemma exec_lift {A} (r : result A) (w : world) : exec (lift r) w = (r, w, []).
Proof. by destruct r. Qed.

Lemma exec_ret {A} (a : A) (w : world) : exec (mret a) w = (Ok a, w, []).
Proof. done. Qed.

Lemma exec_now (w : world) :
  exec now_ISO w =
  (Ok (calendar w (ticks w)), later 1 w, [Event NewDate (calendar w (ticks w))]).
Proof. done. Qed.

Lemma exec_now_bind {A} (k : string -> prog A) (w : world) :
  exec (now_ISO ≫= k) w =
  let '(r, w2, l2) := exec (k (calendar w (ticks w))) (later 1 w) in
  (r, w2, Event NewDate (calendar w (ticks w)) :: l2).
Proof. by rewrite exec_bind, exec_now. Qed.

Lemma later_0 w : later 0 w = w.
Proof. by destruct w. Qed.

Lemma later_later n m w : later n (later m w) = later (n + m) w.
Proof. unfold later. simpl. f_equal. lia. Qed.

(** ** readFile and writeFile *)

Lemma exec_readFile (filename : string) (w : world) :
  exec (database.readFile filename) w = (Ok (parsed w filename), w, read_log w filename).
Proof.
  unfold database.readFile, parsed, read_log, fs_existsSync, fs_readFileSync.
  rewrite exec_try_catch. simpl. unfold perform.
  destruct (stand (disk w) (database.filePath filename)) as [t| | | |t] eqn:E;
    simpl; unfold perform; rewrite ?E; simpl; try done.
  all: destruct (text_truthy t); simpl; [|done].
  all: rewrite exec_lift; by destruct (JSON_parse t).
Qed.

Lemma exec_writeFile (filename : string) (data : value) (w : world) :
  let p := database.filePath filename in
  let t := JSON_stringify data in
  exec (database.writeFile filename data) w =
  (Ok (match write_answer w p t with Ok _ => true | Raise _ => false end),
   (perform (WriteFileSync p t) w).2,
   [Event (WriteFileSync p t) (write_answer w p t)]).
Proof.
  unfold database.writeFile, fs_writeFileSync, write_answer.
  rewrite exec_try_catch. simpl.
  destruct (perform (WriteFileSync (database.filePath filename) (JSON_stringify data)) w)
    as [[[]|e] w1]; simpl; done.
Qed.

Lemma outcome_readFile filename w :
  outcome (database.readFile filename) w = Ok (parsed w filename).
Proof. unfold outcome. by rewrite exec_readFile. Qed.

Lemma after_readFile filename w : after (database.readFile filename) w = w.
Proof. unfold after. by rewrite exec_readFile. Qed.


(** C2. File I/O failure never escapes the database layer.  [readFile]
    always returns, leaves the world as it was, and yields the empty array
    when the file does not exist, is empty, cannot be read, or does not
    parse; otherwise it yields the parsed contents.  [writeFile] always
    returns: [true] with the serialized data in the file when
    [fs.writeFileSync] succeeds, [false] with the world untouched when it
    raises (the data has no JSON text, the path is a directory, or its
    directory does not exist). *)
Theorem file_errors_absorbed (filename : string) (data : value) (w : world) :
  let p := database.filePath filename in
  let read := outcome (database.readFile filename) w in
  let write := outcome (database.writeFile filename data) w in
  let written := after (database.writeFile filename data) w in
  (exists v, read = Ok v) /\
  after (database.readFile filename) w = w /\
  ((perform (ExistsSync p) w).1 = false -> read = Ok (VArr [])) /\
  ((perform (ReadFileSync p) w).1 = Ok (Raw "") -> read = Ok (VArr [])) /\
  (forall e, (perform (ReadFileSync p) w).1 = Raise e -> read = Ok (VArr [])) /\
  (forall t e, (perform (ReadFileSync p) w).1 = Ok t ->
     JSON_parse t = Raise e -> read = Ok (VArr [])) /\
  (forall t v, (perform (ReadFileSync p) w).1 = Ok t -> t <> Raw "" ->
     JSON_parse t = Ok v -> read = Ok v) /\
  (exists b, write = Ok b) /\
  (forall t, JSON_stringify data = Some t ->
     (perform (WriteFileSync p (Some t)) w).1 = Ok tt ->
     write = Ok true /\ disk written !! p = Some (File t)) /\
  (forall e, (perform (WriteFileSync p (JSON_stringify data)) w).1 = Raise e ->
     write = Ok false /\ written = w).
Proof.
  intros p read write written. subst read write written.
  rewrite outcome_readFile, after_readFile.
  unfold outcome, after. rewrite exec_writeFile. simpl. fold p.
  unfold parsed, write_answer, perform. fold p.
  destruct (stand (disk w) p) as [t| | | |t] eqn:E; simpl.
  all: repeat split; eauto; try discriminate.
  all: try (intros; simplify_eq; simpl in *; try done).
  all: try (destruct (JSON_stringify data) eqn:Hs; simplify_eq; simpl in *;
            by rewrite ?lookup_insert_eq).
  - by destruct (text_truthy t0), (JSON_parse t0); simplify_eq.
  - destruct t0 as [v0|s]; simpl in *; [by simplify_eq|].
    destruct (String.eqb_spec s ""); [by subst|done].
  - by destruct (text_truthy t0), (JSON_parse t0); simplify_eq.
  - destruct t0 as [v0|s]; simpl in *; [by simplify_eq|].
    destruct (String.eqb_spec s ""); [by subst|done].
Qed.

(** ** Programs confined to a part of the disk *)

Lemma confined_mono {A} (P Q : string -> Prop) (p : prog A) :
  (forall q, P q -> Q q) -> confined P p -> confined Q p.
Proof.
  intros HPQ. induction p as [a|e|X c k IH]; simpl; [done|done|].
  intros [Hc Hk]. split; [|by eauto].
  destruct (call_path c); auto.
Qed.

Lemma confined_bind {A B} P (p : prog A) (k : A -> prog B) :
  confined P p -> (forall a, confined P (k a)) -> confined P (p ≫= k).
Proof.
  intros Hp Hk. induction p as [a|e|X c k' IH]; simpl in *; [done|done|].
  destruct Hp as [Hc Hk']. split; [done|]. intros x. by apply IH.
Qed.

Lemma confined_try_catch {A} P (p : prog A) (h : exn -> prog A) :
  confined P p -> (forall e, confined P (h e)) -> confined P (try_catch p h).
Proof.
  intros Hp Hh. induction p as [a|e|X c k' IH]; simpl in *; [done|done|].
  destruct Hp as [Hc Hk']. split; [done|]. intros x. by apply IH.
Qed.

Lemma confined_lift {A} P (r : result A) : confined P (lift r).
Proof. by destruct r. Qed.

Lemma confined_ret {A} P (a : A) : confined P (mret a).
Proof. done. Qed.

Lemma confined_now P : confined P now_ISO.
Proof. done. Qed.

(** What confinement means for a run: the disk is the same outside [P],
    and every logged call is within [P]. *)
Lemma confined_frame {A} P (p : prog A) (w : world) (q : string) :
  confined P p -> ~ P q -> disk (after p w) !! q = disk w !! q.
Proof.
  unfold after. revert w. induction p as [a|e|X c k IH]; intros w Hp Hq; [done|done|].
  destruct Hp as [Hc Hk]. simpl.
  destruct (perform c w) as [x w1] eqn:E.
  specialize (IH x w1 (Hk x) Hq).
  destruct (exec (k x) w1) as [[r w2] log]. simpl in *. rewrite IH.
  unfold perform in E. destruct c as [p0|p0|p0 [t|]|]; simpl in *; simplify_eq; try done.
  destruct (stand (disk w) p0); simplify_eq; simpl; try done.
  all: rewrite lookup_insert_ne; [done|congruence].
Qed.

Lemma confined_calls {A} P (p : prog A) (w : world) :
  confined P p -> Forall (event_within P) (calls p w).
Proof.
  unfold calls. revert w. induction p as [a|e|X c k IH]; intros w Hp; simpl; [done|done|].
  destruct Hp as [Hc Hk]. destruct (perform c w) as [x w1].
  specialize (IH x w1 (Hk x)).
  destruct (exec (k x) w1) as [[r w2] log]. simpl in *. by constructor.
Qed.

Lemma confined_readFile filename :
  confined (eq (database.filePath filename)) (database.readFile filename).
Proof.
  unfold database.readFile, fs_existsSync, fs_readFileSync.
  apply confined_try_catch; [|done]. simpl. split; [done|].
  intros [|]; simpl; [|done]. split; [done|]. intros [t|e]; simpl; [|done].
  destruct (text_truthy t); [apply confined_lift|done].
Qed.

Lemma confined_writeFile filename data :
  confined (eq (database.filePath filename)) (database.writeFile filename data).
Proof.
  unfold database.writeFile, fs_writeFileSync.
  apply confined_try_catch; [|done]. simpl. split; [done|]. by intros [[]|e].
Qed.

(** Break a program down along its binds, handlers and branches. *)
Ltac confine_step :=
  lazymatch goal with
  | |- confined _ (Ret _) => exact I
  | |- confined _ (Throw _) => exact I
  | |- confined _ (mret _) => exact I
  | |- confined _ (lift _) => apply confined_lift
  | |- confined _ now_ISO => apply confined_now
  | |- confined _ (database.readFile _) => apply confined_readFile
  | |- confined _ (database.writeFile _ _) => apply confined_writeFile
  | |- confined _ (mbind _ _) => apply confined_bind; [|intros ?]
  | |- confined _ (try_catch _ _) => apply confined_try_catch; [|intros ?]
  | |- confined _ (match ?x with _ => _ end) => destruct x
  | |- confined _ (let _ := _ in _) => cbv zeta
  end.

Ltac confine := repeat confine_step.

Lemma confined_operation filename (o : operation) :
  confined (eq (database.filePath filename)) (run_operation filename o).
Proof.
  destruct o; unfold run_operation;
    unfold database.getAll, database.getById, database.create, database.update,
      database.deleteRecord, database.search, database.filter, database.count;
    confine.
Qed.

Lemma confined_getAll filename :
  confined (eq (database.filePath filename)) (database.getAll filename).
Proof. apply confined_readFile. Qed.

Lemma confined_getById filename id :
  confined (eq (database.filePath filename)) (database.getById filename id).
Proof. unfold database.getById. confine. Qed.

Lemma confined_create filename newRecord :
  confined (eq (database.filePath filename)) (database.create filename newRecord).
Proof. unfold database.create. confine. Qed.

Lemma confined_update filename id updateData :
  confined (eq (database.filePath filename)) (database.update filename id updateData).
Proof. unfold database.update. confine. Qed.

Lemma confined_deleteRecord filename id :
  confined (eq (database.filePath filename)) (database.deleteRecord filename id).
Proof. unfold database.deleteRecord. confine. Qed.

Lemma confined_search filename field wanted :
  confined (eq (database.filePath filename)) (database.search filename field wanted).
Proof. unfold database.search. confine. Qed.

Lemma confined_filter filename filterFn :
  confined (eq (database.filePath filename)) (database.filter filename filterFn).
Proof. unfold database.filter. confine. Qed.

Lemma confined_count filename :
  confined (eq (database.filePath filename)) (database.count filename).
Proof. unfold database.count. confine. Qed.

(** ** The routes stay in their file *)

Lemma confined_success P data message code :
  confined P (responseHandler.success data message code).
Proof. unfold responseHandler.success. confine. Qed.

Lemma confined_error P message code details :
  confined P (responseHandler.error message code details).
Proof. unfold responseHandler.error. confine. Qed.

Lemma confined_paginated P data page limit total :
  confined P (responseHandler.paginated data page limit total).
Proof. unfold responseHandler.paginated. confine. Qed.

Lemma confined_send_error P code message : confined P (send_error code message).
Proof. unfold send_error. apply confined_bind; [apply confined_error|done]. Qed.

Lemma confined_send_success P code data message :
  confined P (send_success code data message).
Proof. unfold send_success. apply confined_bind; [apply confined_success|done]. Qed.

Lemma confined_send_page P xs page limit : confined P (send_page xs page limit).
Proof.
  unfold send_page. confine. apply confined_paginated.
Qed.

Lemma confined_catch500 P message p :
  confined P p -> confined P (catch500 message p).
Proof.
  intros Hp. unfold catch500. apply confined_try_catch; [done|].
  intros e. apply confined_bind; [apply confined_error|done].
Qed.

Lemma confined_validateRequired P fields req :
  confined P (validator.validateRequired fields req).
Proof. unfold validator.validateRequired. confine. Qed.

Lemma confined_validateEmail P req : confined P (validator.validateEmail req).
Proof. unfold validator.validateEmail. confine. Qed.

Lemma confined_validatePhone P req : confined P (validator.validatePhone req).
Proof. unfold validator.validatePhone. confine. Qed.

Lemma confined_validateId P req : confined P (validator.validateId req).
Proof. unfold validator.validateId. confine. Qed.

Lemma confined_handler P (h : request -> prog response) :
  (forall req, confined P (h req)) -> forall req, confined P (handler h req).
Proof. intros Hh req. unfold handler. by apply confined_bind. Qed.

Lemma confined_run_stack P (stack : list middleware) (req : request) :
  Forall (fun m => confined P (m req)) stack -> confined P (run_stack stack req).
Proof.
  induction 1 as [|m stack Hm _ IH]; simpl; [done|].
  apply confined_bind; [done|]. by intros [resp|].
Qed.

Lemma confined_run_router P (routes : list route) (req : request) :
  routes_within P routes -> confined P (run_router routes req).
Proof.
  induction 1 as [|r routes Hr _ IH]; simpl; [done|].
  destruct (if verb_eqb _ _ then _ else _) as [ps|]; [|done].
  apply confined_bind; [|by intros [resp|]].
  apply confined_run_stack. eapply Forall_impl; [exact Hr|]. by intros m Hm.
Qed.

Lemma confined_mount P prefix routes req :
  routes_within P routes -> confined P (mount prefix routes req).
Proof.
  intros H. unfold mount. destruct (strip_prefix _ _); [|done].
  by apply confined_run_router.
Qed.

(** The database calls of the handlers, on top of [confine]. *)
Ltac confine_route_step :=
  lazymatch goal with
  | |- confined _ (catch500 _ _) => apply confined_catch500
  | |- confined _ (send_error _ _) => apply confined_send_error
  | |- confined _ (send_success _ _ _) => apply confined_send_success
  | |- confined _ (send_page _ _ _) => apply confined_send_page
  | |- confined _ (database.getAll _) => apply confined_getAll
  | |- confined _ (database.getById _ _) => apply confined_getById
  | |- confined _ (database.create _ _) => apply confined_create
  | |- confined _ (database.update _ _ _) => apply confined_update
  | |- confined _ (database.deleteRecord _ _) => apply confined_deleteRecord
  | |- confined _ (database.search _ _ _) => apply confined_search
  | |- confined _ (database.filter _ _) => apply confined_filter
  | |- confined _ (database.count _) => apply confined_count
  | |- confined _ (validator.validateRequired _ _) => apply confined_validateRequired
  | |- confined _ (validator.validateEmail _) => apply confined_validateEmail
  | |- confined _ (validator.validatePhone _) => apply confined_validatePhone
  | |- confined _ (validator.validateId _) => apply confined_validateId
  | |- confined _ (handler _ _) => apply confined_handler; intros ?
  | |- _ => confine_step
  end.

Ltac confine_route := repeat confine_route_step.

Ltac routes_confined unfold_handlers :=
  unfold routes_within;
  repeat match goal with |- Forall _ _ => constructor; cbn [route_stack] end;
  intros ?; confine_route; unfold_handlers; confine_route.

Lemma userRoutes_within :
  routes_within (eq (database.filePath userRoutes.FILENAME)) userRoutes.router.
Proof.
  unfold userRoutes.router. routes_confined
    ltac:(unfold userRoutes.list_users, userRoutes.get_user,
            userRoutes.create_user, userRoutes.put_user, userRoutes.patch_user,
            userRoutes.delete_user, userRoutes.active_users).
Qed.

Lemma productRoutes_within localeCompare :
  routes_within (eq (database.filePath productRoutes.FILENAME))
    (productRoutes.router localeCompare).
Proof.
  unfold productRoutes.router. routes_confined
    ltac:(unfold productRoutes.list_products, productRoutes.get_product,
            productRoutes.create_product, productRoutes.put_product,
            productRoutes.patch_product, productRoutes.delete_product,
            productRoutes.low_stock, productRoutes.by_category).
Qed.

Lemma orderRoutes_within :
  routes_within (eq (database.filePath orderRoutes.FILENAME)) orderRoutes.router.
Proof.
  unfold orderRoutes.router. routes_confined
    ltac:(unfold orderRoutes.list_orders, orderRoutes.get_order,
            orderRoutes.create_order, orderRoutes.put_order,
            orderRoutes.patch_order, orderRoutes.delete_order,
            orderRoutes.orders_of_user, orderRoutes.orders_by_status,
            orderRoutes.cancel_order).
Qed.

Lemma lit_eqb_true a b : lit_eqb a b = true -> toLowerCase b = toLowerCase a.
Proof. unfold lit_eqb. by intros ->%String.eqb_eq. Qed.

(** A path under one mount point is under no other. *)
Lemma strip_prefix_other (a b c : string) (segs rest : list string) :
  lit_eqb b c = false ->
  strip_prefix [a; b] segs = Some rest -> strip_prefix [a; c] segs = None.
Proof.
  intros Hbc. destruct segs as [|x [|y segs]]; simpl; try done.
  - by destruct (lit_eqb a x).
  - destruct (lit_eqb a x); [|done].
    destruct (lit_eqb b y) eqn:Hb; [|done]. intros _.
    apply lit_eqb_true in Hb. unfold lit_eqb in *. rewrite Hb.
    by rewrite String.eqb_sym, Hbc.
Qed.

Lemma confined_health P req : confined P (server.health req).
Proof.
  unfold server.health. destruct (method req), (path req) as [|h [|]]; try done.
  destruct (lit_eqb "health" h); [|done]. confine.
Qed.

Lemma confined_error_handler P NODE_ENV stack_of err :
  confined P (server.error_handler NODE_ENV stack_of err).
Proof. unfold server.error_handler. confine. Qed.

(** A request under a mount point stays in the file of its router. *)
Lemma confined_app localeCompare NODE_ENV stack_of (req : request)
    (mine : string) (filename : string) (rest : list string) :
  strip_prefix ["api"; mine] (path req) = Some rest ->
  (mine = "users" /\ filename = userRoutes.FILENAME
   \/ mine = "products" /\ filename = productRoutes.FILENAME
   \/ mine = "orders" /\ filename = orderRoutes.FILENAME) ->
  confined (eq (database.filePath filename))
    (server.app localeCompare NODE_ENV stack_of req).
Proof.
  intros Hpath Hmine. unfold server.app.
  apply confined_try_catch; [|intros; apply confined_error_handler].
  apply confined_bind; [|by intros [resp|]].
  apply confined_run_stack.
  assert (forall other routes', lit_eqb mine other = false ->
            confined (eq (database.filePath filename))
              (mount ["api"; other] routes' req)) as Hother.
  { intros other routes' Hne. unfold mount.
    by rewrite (strip_prefix_other _ _ _ _ _ Hne Hpath). }
  destruct Hmine as [[-> ->]|[[-> ->]|[-> ->]]].
  - apply Forall_cons; split; [apply confined_health|].
    apply Forall_cons; split; [apply confined_mount, userRoutes_within|].
    apply Forall_cons; split; [by apply Hother|].
    apply Forall_cons; split; [by apply Hother|]. by apply Forall_nil.
  - apply Forall_cons; split; [apply confined_health|].
    apply Forall_cons; split; [by apply Hother|].
    apply Forall_cons; split; [apply confined_mount, productRoutes_within|].
    apply Forall_cons; split; [by apply Hother|]. by apply Forall_nil.
  - apply Forall_cons; split; [apply confined_health|].
    apply Forall_cons; split; [by apply Hother|].
    apply Forall_cons; split; [by apply Hother|].
    apply Forall_cons; split; [apply confined_mount, orderRoutes_within|].
    by apply Forall_nil.
Qed.

(** C5. Storage is partitioned into one file per resource.  Every call a
    database operation makes to the disk is on the file of the name it was
    given, and it leaves every other path of the disk as it was; handling a
    request under [/api/products] changes nothing outside [products.json],
    and one under [/api/orders] nothing outside [orders.json]. *)
Theorem storage_partitioned :
  (forall (filename : string) (o : operation) (w : world),
     Forall (event_within (eq (database.filePath filename)))
            (calls (run_operation filename o) w)
     /\ forall q, q <> database.filePath filename ->
          disk (after (run_operation filename o) w) !! q = disk w !! q)
  /\ (forall localeCompare NODE_ENV stack_of (req : request) rest (w : world) q,
        strip_prefix ["api"; "products"] (path req) = Some rest ->
        q <> database.filePath productRoutes.FILENAME ->
        disk (after (server.app localeCompare NODE_ENV stack_of req) w) !! q
        = disk w !! q)
  /\ (forall localeCompare NODE_ENV stack_of (req : request) rest (w : world) q,
        strip_prefix ["api"; "orders"] (path req) = Some rest ->
        q <> database.filePath orderRoutes.FILENAME ->
        disk (after (server.app localeCompare NODE_ENV stack_of req) w) !! q
        = disk w !! q).
Proof.
  split; [|split].
  - intros filename o w. split.
    + apply confined_calls, confined_operation.
    + intros q Hq. eapply confined_frame; [apply confined_operation|]. congruence.
  - intros lc env st req rest w q Hpath Hq.
    eapply confined_frame; [|intros Heq; by apply Hq].
    eapply confined_app; [exact Hpath|]. by right; left.
  - intros lc env st req rest w q Hpath Hq.
    eapply confined_frame; [|intros Heq; by apply Hq].
    eapply confined_app; [exact Hpath|]. by right; right.
Qed.

(** C4. No route looks at who is asking.  Two requests with the same
    method, path, URL parameters, query string and body, whatever headers
    each carries, handled in the same state, give the same response, make
    the same calls and leave the same files (and the same clock). *)
Theorem no_authentication localeCompare NODE_ENV stack_of
    (req1 req2 : request) (w : world) :
  method req1 = method req2 ->
  path req1 = path req2 ->
  params req1 = params req2 ->
  query req1 = query req2 ->
  body req1 = body req2 ->
  exec (server.app localeCompare NODE_ENV stack_of req1) w
  = exec (server.app localeCompare NODE_ENV stack_of req2) w.
Proof.
  destruct req1 as [m1 p1 ps1 q1 b1 h1], req2 as [m2 p2 ps2 q2 b2 h2]. simpl.
  intros -> -> -> -> ->. reflexivity.
Qed.

(** ** Routing *)

Lemma exec_run_stack_cons (m : middleware) (rest : list middleware) req w :
  exec (run_stack (m :: rest) req) w =
  match exec (m req) w with
  | (Ok (Some resp), w1, l1) => (Ok (Some resp), w1, l1)
  | (Ok None, w1, l1) =>
      let '(r, w2, l2) := exec (run_stack rest req) w1 in (r, w2, l1 ++ l2)
  | (Raise e, w1, l1) => (Raise e, w1, l1)
  end.
Proof.
  cbn [run_stack]. rewrite exec_bind.
  destruct (exec (m req) w) as [[[[resp|]|e] w1] l1]; try done.
  simpl. by rewrite app_nil_r.
Qed.





Lemma exec_served env st stack routed original w :
  exec (served env st stack routed original) w =
  match exec (run_stack stack routed) w with
  | (Ok (Some resp), w1, l1) => (Ok resp, w1, l1)
  | (Ok None, w1, l1) =>
      let '(r, w2, l2) := exec (server.not_found original) w1 in (r, w2, l1 ++ l2)
  | (Raise e, w1, l1) =>
      let '(r, w2, l2) := exec (server.error_handler env st e) w1 in
      (r, w2, l1 ++ l2)
  end.
Proof.
  unfold served. rewrite exec_try_catch, !exec_bind.
  destruct (exec (run_stack stack routed) w) as [[[[resp|]|e] w1] l1]; simpl.
  - by rewrite !app_nil_r.
  - by rewrite !app_nil_r.
  - done.
Qed.

Lemma exec_send_error code message w :
  exists resp,
    exec (send_error code message) w
    = (Ok resp, later 1 w, [Event NewDate (calendar w (ticks w))])
    /\ status resp = code.
Proof.
  unfold send_error, responseHandler.error.
  rewrite exec_bind, exec_now_bind. simpl. eauto.
Qed.

Lemma exec_validateRequired fields req w :
  exec (validator.validateRequired fields req) w =
  (Ok (if (0 <? length (List.filter (validator.is_missing (body req)) fields))%nat
       then Some (res_json 400
              (VObj (<["details" := VStr ("Missing required fields: " +:+
                         join ", " (List.filter (validator.is_missing (body req)) fields))]>
                    (<["message" := VStr "Validation Error"]>
                    (<["statusCode" := num 400]>
                    {["status" := VBool false]})))))
       else None), w, []).
Proof. unfold validator.validateRequired. by destruct (0 <? _)%nat. Qed.









Lemma exec_bind_lift {A B} (r : result A) (k : A -> prog B) w :
  exec (lift r ≫= k) w =
  match r with Ok a => exec (k a) w | Raise e => (Raise e, w, []) end.
Proof.
  rewrite exec_bind, exec_lift. destruct r as [a|e]; [|done].
  by destruct (exec (k a) w) as [[r' w'] l'].
Qed.







(** ** The database operations in closed form *)

Arguments exec : simpl never.
Arguments now_ISO : simpl never.
Arguments database.readFile : simpl never.
Arguments database.writeFile : simpl never.

Lemma bind_Ok {A B} (a : A) (f : A -> result B) : (Ok a ≫= f) = f a.
Proof. done. Qed.

Lemma bind_Raise {A B} (e : exn) (f : A -> result B) : (Raise e ≫= f) = Raise e.
Proof. done. Qed.

Lemma exec_bind_read {B} filename (k : value -> prog B) w :
  exec (database.readFile filename ≫= k) w =
  let '(r, w2, l2) := exec (k (parsed w filename)) w in
  (r, w2, read_log w filename ++ l2).
Proof. by rewrite exec_bind, exec_readFile. Qed.

Lemma exec_bind_write {B} filename data (k : bool -> prog B) w :
  exec (database.writeFile filename data ≫= k) w =
  let '(r, w2, l2) :=
    exec (k (match write_answer w (database.filePath filename) (JSON_stringify data)
             with Ok _ => true | Raise _ => false end))
         (written w filename data) in
  (r, w2, write_event w filename data :: l2).
Proof. rewrite exec_bind, exec_writeFile. by cbv zeta. Qed.

Lemma exec_getById filename id w :
  exec (database.getById filename id) w =
  (items ← as_array "find" (parsed w filename);
   found ← Array_find (database.id_is id) items;
   Ok (js_or found VNull),
   w, read_log w filename).
Proof.
  unfold database.getById. rewrite exec_bind_read, exec_bind_lift.
  destruct (as_array "find" _) as [items|e];
    rewrite ?bind_Ok, ?bind_Raise, ?app_nil_r; [|done].
  rewrite exec_bind_lift.
  destruct (Array_find _ items); rewrite ?bind_Ok, ?bind_Raise; [|by rewrite app_nil_r].
  by rewrite exec_ret, app_nil_r.
Qed.

Lemma exec_create filename newRecord w :
  exec (database.create filename newRecord) w =
  match database.next_id (parsed w filename) with
  | Raise e => (Raise e, w, read_log w filename)
  | Ok id =>
      let t1 := calendar w (ticks w) in
      let t2 := calendar w (S (ticks w)) in
      let dates := [Event NewDate t1; Event NewDate t2] in
      match as_array "push" (parsed w filename) with
      | Raise e => (Raise e, later 2 w, read_log w filename ++ dates)
      | Ok items =>
          let record := created_record newRecord id t1 t2 in
          let data := VArr (items ++ [record]) in
          (Ok record, written (later 2 w) filename data,
           read_log w filename ++ dates ++ [write_event (later 2 w) filename data])
      end
  end.
Proof.
  unfold database.create. rewrite exec_bind_read, exec_bind_lift.
  destruct (database.next_id _) as [id|e]; [|by rewrite app_nil_r].
  rewrite !exec_now_bind. cbn [later ticks calendar disk plus].
  rewrite exec_bind_lift.
  destruct (as_array "push" _) as [items|e]; [|done].
  by rewrite exec_bind_write, exec_ret.
Qed.

Lemma exec_update filename id updateData w :
  exec (database.update filename id updateData) w =
  match update_plan (parsed w filename) id with
  | Raise e => (Raise e, w, read_log w filename)
  | Ok None => (Ok VNull, w, read_log w filename)
  | Ok (Some (items, i, old, old_id, old_createdAt)) =>
      let t := calendar w (ticks w) in
      let record := updated_record old updateData old_id old_createdAt t in
      let data := VArr (<[i := record]> items) in
      (Ok record, written (later 1 w) filename data,
       read_log w filename ++ [Event NewDate t; write_event (later 1 w) filename data])
  end.
Proof.
  unfold database.update, update_plan.
  rewrite exec_bind_read, exec_bind_lift.
  destruct (as_array "findIndex" _) as [items|e];
    rewrite ?bind_Ok, ?bind_Raise; [|by rewrite app_nil_r].
  rewrite exec_bind_lift.
  destruct (Array_findIndex _ items) as [[i|]|e];
    rewrite ?bind_Ok, ?bind_Raise; try by rewrite ?exec_ret, app_nil_r.
  cbv zeta. rewrite exec_bind_lift.
  destruct (get (nth i items VUndefined) "id") as [old_id|e];
    rewrite ?bind_Ok, ?bind_Raise; [|by rewrite app_nil_r].
  rewrite exec_bind_lift.
  destruct (get (nth i items VUndefined) "createdAt") as [old_c|e];
    rewrite ?bind_Ok, ?bind_Raise; [|by rewrite app_nil_r].
  by rewrite exec_now_bind, exec_bind_write, exec_ret.
Qed.


Lemma exec_search filename field wanted w :
  exec (database.search filename field wanted) w =
  (items ← as_array "filter" (parsed w filename);
   Array_filter (database.search_match field wanted) items,
   w, read_log w filename).
Proof.
  unfold database.search. rewrite exec_bind_read, exec_bind_lift.
  destruct (as_array "filter" _) as [items|e];
    rewrite ?bind_Ok, ?bind_Raise; [|by rewrite app_nil_r].
  by rewrite exec_lift, app_nil_r.
Qed.

Lemma exec_filter filename filterFn w :
  exec (database.filter filename filterFn) w =
  (items ← as_array "filter" (parsed w filename);
   Array_filter (fun item => v ← filterFn item; Ok (truthy v)) items,
   w, read_log w filename).
Proof.
  unfold database.filter. rewrite exec_bind_read, exec_bind_lift.
  destruct (as_array "filter" _) as [items|e];
    rewrite ?bind_Ok, ?bind_Raise; [|by rewrite app_nil_r].
  by rewrite exec_lift, app_nil_r.
Qed.


(** ** Whole-file reads and writes *)


Lemma writes_of_app l1 l2 : writes_of (l1 ++ l2) = writes_of l1 ++ writes_of l2.
Proof. unfold writes_of. apply omap_app. Qed.


Lemma writes_of_read_log w filename : writes_of (read_log w filename) = [].
Proof. unfold read_log. by destruct (stand _ _). Qed.

Lemma writes_of_write_event w filename data :
  writes_of [write_event w filename data]
  = [(database.filePath filename, JSON_stringify data)].
Proof. done. Qed.


Lemma Array_findIndex_lt f items i :
  Array_findIndex f items = Ok (Some i) -> (i < length items)%nat.
Proof.
  revert i. induction items as [|x items IH]; intros i; simpl; [done|].
  destruct (f x) as [[|]|e]; rewrite ?bind_Ok, ?bind_Raise; try done.
  - intros [= <-]. lia.
  - destruct (Array_findIndex f items) as [[j|]|e]; rewrite ?bind_Ok, ?bind_Raise;
      try done.
    intros [= <-]. specialize (IH j eq_refl). lia.
Qed.

Lemma Array_filter_length f items kept :
  Array_filter f items = Ok kept -> (length kept <= length items)%nat.
Proof.
  revert kept. induction items as [|x items IH]; intros kept; simpl.
  - by intros [= <-].
  - destruct (f x) as [b|e]; rewrite ?bind_Ok, ?bind_Raise; [|done].
    destruct (Array_filter f items) as [r|e]; rewrite ?bind_Ok, ?bind_Raise; [|done].
    intros [= <-]. specialize (IH r eq_refl). destruct b; simpl; lia.
Qed.






(** ** What is stored is what JSON can hold *)

Lemma vsize_lookup (o : gmap string value) k x :
  o !! k = Some x -> (vsize x < vsize (VObj o))%nat.
Proof.
  intros H. simpl.
  induction o as [|k' x' o Hk' Hfold IH] using map_first_key_ind.
  - rewrite lookup_empty in H. discriminate.
  - rewrite map_fold_insert_first_key by done.
    destruct (decide (k = k')) as [->|Hne].
    + rewrite lookup_insert_eq in H. injection H as ->. lia.
    + rewrite lookup_insert_ne in H by done. specialize (IH H). lia.
Qed.

Lemma value_ind' (P : value -> Prop) :
  P VUndefined -> P VNull -> (forall b, P (VBool b)) -> (forall n, P (VNum n)) ->
  (forall s, P (VStr s)) -> (forall l, Forall P l -> P (VArr l)) ->
  (forall o, map_Forall (fun _ x => P x) o -> P (VObj o)) ->
  forall v, P v.
Proof.
  intros Hu Hn Hb Hnum Hs Ha Ho v.
  remember (vsize v) as n eqn:Hn'. revert v Hn'.
  induction n as [n IH] using lt_wf_ind. intros v ->. destruct v; auto.
  - apply Ha. apply Forall_forall. intros x Hx. apply (IH (vsize x)); [|done].
    simpl. clear -Hx. induction l as [|y l IHl]; [by apply elem_of_nil in Hx|].
    apply elem_of_cons in Hx as [->|Hx]; simpl; [lia|].
    specialize (IHl Hx). simpl in *. lia.
  - apply Ho. intros k x Hk. apply (IH (vsize x)); [|done]. by eapply vsize_lookup.
Qed.

Lemma jsonify_idem v : jsonify (jsonify v) = jsonify v.
Proof.
  induction v as [| | | n | |l IH|o IH] using value_ind'; simpl; try done.
  - by destruct n.
  - f_equal. rewrite map_map. apply map_ext_Forall. done.
  - f_equal. apply map_eq. intros k. rewrite !lookup_omap.
    destruct (o !! k) as [x|] eqn:E; simpl; [|done].
    specialize (IH k x E). simpl in IH. destruct x; simpl in *; try done.
    + by destruct n.
    + by rewrite IH.
    + by rewrite IH.
Qed.

(** What [readFile] returns went through [JSON.parse]. *)
Lemma parsed_jsonify w filename : jsonify (parsed w filename) = parsed w filename.
Proof.
  unfold parsed. destruct (stand _ _) as [[v|s]| | | |[v|s]]; try done.
  - simpl. apply jsonify_idem.
  - simpl. by destruct (negb _).
  - simpl. apply jsonify_idem.
  - simpl. by destruct (negb _).
Qed.

Lemma parsed_items w filename items :
  parsed w filename = VArr items -> map jsonify items = items.
Proof.
  intros H. pose proof (parsed_jsonify w filename) as Hj.
  rewrite H in Hj. simpl in Hj. by injection Hj.
Qed.

Lemma parsed_later n w filename : parsed (later n w) filename = parsed w filename.
Proof. done. Qed.

(** A file that could be written holds what was written. *)
Lemma stand_written d p t :
  match stand d p with
  | IsFile _ | Absent => stand (<[p := File t]> d) p = IsFile t
  | IsDir | Unusable | IsLocked _ => True
  end.
Proof.
  assert (is_directory (<[p := File t]> d) p = true -> is_directory d p = true) as Hd.
  { unfold is_directory. rewrite lookup_insert_eq, orb_false_r.
    intros ->. done. }
  unfold stand. destruct (String.eqb (last_segment p) "").
  - by destruct (is_directory d (parent p)).
  - destruct (is_directory d p) eqn:E; [done|].
    destruct (is_directory (<[p := File t]> d) p); [by discriminate Hd|].
    rewrite lookup_insert_eq.
    destruct (d !! p) as [[t'| |t']|]; try done;
      by destruct (is_directory d (parent p)).
Qed.

(** After [writeFile filename data] the file parses to the data as JSON
    holds them, or the write failed and nothing changed. *)
Lemma parsed_written w filename l :
  match write_answer w (database.filePath filename) (JSON_stringify (VArr l)) with
  | Ok _ => parsed (written w filename (VArr l)) filename = VArr (map jsonify l)
  | Raise _ => written w filename (VArr l) = w
  end.
Proof.
  unfold write_answer, written, parsed, perform. cbn [JSON_stringify].
  pose proof (stand_written (disk w) (database.filePath filename)
                (Json (jsonify (VArr l)))) as H.
  destruct (stand (disk w) _) eqn:E; cbn [fst snd]; try done.
  - cbn [set_disk disk]. rewrite H. cbn [text_truthy JSON_parse].
    apply (jsonify_idem (VArr l)).
  - cbn [set_disk disk]. rewrite H. cbn [text_truthy JSON_parse].
    apply (jsonify_idem (VArr l)).
Qed.

Lemma writes_of_cons_write w filename data l :
  writes_of (write_event w filename data :: l)
  = (database.filePath filename, JSON_stringify data) :: writes_of l.
Proof. done. Qed.

(** ** Finding a record by its id *)

Lemma Array_findIndex_Some f items i :
  Array_findIndex f items = Ok (Some i) ->
  exists x, items !! i = Some x /\ f x = Ok true.
Proof.
  revert i. induction items as [|x items IH]; intros i; simpl; [done|].
  destruct (f x) as [[|]|e] eqn:Ex; rewrite ?bind_Ok, ?bind_Raise; try done.
  - intros [= <-]. by exists x.
  - destruct (Array_findIndex f items) as [[j|]|e]; rewrite ?bind_Ok, ?bind_Raise;
      try done.
    intros [= <-]. by apply IH.
Qed.

(** Only an object that holds a number under [id] has the id asked for. *)
Lemma id_is_true id item :
  database.id_is id item = Ok true ->
  exists o n, item = VObj o /\ o !! "id" = Some (VNum n).
Proof.
  unfold database.id_is.
  destruct (get item "id") as [a|e] eqn:Eg; rewrite ?bind_Ok, ?bind_Raise; [|done].
  destruct (parseInt id) as [n|e]; rewrite ?bind_Ok, ?bind_Raise; [|done].
  intros [= H]. destruct a as [| | |m| | |]; simpl in H; try done.
  destruct item as [| | | |s|l|o]; simpl in Eg; try done.
  exists o, m. split; [done|]. injection Eg as Eg.
    by destruct (o !! "id") as [x|]; simpl in Eg; subst.
Qed.

(** The properties JSON keeps of an object, and with what value. *)
Lemma jsonify_lookup (o : gmap string value) k :
  own_props (jsonify (VObj o)) !! k
  = match o !! k with
    | Some VUndefined | None => None
    | Some x => Some (jsonify x)
    end.
Proof.
  cbn [jsonify own_props]. rewrite lookup_omap.
  by destruct (o !! k) as [[]|].
Qed.

(** A stored object holds no [undefined] and only what JSON holds. *)
Lemma stored_lookup (o : gmap string value) k x :
  jsonify (VObj o) = VObj o -> o !! k = Some x ->
  x <> VUndefined /\ jsonify x = x.
Proof.
  intros Hj Hk. pose proof (jsonify_lookup o k) as H.
  rewrite Hj, Hk in H. cbn [own_props] in H. rewrite Hk in H.
  destruct x; try done; (split; [done|]); congruence.
Qed.

Lemma stored_item items i x :
  map jsonify items = items -> items !! i = Some x -> jsonify x = x.
Proof.
  intros Hm Hi. rewrite <- Hm in Hi at 1. rewrite list_lookup_fmap_Some in Hi.
  destruct Hi as (y & -> & Hy). by rewrite jsonify_idem.
Qed.

Lemma update_plan_search items id :
  update_plan (VArr items) id =
  match Array_findIndex (database.id_is id) items with
  | Ok (Some i) =>
      match items !! i with
      | Some (VObj old) =>
          Ok (Some (items, i, VObj old, prop old "id", prop old "createdAt"))
      | _ => update_plan (VArr items) id
      end
  | Ok None => Ok None
  | Raise e => Raise e
  end.
Proof.
  destruct (Array_findIndex _ items) as [[i|]|e] eqn:Ef.
  - destruct (items !! i) as [[| | | | | |old]|] eqn:Hx; try done.
    unfold update_plan. cbn [as_array]. rewrite bind_Ok, Ef, bind_Ok.
    cbv zeta. by rewrite nth_lookup, Hx.
  - unfold update_plan. cbn [as_array]. by rewrite bind_Ok, Ef, bind_Ok.
  - unfold update_plan. cbn [as_array]. by rewrite bind_Ok, Ef, bind_Raise.
Qed.

(** C8. [update] on a file that holds an array, when its search finds a
    record with the id: the record returned and the record stored keep
    the [id] and the [createdAt] of the record found, whatever
    [updateData] holds under these names; [updatedAt] is the time of the
    call; every other field is that of [updateData], or else of the
    record found; the array written is the array read with this one
    record replaced, so that every other record of the file is as before.
    When the search finds no record, [update] returns [null], writes
    nothing and leaves the world as it was. *)
Theorem update_preserves_identity (filename : string) (id : value)
    (updateData : gmap string value) (w : world) (items : list value) :
  parsed w filename = VArr items ->
  let p := database.update filename id updateData in
  match Array_findIndex (database.id_is id) items with
  | Ok (Some i) =>
      exists old record items' stored,
        items !! i = Some (VObj old)
        /\ outcome p w = Ok (VObj record)
        /\ record !! "id" = old !! "id"
        /\ prop record "createdAt" = prop old "createdAt"
        /\ record !! "updatedAt" = Some (VStr (calendar w (ticks w)))
        /\ (forall k, k <> "id" -> k <> "createdAt" -> k <> "updatedAt" ->
             record !! k = (updateData ∪ old) !! k)
        /\ writes_of (calls p w)
           = [(database.filePath filename,
               JSON_stringify (VArr (<[i := VObj record]> items)))]
        /\ parsed (after p w) filename = VArr items'
        /\ length items' = length items
        /\ (forall j, j <> i -> items' !! j = items !! j)
        /\ items' !! i = Some (VObj stored)
        /\ stored !! "id" = old !! "id"
        /\ stored !! "createdAt" = old !! "createdAt"
        /\ (VObj stored = jsonify (VObj record) \/ disk (after p w) = disk w)
  | Ok None =>
      outcome p w = Ok VNull /\ after p w = w /\ writes_of (calls p w) = []
  | Raise e =>
      outcome p w = Raise e /\ after p w = w /\ writes_of (calls p w) = []
  end.
Proof.
  intros Hp p. subst p. unfold outcome, after, calls. rewrite exec_update, Hp.
  pose proof (parsed_items _ _ _ Hp) as Hjs.
  rewrite update_plan_search.
  destruct (Array_findIndex _ items) as [[i|]|e] eqn:Ef; cbn [fst snd].
  2,3: by rewrite writes_of_read_log.
  pose proof (Array_findIndex_lt _ _ _ Ef) as Hlt.
  apply Array_findIndex_Some in Ef as (x & Hx & Hid).
  apply id_is_true in Hid as (old & n & -> & Hn).
  pose proof (stored_item _ _ _ Hjs Hx) as Hold.
  rewrite Hx. cbv zeta. cbn [fst snd]. unfold updated_record. cbn [own_props].
  set (record := <["updatedAt" := _]> _).
  pose proof (parsed_written (later 1 w) filename (<[i := VObj record]> items)) as Hw.
  assert (record !! "id" = old !! "id") as Rid.
  { unfold record. rewrite !lookup_insert_ne by done.
    rewrite lookup_insert_eq. unfold prop. by rewrite Hn. }
  assert (record !! "createdAt" = Some (prop old "createdAt")) as Rc.
  { unfold record. rewrite lookup_insert_ne by done. by rewrite lookup_insert_eq. }
  assert (record !! "updatedAt" = Some (VStr (calendar w (ticks w)))) as Ru.
  { unfold record. by rewrite lookup_insert_eq. }
  assert (forall k, k <> "id" -> k <> "createdAt" -> k <> "updatedAt" ->
            record !! k = (updateData ∪ old) !! k) as Rk.
  { intros k ? ? ?. unfold record. by rewrite !lookup_insert_ne. }
  assert (writes_of (read_log w filename ++
            [Event NewDate (calendar w (ticks w));
             write_event (later 1 w) filename (VArr (<[i:=VObj record]> items))])
          = [(database.filePath filename,
              JSON_stringify (VArr (<[i:=VObj record]> items)))]) as Hwr.
  { by rewrite writes_of_app, writes_of_read_log. }
  clearbody record.
  destruct (write_answer _ _ _) as [u|e].
  - exists old, record, (map jsonify (<[i := VObj record]> items)),
      (own_props (jsonify (VObj record))).
    assert (map jsonify (<[i := VObj record]> items)
            = <[i := jsonify (VObj record)]> items) as Hins.
    { rewrite <- Hjs at 2. apply (list_fmap_insert jsonify). }
    split; [done|]. split; [done|]. split; [done|].
    split; [unfold prop; by rewrite Rc|]. split; [done|]. split; [done|].
    split; [done|]. split; [done|].
    rewrite Hins. split; [by rewrite length_insert|].
    split; [intros j Hj; by rewrite list_lookup_insert_ne|].
    split; [by rewrite list_lookup_insert_eq|].
    rewrite !jsonify_lookup, Rid, Rc, Hn.
    destruct (stored_lookup _ _ _ Hold Hn) as [_ ->].
    split; [done|]. split; [|by left].
    unfold prop. destruct (old !! "createdAt") as [c|] eqn:Ec; [|done].
    destruct (stored_lookup _ _ _ Hold Ec) as [Hc Hjc].
    change (default VUndefined (Some c)) with c.
    destruct c; try done; by rewrite Hjc.
  - exists old, record, items, old. rewrite Hw, parsed_later.
    split; [done|]. split; [done|]. split; [done|].
    split; [unfold prop; by rewrite Rc|]. split; [done|]. split; [done|].
    split; [done|]. split; [done|]. split; [done|]. split; [done|].
    split; [done|]. split; [done|]. split; [done|]. by right.
Qed.
(** * Whole-file reads and writes *)


(** ** Cancelling an order *)

Lemma exec_send_success code data message w :
  exists resp,
    exec (send_success code data message) w
    = (Ok resp, later 1 w, [Event NewDate (calendar w (ticks w))])
    /\ status resp = code.
Proof.
  unfold send_success, responseHandler.success.
  rewrite exec_bind, exec_now_bind. simpl. eauto.
Qed.




Lemma invalid_id_string s : exists b, validator.invalid_id (VStr s) = Ok b.
Proof.
  unfold validator.invalid_id, isNaN, parseInt. cbn [strict_eq ToNumber ToString].
  rewrite !bind_Ok. destruct (num_isNaN _); eauto.
Qed.

Lemma js_or_truthy a b : truthy a = true -> js_or a b = a.
Proof. unfold js_or. by intros ->. Qed.

Lemma exec_validateId_string req s w :
  s <> "" -> params req !! "id" = Some (VStr s) ->
  exists o, exec (validator.validateId req) w = (Ok o, w, [])
    /\ match validator.invalid_id (VStr s) with
       | Ok false => o = None
       | _ => exists resp, o = Some resp /\ status resp = 400
       end.
Proof.
  intros Hs Hid. unfold validator.validateId.
  assert (prop (params req) "id" = VStr s) as -> by (unfold prop; by rewrite Hid).
  assert (truthy (VStr s) = true) as Ht.
  { simpl. apply negb_true_iff. by apply String.eqb_neq. }
  rewrite !(js_or_truthy (VStr s)) by done.
  rewrite exec_bind_lift.
  destruct (invalid_id_string s) as [[|] ->]; rewrite exec_ret; eauto.
Qed.







(** ** Doubles that are integers *)

Lemma Qred_inject_Z z : Qred (inject_Z z) = inject_Z z.
Proof.
  unfold Qred, inject_Z.
  pose proof (Z.ggcd_gcd z 1) as Hg.
  pose proof (Z.ggcd_correct_divisors z 1) as Hd.
  destruct (Z.ggcd z 1) as [g [r1 r2]]. cbn [fst snd] in *.
  rewrite Z.gcd_1_r in Hg. subst g. destruct Hd as [H1 H2].
  rewrite Z.mul_1_l in H1, H2. by subst.
Qed.

Lemma rne_exact n d : 0 < d -> rne (n * d) d = n.
Proof.
  intros Hd. unfold rne. rewrite Z.div_mul, Z.mod_mul by lia.
  change (2 * 0) with 0. by destruct d.
Qed.

Lemma ilog2_integer a : 0 < a -> ilog2 a 1 = Z.log2 a.
Proof.
  intros Ha. unfold ilog2. change (Z.log2 1) with 0. rewrite Z.sub_0_r.
  pose proof (Z.log2_nonneg a). pose proof (Z.log2_spec a Ha) as [Hl _].
  destruct (0 <=? Z.log2 a) eqn:E; [|lia].
  destruct (1 * 2 ^ Z.log2 a <=? a) eqn:E'; [done|lia].
Qed.

Lemma sgn_abs_mul z : Z.sgn z * Z.abs z = z.
Proof. destruct z; simpl; lia. Qed.

(** An integer of at most 53 bits is a double. *)
Lemma round64_integer q z :
  Qeq q (inject_Z z) -> Z.abs z <= 2 ^ 53 -> represents (round64 q) z.
Proof.
  intros Hq Hz. unfold round64, represents.
  rewrite (Qred_complete _ _ Hq), Qred_inject_Z. cbn [Qnum Qden inject_Z].
  destruct (z =? 0) eqn:E0.
  { apply Z.eqb_eq in E0 as ->. by exists 0%Q. }
  apply Z.eqb_neq in E0.
  assert (0 < Z.abs z) as Ha by lia.
  rewrite (ilog2_integer _ Ha).
  pose proof (Z.log2_nonneg (Z.abs z)) as Hl0.
  pose proof (Z.log2_spec _ Ha) as [Hl1 Hl2].
  assert (Z.log2 (Z.abs z) <= 53) as Hl3.
  { rewrite <- (Z.log2_pow2 53) by lia. by apply Z.log2_le_mono. }
  rewrite Z.max_l by lia.
  destruct (0 <=? Z.log2 (Z.abs z) - 52) eqn:Ee.
  - apply Z.leb_le in Ee.
    assert (exists m, Z.abs z = m * (1 * 2 ^ (Z.log2 (Z.abs z) - 52))) as [m Hm].
    { assert (Z.log2 (Z.abs z) = 52 \/ Z.log2 (Z.abs z) = 53) as [E|E] by lia;
        rewrite E in *.
      - exists (Z.abs z). change (1 * 2 ^ (52 - 52)) with 1. by rewrite Z.mul_1_r.
      - exists (2 ^ 52). change (2 ^ 52 * (1 * 2 ^ (53 - 52))) with (2 ^ 53).
        by apply Z.le_antisymm. }
    assert (0 < 1 * 2 ^ (Z.log2 (Z.abs z) - 52)) as Hpos.
    { pose proof (Z.pow_pos_nonneg 2 (Z.log2 (Z.abs z) - 52)). lia. }
    assert (m * 2 ^ (Z.log2 (Z.abs z) - 52) = Z.abs z) as Hm' by (rewrite Hm at 2; ring).
    set (d := 1 * 2 ^ (Z.log2 (Z.abs z) - 52)) in *.
    assert (rne (Z.abs z) d = m) as -> by (rewrite Hm; by apply rne_exact).
    rewrite Hm'.
    destruct (2 ^ 1024 <=? Z.abs z) eqn:Eo.
    { apply Z.leb_le in Eo.
      assert (2 ^ 53 < 2 ^ 1024) by (by apply Z.pow_lt_mono_r). lia. }
    eexists. split; [done|]. by rewrite <- Z.mul_assoc, Hm', sgn_abs_mul.
  - apply Z.leb_gt in Ee.
    set (k := - (Z.log2 (Z.abs z) - 52)). assert (0 < k) as Hk by lia.
    assert (0 < 2 ^ k) as Hpk by (apply Z.pow_pos_nonneg; lia).
    rewrite <- (Z.mul_1_r (Z.abs z * 2 ^ k)), rne_exact by done.
    eexists. split; [done|]. rewrite Qred_correct.
    unfold Qeq. cbn [Qnum Qden inject_Z]. rewrite Z2Pos.id by done.
    rewrite Z.mul_assoc, sgn_abs_mul. lia.
Qed.

Lemma Qcompare_inject_Z a b : Qcompare (inject_Z a) (inject_Z b) = Z.compare a b.
Proof. unfold Qcompare. cbn [Qnum Qden inject_Z]. by rewrite !Z.mul_1_r. Qed.

Lemma num_ltb_represents x a y b :
  represents x a -> represents y b -> num_ltb x y = (a <? b).
Proof.
  intros (p & -> & Hp) (q & -> & Hq). cbn [num_ltb].
  rewrite Hp, Hq, Qcompare_inject_Z. unfold Z.ltb. by destruct (a ?= b).
Qed.

Lemma num_eqb_represents x a y b :
  represents x a -> represents y b -> num_eqb x y = (a =? b).
Proof.
  intros (p & -> & Hp) (q & -> & Hq). cbn [num_eqb].
  destruct (Z.eqb_spec a b) as [->|Hne].
  - apply Qeq_bool_iff. by rewrite Hp, Hq.
  - apply not_true_is_false. intros H%Qeq_bool_iff. rewrite Hp, Hq in H.
    apply Hne. by apply inject_Z_injective.
Qed.

Lemma num_max2_represents x a y b :
  represents x a -> represents y b -> represents (num_max2 x y) (Z.max a b).
Proof.
  intros Hx Hy. pose proof (num_ltb_represents _ _ _ _ Hx Hy) as Hlt.
  destruct Hx as (p & -> & Hp), Hy as (q & -> & Hq). cbn [num_max2].
  rewrite Hlt. destruct (Z.ltb_spec a b).
  - rewrite Z.max_r by lia. by exists q.
  - rewrite Z.max_l by lia. by exists p.
Qed.

Lemma num_add_1_represents x a :
  represents x a -> Z.abs (a + 1) <= 2 ^ 53 -> represents (num_add x (Fin 1)) (a + 1).
Proof.
  intros (p & -> & Hp) Ha. cbn [num_add]. apply round64_integer; [|done].
  rewrite Hp. unfold Qeq. cbn. lia.
Qed.

(** ** The id [create] hands out *)

Lemma represents_inj n a b : represents n a -> represents n b -> a = b.
Proof.
  intros (p & -> & Hp) (q & [= <-] & Hq). apply inject_Z_injective.
  by rewrite <- Hp, <- Hq.
Qed.

Lemma represents_num z : represents (Fin (inject_Z z)) z.
Proof. by exists (inject_Z z). Qed.

(** The running maximum of [Math.max] over safe integers. *)
Lemma fold_max_represents ns : forall acc a,
  represents acc a -> Z.abs a < 2 ^ 53 ->
  Forall (fun n => exists z, represents n z /\ Z.abs z < 2 ^ 53) ns ->
  exists m, represents (fold_left num_max2 ns acc) m /\ Z.abs m < 2 ^ 53
    /\ a <= m /\ Forall (fun n => exists z, represents n z /\ z <= m) ns.
Proof.
  induction ns as [|n ns IH]; intros acc a Hacc Ha Hns; cbn [fold_left].
  - exists a. repeat split; [done..|lia|constructor].
  - apply Forall_cons in Hns as [(z & Hz & Hzb) Hns].
    destruct (IH (num_max2 acc n) (Z.max a z)) as (m & Hm & Hmb & Hle & Hall);
      [by apply num_max2_represents|lia|done|].
    exists m. repeat split; [done..|lia|].
    apply Forall_cons. split; [|done]. exists z. split; [done|lia].
Qed.

Lemma Math_max_represents n ns :
  Forall (fun n => exists z, represents n z /\ Z.abs z < 2 ^ 53) (n :: ns) ->
  exists m, represents (Math_max (n :: ns)) m /\ Z.abs m < 2 ^ 53
    /\ Forall (fun n => exists z, represents n z /\ z <= m) (n :: ns).
Proof.
  intros H. apply Forall_cons in H as [(z & Hz & Hzb) Hns].
  unfold Math_max. cbn [fold_left].
  assert (num_max2 (Inf true) n = n) as ->.
  { by destruct Hz as (q & -> & _). }
  destruct (fold_max_represents ns n z Hz Hzb Hns) as (m & Hm & Hmb & Hle & Hall).
  exists m. repeat split; [done..|].
  apply Forall_cons. split; [|done]. by exists z.
Qed.

(** What [item.id || 0] counts for a record with a usable id. *)
Lemma counted_usable item :
  usable_id item ->
  (i ← database.id_or_0 item; ToNumber i) = Ok (counted_id item)
  /\ exists z, represents (counted_id item) z /\ Z.abs z < 2 ^ 53.
Proof.
  intros (i & Hg & Hi). unfold database.id_or_0, counted_id. rewrite Hg, !bind_Ok.
  unfold js_or. destruct (truthy i) eqn:Et.
  - destruct Hi as [?|(q & -> & z & Hq & Hz)]; [done|].
    split; [done|]. exists z. split; [by exists q|done].
  - split; [done|]. exists 0. split; [apply represents_num|done].
Qed.

Lemma counted_ids items :
  Forall usable_id items ->
  (ids ← Array_map database.id_or_0 items; sequence (map ToNumber ids))
  = Ok (map counted_id items).
Proof.
  unfold Array_map. induction 1 as [|item items Hi _ IH]; [done|].
  destruct (counted_usable item Hi) as [Hc _].
  cbn [map sequence fold_right]. fold (sequence (map database.id_or_0 items)).
  destruct (database.id_or_0 item) as [i|e]; rewrite ?bind_Ok, ?bind_Raise in *;
    [|done].
  destruct (sequence (map database.id_or_0 items)) as [ids|e];
    rewrite ?bind_Ok, ?bind_Raise in *; [|done].
  cbn [map sequence fold_right]. fold (sequence (map ToNumber ids)).
  by rewrite Hc, IH.
Qed.

(** The next id is one more than the greatest id counted. *)
Lemma next_id_usable items :
  Forall usable_id items ->
  exists n z, database.next_id (VArr items) = Ok n /\ represents n z
    /\ (items = [] -> n = Fin 1)
    /\ Forall (fun item => exists c, represents (counted_id item) c /\ c < z) items.
Proof.
  intros Hu. unfold database.next_id. cbn [get as_array].
  change (String.eqb "length" "length") with true. cbv iota.
  rewrite bind_Ok. unfold gt_num, num. cbn [ToNumber]. rewrite !bind_Ok.
  rewrite (num_ltb_represents _ 0 _ (Z.of_nat (length items)))
    by apply represents_num.
  destruct items as [|item items].
  { exists (Fin 1), 1. repeat split; [apply (represents_num 1)|constructor]. }
  assert ((0 <? Z.of_nat (length (item :: items))) = true) as ->
    by (apply Z.ltb_lt; simpl; lia).
  pose proof (counted_ids _ Hu) as Hc.
  destruct (Array_map database.id_or_0 (item :: items)) as [ids|e];
    rewrite ?bind_Ok, ?bind_Raise in *; [|done].
  rewrite Hc, bind_Ok.
  assert (Forall (fun n => exists z, represents n z /\ Z.abs z < 2 ^ 53)
            (map counted_id (item :: items))) as Hall.
  { apply Forall_map. eapply Forall_impl; [exact Hu|].
    intros x Hx. by destruct (counted_usable x Hx) as [_ ?]. }
  destruct (Math_max_represents _ _ Hall) as (m & Hm & Hmb & Hle).
  eexists _, (m + 1). split; [done|].
  split; [apply num_add_1_represents; [done|lia]|]. split; [done|].
  change (Forall (fun n => exists z, represents n z /\ z <= m)
            (map counted_id (item :: items))) in Hle.
  apply (proj1 (Forall_map _ _ _)) in Hle. eapply Forall_impl; [exact Hle|].
  intros x (c & Hc' & Hcm). exists c. split; [done|lia].
Qed.

Lemma strict_eq_sym a b : strict_eq a b = strict_eq b a.
Proof.
  destruct a as [| |x|x|x| |], b as [| |y|y|y| |]; cbn [strict_eq]; try done.
  - by destruct x, y.
  - destruct x as [|s|p], y as [|t|q]; cbn [num_eqb]; try done.
    + by destruct s, t.
    + apply Bool.eq_true_iff_eq. rewrite !Qeq_bool_iff. split; intros H; by symmetry.
  - apply String.eqb_sym.
Qed.

(** The id handed out is not the id of a record counted below it. *)
Lemma fresh_id item n z :
  usable_id item -> (exists c, represents (counted_id item) c /\ c < z) ->
  represents n z -> strict_eq (id_of item) (VNum n) = false.
Proof.
  intros (i & Hg & Hi) (c & Hc & Hcz) Hn. unfold id_of, counted_id in *.
  rewrite Hg in *. unfold js_or in Hc. destruct (truthy i) eqn:Et.
  - destruct Hi as [?|(q & -> & _)]; [done|]. cbn [strict_eq].
    rewrite (num_eqb_represents _ c _ z) by done. apply Z.eqb_neq. lia.
  - assert (c = 0) as -> by (eapply represents_inj; [exact Hc|apply represents_num]).
    destruct i as [| | |x| | |]; cbn [strict_eq]; try done.
    destruct x as [|s|q]; cbn [num_eqb]; try done.
    assert (represents (Fin q) 0) as Hq.
    { exists q. split; [done|]. simpl in Et. apply negb_false_iff in Et.
      unfold Qis_zero in Et. apply Z.eqb_eq in Et.
      unfold Qeq. cbn [Qnum Qden inject_Z]. lia. }
    change (num_eqb (Fin q) n = false).
    rewrite (num_eqb_represents _ 0 _ z) by done. apply Z.eqb_neq. lia.
Qed.

(** C7, as the code has it.  On a file that holds an array of records
    whose ids are each falsy (missing, [null], 0, ...: counted as 0) or
    a safe integer (an integer below 2^53 in absolute value), [create],
    given a new record without an [id] of its own, returns a record whose
    [id] is a number strictly greater than the id counted for every
    record of the array, and 1 when the array is empty; the file then
    holds the array with the new record at its end (or is as before,
    when it could not be written), and ids that were pairwise distinct
    still are. *)
Theorem create_assigns_fresh_id (filename : string)
    (newRecord : gmap string value) (w : world) (items : list value) :
  parsed w filename = VArr items ->
  Forall usable_id items ->
  newRecord !! "id" = None ->
  let p := database.create filename newRecord in
  exists record n items',
    outcome p w = Ok (VObj record)
    /\ record !! "id" = Some (VNum n)
    /\ Forall (fun item => num_ltb (counted_id item) n = true) items
    /\ (items = [] -> n = Fin 1)
    /\ parsed (after p w) filename = VArr items'
    /\ (items' = items ++ [jsonify (VObj record)]
        \/ items' = items /\ disk (after p w) = disk w)
    /\ (distinct_ids items -> distinct_ids items').
Proof.
  intros Hp Hu Hnew p. subst p. unfold outcome, after. rewrite exec_create, Hp.
  destruct (next_id_usable items Hu) as (n & z & -> & Hn & Hempty & Hlt).
  cbn [as_array]. cbv zeta. cbn [fst snd]. unfold created_record.
  set (record := <["updatedAt" := _]> _).
  assert (record !! "id" = Some (VNum n)) as Hid.
  { unfold record. rewrite !lookup_insert_ne by done.
    rewrite lookup_union_r by done. apply lookup_singleton_eq. }
  pose proof (parsed_items _ _ _ Hp) as Hjs.
  assert (id_of (jsonify (VObj record)) = VNum n) as Hstored.
  { unfold id_of. change (get (jsonify (VObj record)) "id")
      with (Ok (default VUndefined (own_props (jsonify (VObj record)) !! "id"))).
    rewrite jsonify_lookup, Hid. by destruct Hn as (q & -> & _). }
  assert (distinct_ids items -> distinct_ids (items ++ [jsonify (VObj record)]))
    as Hdistinct.
  { intros Hd i j a b Hij Ha Hb.
    apply lookup_app_Some in Ha as [Ha|[Hi Ha]], Hb as [Hb|[Hj Hb]].
    - by apply (Hd i j).
    - apply list_lookup_singleton_Some in Hb as [_ <-]. rewrite Hstored.
      apply (fresh_id _ _ z); [|by apply (Forall_lookup_1 _ _ _ _ Hlt Ha)|done].
      by apply (Forall_lookup_1 _ _ _ _ Hu Ha).
    - apply list_lookup_singleton_Some in Ha as [_ <-]. rewrite Hstored, strict_eq_sym.
      apply (fresh_id _ _ z); [|by apply (Forall_lookup_1 _ _ _ _ Hlt Hb)|done].
      by apply (Forall_lookup_1 _ _ _ _ Hu Hb).
    - apply list_lookup_singleton_Some in Ha as [Ha _], Hb as [Hb _]. lia. }
  clearbody record.
  pose proof (parsed_written (later 2 w) filename (items ++ [VObj record])) as Hw.
  exists record, n.
  destruct (write_answer _ _ _) as [u|e].
  - exists (items ++ [jsonify (VObj record)]).
    split; [done|]. split; [done|]. split.
    { eapply Forall_impl; [exact Hlt|]. intros x (c & Hc & Hcz).
      rewrite (num_ltb_represents _ c _ z) by done. by apply Z.ltb_lt. }
    split; [done|]. split; [|by split; [left|]].
    rewrite Hw, map_app, Hjs. done.
  - exists items. rewrite Hw, parsed_later.
    split; [done|]. split; [done|]. split.
    { eapply Forall_impl; [exact Hlt|]. intros x (c & Hc & Hcz).
      rewrite (num_ltb_represents _ c _ z) by done. by apply Z.ltb_lt. }
    split; [done|]. split; [done|]. split; [by right|done].
Qed.

(** ** Two creates on one file *)

Ltac run_step H :=
  cbn [interleave step mbind prog_mbind prog_bind try_catch lift app];
  unfold perform at 1; cbn [disk ticks calendar set_disk];
  rewrite ?H;
  cbn [interleave step mbind prog_mbind prog_bind try_catch lift app negb
       text_truthy JSON_parse].

Lemma stored_array data items : jsonify data = VArr items -> map jsonify items = items.
Proof.
  intros H. pose proof (jsonify_idem data) as Hi. rewrite H in Hi.
  cbn [jsonify] in Hi. by injection Hi.
Qed.

Lemma parsed_file w filename data :
  stand (disk w) (database.filePath filename) = IsFile (Json data) ->
  parsed w filename = jsonify data.
Proof. unfold parsed. by intros ->. Qed.

Lemma written_file w filename t l :
  stand (disk w) (database.filePath filename) = IsFile t ->
  stand (disk (written w filename (VArr l))) (database.filePath filename)
  = IsFile (Json (jsonify (VArr l))).
Proof.
  intros Hs. unfold written, perform. cbn [JSON_stringify]. rewrite Hs.
  cbn [snd set_disk disk].
  pose proof (stand_written (disk w) (database.filePath filename)
                (Json (jsonify (VArr l)))) as H.
  by rewrite Hs in H.
Qed.

Lemma interleave_app {A B} (s1 s2 : list bool) (p : prog A) (q : prog B) w :
  interleave (s1 ++ s2) p q w
  = let '(p', q', w') := interleave s1 p q w in interleave s2 p' q' w'.
Proof.
  revert p q w. induction s1 as [|[|] s1 IH]; intros p q w; cbn [app interleave].
  - done.
  - destruct (step p w) as [p' w']. apply IH.
  - destruct (step q w) as [q' w']. apply IH.
Qed.

(** C6. Nothing keeps two [create]s on one file apart: each reads the
    whole file, computes, and writes the whole file, and a call of the
    other may come in between.  On a file that holds an array, when the
    first [create] has read the file and the clock, the second runs from
    its first call to its last, and the first then writes: both return a
    record, with the same id; the file held the second record when the
    second returned, and holds the array read with the first record alone
    once the first has written.  The record of the second is lost. *)
Theorem interleaved_creates_lose_a_record (filename : string)
    (r1 r2 : gmap string value) (w : world) (data : value)
    (items : list value) (n : number) :
  stand (disk w) (database.filePath filename) = IsFile (Json data) ->
  jsonify data = VArr items ->
  database.next_id (VArr items) = Ok n ->
  let first := database.create filename r1 in
  let second := database.create filename r2 in
  let record1 := created_record r1 n (calendar w (ticks w))
                   (calendar w (1 + ticks w)) in
  let record2 := created_record r2 n (calendar w (2 + ticks w))
                   (calendar w (3 + ticks w)) in
  let read1 := [true; true; true; true] in
  let all2 := [false; false; false; false; false] in
  exists (k : result unit -> prog value) (w9 w10 : world),
    interleave (read1 ++ all2) first second w
    = (Do (WriteFileSync (database.filePath filename)
             (JSON_stringify (VArr (items ++ [record1])))) k,
       Ret record2, w9)
    /\ parsed w9 filename = VArr (items ++ [jsonify record2])
    /\ interleave (read1 ++ all2 ++ [true]) first second w
       = (Ret record1, Ret record2, w10)
    /\ parsed w10 filename = VArr (items ++ [jsonify record1]).
Proof.
  intros Hs Hj Hn first second record1 record2 read1 all2.
  subst first second read1 all2.
  pose proof (stored_array _ _ Hj) as Hjs.
  pose proof (written_file (later 4 w) filename _ (items ++ [record2]) Hs) as Hs9.
  set (w9 := written (later 4 w) filename (VArr (items ++ [record2]))) in *.
  pose proof (written_file w9 filename _ (items ++ [record1]) Hs9) as Hs10.
  set (w10 := written w9 filename (VArr (items ++ [record1]))) in *.
  assert (w9 = set_disk (later 4 w)
                 (<[database.filePath filename :=
                      File (Json (jsonify (VArr (items ++ [record2]))))]> (disk w)))
    as Hw9.
  { unfold w9, written, perform. cbn [JSON_stringify disk later]. by rewrite Hs. }
  assert (w10 = set_disk w9
                  (<[database.filePath filename :=
                       File (Json (jsonify (VArr (items ++ [record1]))))]> (disk w9)))
    as Hw10.
  { unfold w10, written, perform. cbn [JSON_stringify]. by rewrite Hs9. }
  assert (interleave ([true; true; true; true] ++ [false; false; false; false; false])
            (database.create filename r1) (database.create filename r2) w
          = (Do (WriteFileSync (database.filePath filename)
                   (JSON_stringify (VArr (items ++ [record1]))))
                (fun x => prog_bind (fun _ : bool => Ret record1)
                            (try_catch (prog_bind (fun _ : unit => Ret true) (lift x))
                                       (fun _ => Ret false))),
             Ret record2, w9)) as Hpre.
  { unfold database.create, database.readFile, database.writeFile, fs_existsSync,
      fs_readFileSync, fs_writeFileSync, now_ISO.
    do 2 run_step Hs. rewrite Hj, Hn.
    do 4 run_step Hs. rewrite Hj, Hn.
    do 2 run_step Hs. cbn [as_array]. run_step Hs.
    cbn [interleave step mbind prog_mbind prog_bind try_catch lift app].
    rewrite Hw9. reflexivity. }
  eexists _, w9, w10.
  split; [exact Hpre|]. split; [|split].
  - rewrite (parsed_file _ _ _ Hs9), jsonify_idem. cbn [jsonify].
    by rewrite map_app, Hjs.
  - rewrite app_assoc, interleave_app, Hpre.
    cbn [interleave step]. unfold perform. cbn [JSON_stringify]. rewrite Hs9.
    cbn [prog_bind try_catch lift]. by rewrite Hw10.
  - rewrite (parsed_file _ _ _ Hs10), jsonify_idem. cbn [jsonify].
    by rewrite map_app, Hjs.
Qed.

(** ** The theorems at work on sample stores *)

(** C7 fails as stated: after a record whose id is the text [abc],
    [create] hands out [NaN], which is greater than nothing; after a
    record whose id is 2^53 it hands out 2^53 again. *)
Lemma create_after_unsafe_ids :
  let p := database.create "items.json" ∅ in
  let w1 := world_of "items.json" (VArr [text_id_record]) in
  let w2 := world_of "items.json" (VArr [big_id_record]) in
  parsed w1 "items.json" = VArr [text_id_record]
  /\ (r ← outcome p w1; get r "id") = Ok (VNum NaN)
  /\ parsed w2 "items.json" = VArr [big_id_record]
  /\ (r ← outcome p w2; get r "id") = Ok (num (2 ^ 53))
  /\ (r ← outcome p w2; i ← get r "id"; Ok (strict_eq i (id_of big_id_record)))
     = Ok true.
Proof. vm_compute. repeat split. Qed.


Lemma no_authentication_witness :
  let req1 := Request GET ["api"; "orders"] ∅ ∅ ∅
                {["authorization" := "Bearer alice"]} in
  let req2 := Request GET ["api"; "orders"] ∅ ∅ ∅ {["cookie" := "sid=mallory"]} in
  let w := world_of orderRoutes.FILENAME (VArr [sample_order]) in
  headers req1 !! "cookie" <> headers req2 !! "cookie"
  /\ exec (plain_app req1) w = exec (plain_app req2) w.
Proof.
  intros req1 req2 w. split; [by vm_compute|].
  unfold plain_app. by apply no_authentication.
Defined.

Lemma storage_partitioned_witness :
  let req := Request POST ["api"; "products"] ∅ ∅ sample_product_body ∅ in
  let w := world_of orderRoutes.FILENAME (VArr [sample_order]) in
  let q := database.filePath orderRoutes.FILENAME in
  strip_prefix ["api"; "products"] (path req) = Some []
  /\ q <> database.filePath productRoutes.FILENAME
  /\ option_map status (answer_of (plain_app req) w) = Some 201
  /\ disk (after (plain_app req) w) !! q = disk w !! q.
Proof.
  intros req w q.
  assert (strip_prefix ["api"; "products"] (path req) = Some []) as H1 by done.
  assert (q <> database.filePath productRoutes.FILENAME) as H2 by (by vm_compute).
  split; [exact H1|]. split; [exact H2|]. split; [by vm_compute|].
  exact (proj1 (proj2 storage_partitioned) (fun _ _ => Fin 0) None (fun _ => "")
           req [] w q H1 H2).
Defined.

Lemma interleaved_creates_lose_a_record_witness :
  let w := world_of "users.json" (VArr []) in
  let first := database.create "users.json" {["name" := VStr "Ada"]} in
  let second := database.create "users.json" {["name" := VStr "Bob"]} in
  stand (disk w) (database.filePath "users.json") = IsFile (Json (VArr []))
  /\ database.next_id (VArr []) = Ok (Fin 1)
  /\ exists r1 r2 w10 kept,
       interleave [true; true; true; true; false; false; false; false; false; true]
         first second w = (Ret r1, Ret r2, w10)
       /\ parsed w10 "users.json" = VArr [kept].
Proof.
  intros w first second.
  assert (stand (disk w) (database.filePath "users.json") = IsFile (Json (VArr [])))
    as H1 by (by vm_compute).
  assert (database.next_id (VArr []) = Ok (Fin 1)) as H2 by (by vm_compute).
  split; [exact H1|]. split; [exact H2|].
  destruct (interleaved_creates_lose_a_record "users.json" {["name" := VStr "Ada"]}
              {["name" := VStr "Bob"]} w (VArr []) [] (Fin 1) H1 eq_refl H2)
    as (k & w9 & w10 & _ & _ & Hrun & Hfile).
  eexists _, _, w10, _. split; [exact Hrun|exact Hfile].
Defined.

Lemma create_assigns_fresh_id_witness :
  let w := world_of orderRoutes.FILENAME (VArr [sample_order]) in
  let p := database.create orderRoutes.FILENAME {["userId" := num 8]} in
  parsed w orderRoutes.FILENAME = VArr [sample_order]
  /\ Forall usable_id [sample_order]
  /\ ({["userId" := num 8]} : gmap string value) !! "id" = None
  /\ exists record n,
       outcome p w = Ok (VObj record) /\ record !! "id" = Some (VNum n)
       /\ num_ltb (counted_id sample_order) n = true.
Proof.
  intros w p.
  assert (parsed w orderRoutes.FILENAME = VArr [sample_order]) as H1
    by (by vm_compute).
  assert (Forall usable_id [sample_order]) as H2.
  { constructor; [|constructor]. exists (num 1). split; [by vm_compute|].
    right. exists (inject_Z 1). split; [done|]. exists 1. split; [done|].
    by vm_compute. }
  assert (({["userId" := num 8]} : gmap string value) !! "id" = None) as H3
    by (by vm_compute).
  split; [exact H1|]. split; [exact H2|]. split; [exact H3|].
  destruct (create_assigns_fresh_id orderRoutes.FILENAME {["userId" := num 8]} w
              [sample_order] H1 H2 H3)
    as (record & n & items' & Ho & Hid & Hlt & _).
  exists record, n. split; [exact Ho|]. split; [exact Hid|].
  by apply Forall_inv in Hlt.
Defined.

Lemma update_preserves_identity_witness :
  let w := world_of orderRoutes.FILENAME (VArr [sample_order]) in
  let p := database.update orderRoutes.FILENAME (VStr "1") sample_update in
  parsed w orderRoutes.FILENAME = VArr [sample_order]
  /\ exists record,
       outcome p w = Ok (VObj record)
       /\ record !! "id" = Some (num 1)
       /\ record !! "status" = Some (VStr "shipped").
Proof.
  intros w p.
  assert (parsed w orderRoutes.FILENAME = VArr [sample_order]) as H1
    by (by vm_compute).
  split; [exact H1|].
  pose proof (update_preserves_identity orderRoutes.FILENAME (VStr "1")
                sample_update w [sample_order] H1) as T.
  cbv zeta in T.
  change (Array_findIndex (database.id_is (VStr "1")) [sample_order])
    with (@Ok (option nat) (Some 0%nat)) in T.
  destruct T as (old & record & items' & stored & Hi & Ho & Hid & _ & _ & Hk & _).
  exists record. split; [exact Ho|].
  injection Hi as <-. split.
  - rewrite Hid. by vm_compute.
  - rewrite Hk by done. by vm_compute.
Defined.


(** * Further properties of the server *)

(** ** Every request is answered *)

Lemma exec_error_handler env st e w :
  exists resp,
    exec (server.error_handler env st e) w
    = (Ok resp, later 1 w, [Event NewDate (calendar w (ticks w))])
    /\ status resp = 500.
Proof.
  unfold server.error_handler. rewrite exec_now_bind. cbv zeta.
  rewrite exec_ret. eauto.
Qed.

(** No exception leaves the server: whatever the request and the state
    of the disk, [app] ends with a response; when a middleware or a
    handler throws past its own [catch], the error handler of
    [server.js] answers 500. *)
Theorem every_request_is_answered lc env st (req : request) (w : world) :
  exists resp, outcome (server.app lc env st req) w = Ok resp.
Proof.
  unfold outcome, server.app. rewrite exec_try_catch.
  destruct (exec _ w) as [[[resp|e] w1] l1]; [by exists resp|].
  destruct (exec_error_handler env st e w1) as (resp & -> & _). by exists resp.
Qed.

(** ** Requests no route takes *)

Lemma run_router_none routes req :
  existsb (fun r => takes r req) routes = false -> run_router routes req = Ret None.
Proof.
  induction routes as [|r routes IH]; [done|]. cbn [existsb run_router].
  intros [Hr Hrest]%orb_false_iff. unfold takes in Hr.
  destruct (verb_eqb (route_verb r) (method req)); [|by apply IH].
  destruct (match_path (route_path r) (path req)); [done|by apply IH].
Qed.

Lemma mount_none prefix routes req :
  routed prefix routes req = false -> mount prefix routes req = Ret None.
Proof.
  unfold routed, mount. destruct (strip_prefix prefix (path req)); [|done].
  apply run_router_none.
Qed.

Lemma health_none req : is_health req = false -> server.health req = Ret None.
Proof.
  unfold is_health, server.health.
  destruct (method req), (path req) as [|h [|]]; try done. by intros ->.
Qed.

(** A request whose path is not [/health] and does not begin with
    [/api/users], [/api/products] or [/api/orders], letter case aside,
    is answered 404, whatever its verb, with the error [Route not
    found] and its own path; the server makes no call for it: the disk
    is neither read nor written, the clock is not read. *)
Theorem unrouted_request_is_404 lc env st (req : request) (w : world) :
  (forall h, path req = [h] -> toLowerCase h <> "health") ->
  (forall a c rest, path req = a :: c :: rest -> toLowerCase a = "api" ->
     toLowerCase c <> "users" /\ toLowerCase c <> "products"
     /\ toLowerCase c <> "orders") ->
  exists resp,
    exec (server.app lc env st req) w = (Ok resp, w, [])
    /\ status resp = 404
    /\ get (payload resp) "error" = Ok (VStr "Route not found")
    /\ get (payload resp) "path" = Ok (VStr (server.req_path req)).
Proof.
  intros Hhealth Hapi.
  assert (is_health req = false) as Hh.
  { unfold is_health. destruct (method req), (path req) as [|h [|]]; try done.
    unfold lit_eqb. apply String.eqb_neq. intros H. by apply (Hhealth h). }
  assert (forall (name : string) routes,
            toLowerCase name = name ->
            (forall a c rest, path req = a :: c :: rest -> toLowerCase a = "api" ->
               toLowerCase c <> name) ->
            routed ["api"; name] routes req = false) as Hout.
  { intros name routes Hname Hc. unfold routed. cbn [strip_prefix].
    destruct (path req) as [|a [|c rest]] eqn:Ep; try done.
    - by destruct (lit_eqb "api" a).
    - unfold lit_eqb.
      destruct (String.eqb_spec (toLowerCase "api") (toLowerCase a)) as [Ha|]; [|done].
      rewrite Hname.
      destruct (String.eqb_spec name (toLowerCase c)) as [Hn|]; [|done].
      destruct (Hc a c rest eq_refl); by rewrite <- ?Ha, <- ?Hn. }
  unfold server.app. cbn [run_stack].
  rewrite (health_none _ Hh), (mount_none _ userRoutes.router _),
    (mount_none _ (productRoutes.router lc) _), (mount_none _ orderRoutes.router _).
  - eexists. split; [reflexivity|]. split; [done|]. split; by vm_compute.
  - apply Hout; [done|]. intros a c rest Hp Ha. by apply (Hapi a c rest Hp Ha).
  - apply Hout; [done|]. intros a c rest Hp Ha. by apply (Hapi a c rest Hp Ha).
  - apply Hout; [done|]. intros a c rest Hp Ha. by apply (Hapi a c rest Hp Ha).
Qed.

(** ** Requests that only read *)

Lemma calls_only_bind {A B} ok (p : prog A) (k : A -> prog B) :
  calls_only ok p -> (forall a, calls_only ok (k a)) -> calls_only ok (p ≫= k).
Proof.
  intros Hp Hk. induction p as [a|e|X c k' IH]; simpl in *; [done|done|].
  destruct Hp as [Hc Hk']. split; [done|]. intros x. by apply IH.
Qed.

Lemma calls_only_try_catch {A} ok (p : prog A) (h : exn -> prog A) :
  calls_only ok p -> (forall e, calls_only ok (h e)) -> calls_only ok (try_catch p h).
Proof.
  intros Hp Hh. induction p as [a|e|X c k' IH]; simpl in *; [done|done|].
  destruct Hp as [Hc Hk']. split; [done|]. intros x. by apply IH.
Qed.

Lemma calls_only_lift {A} ok (r : result A) : calls_only ok (lift r).
Proof. by destruct r. Qed.

Lemma never_writes_now : never_writes now_ISO.
Proof. done. Qed.

Lemma never_writes_readFile filename : never_writes (database.readFile filename).
Proof.
  unfold never_writes, database.readFile, fs_existsSync, fs_readFileSync.
  apply calls_only_try_catch; [|done]. simpl. split; [done|].
  intros [|]; simpl; [|done]. split; [done|]. intros [t|e]; simpl; [|done].
  destruct (text_truthy t); [apply calls_only_lift|done].
Qed.

(** A program that never writes leaves the disk as it was. *)
Lemma never_writes_frame {A} (p : prog A) (w : world) :
  never_writes p -> writes_of (calls p w) = [] /\ disk (after p w) = disk w.
Proof.
  unfold never_writes, calls, after. revert w.
  induction p as [a|e|X c k IH]; intros w Hp; [done|done|].
  destruct Hp as [Hc Hk].
  change (exec (Do c k) w)
    with (let (x, w1) := perform c w in
          let '(r, w2, log) := exec (k x) w1 in (r, w2, Event c x :: log)).
  destruct (perform c w) as [x w1] eqn:E.
  specialize (IH x w1 (Hk x)).
  destruct (exec (k x) w1) as [[r w2] log]. cbn [fst snd] in *.
  destruct IH as [IH1 IH2].
  change (writes_of (Event c x :: log))
    with (match call_write c with
          | Some y => y :: writes_of log
          | None => writes_of log
          end).
  unfold not_a_write in Hc. rewrite Hc, IH2. split; [done|].
  unfold perform in E. destruct c as [p0|p0|p0 t|]; simpl in *; simplify_eq; done.
Qed.

Ltac quiet_step :=
  lazymatch goal with
  | |- calls_only _ (Ret _) => exact I
  | |- calls_only _ (Throw _) => exact I
  | |- calls_only _ (mret _) => exact I
  | |- calls_only _ (lift _) => apply calls_only_lift
  | |- calls_only _ now_ISO => apply never_writes_now
  | |- calls_only _ (database.readFile _) => apply never_writes_readFile
  | |- calls_only _ (mbind _ _) => apply calls_only_bind; [|intros ?]
  | |- calls_only _ (try_catch _ _) => apply calls_only_try_catch; [|intros ?]
  | |- calls_only _ (match ?x with _ => _ end) => destruct x
  | |- calls_only _ (let _ := _ in _) => cbv zeta
  end.

Ltac quiet unfold_all := unfold never_writes; repeat (repeat quiet_step; unfold_all).

Ltac unfold_readers :=
  unfold handler, catch500, send_error, send_success, send_page,
    responseHandler.success, responseHandler.error, responseHandler.paginated,
    database.getAll, database.getById, database.filter, database.search,
    database.count,
    validator.validateId, validator.validateRequired, validator.validateEmail,
    validator.validatePhone.

Lemma never_writes_run_stack (stack : list middleware) (req : request) :
  Forall (fun m => never_writes (m req)) stack -> never_writes (run_stack stack req).
Proof.
  induction 1 as [|m stack Hm _ IH]; simpl; [done|].
  apply calls_only_bind; [done|]. by intros [resp|].
Qed.

Lemma never_writes_run_router (routes : list route) (req : request) :
  get_routes_read_only routes -> method req = GET ->
  never_writes (run_router routes req).
Proof.
  intros H Hm. induction H as [|r routes Hr _ IH]; cbn [run_router]; [done|].
  rewrite Hm. destruct (verb_eqb (route_verb r) GET) eqn:Ev; [|done].
  assert (route_verb r = GET) as Hv by (by destruct (route_verb r)).
  destruct (match_path _ _) as [ps|]; [|done].
  apply calls_only_bind; [|by intros [resp|]].
  apply never_writes_run_stack. eapply Forall_impl; [exact (Hr Hv)|]. by intros m Hq.
Qed.

Lemma never_writes_mount prefix routes req :
  get_routes_read_only routes -> method req = GET ->
  never_writes (mount prefix routes req).
Proof.
  intros H Hm. unfold mount. destruct (strip_prefix _ _); [|done].
  by apply never_writes_run_router.
Qed.

Ltac read_only_routes unfold_handlers :=
  unfold get_routes_read_only;
  repeat match goal with |- Forall _ _ => constructor; cbn [route_stack route_verb] end;
  try (intros [=]; fail);
  intros _;
  repeat match goal with |- Forall _ _ => constructor end;
  intros ?; unfold_handlers; quiet unfold_readers.

Lemma userRoutes_read_only : get_routes_read_only userRoutes.router.
Proof.
  unfold userRoutes.router. read_only_routes
    ltac:(unfold userRoutes.list_users, userRoutes.get_user, userRoutes.active_users).
Qed.

Lemma productRoutes_read_only lc : get_routes_read_only (productRoutes.router lc).
Proof.
  unfold productRoutes.router. read_only_routes
    ltac:(unfold productRoutes.list_products, productRoutes.get_product,
            productRoutes.low_stock, productRoutes.by_category).
Qed.

Lemma orderRoutes_read_only : get_routes_read_only orderRoutes.router.
Proof.
  unfold orderRoutes.router. read_only_routes
    ltac:(unfold orderRoutes.list_orders, orderRoutes.get_order,
            orderRoutes.orders_of_user, orderRoutes.orders_by_status).
Qed.

(** Reading is safe: whatever its path, query and body, a [GET] request
    never reaches [fs.writeFileSync]; the disk after it is the disk
    before it. *)
Theorem get_requests_never_write lc env st (req : request) (w : world) :
  method req = GET ->
  writes_of (calls (server.app lc env st req) w) = []
  /\ disk (after (server.app lc env st req) w) = disk w.
Proof.
  intros Hm. apply never_writes_frame. unfold never_writes, server.app.
  apply calls_only_try_catch.
  - apply calls_only_bind; [|by intros [resp|]].
    apply never_writes_run_stack.
    repeat (apply Forall_cons; split); [| | | |by apply Forall_nil].
    + unfold server.health. rewrite Hm. destruct (path req) as [|h [|]]; try done.
      by destruct (lit_eqb "health" h).
    + by apply never_writes_mount; [apply userRoutes_read_only|].
    + by apply never_writes_mount; [apply productRoutes_read_only|].
    + by apply never_writes_mount; [apply orderRoutes_read_only|].
  - intros e. unfold server.error_handler. quiet idtac.
Qed.

(** ** The health check *)

(** [GET /health], in any case of the letters, is answered 200 with
    [Server is running] and the time of the call; the server reads the
    clock for it and nothing else, so that the answer does not depend on
    the state of the disk. *)
Theorem health_needs_no_disk lc env st (h : string) ps q b hd (w : world) :
  toLowerCase h = "health" ->
  exists resp,
    exec (server.app lc env st (Request GET [h] ps q b hd)) w
    = (Ok resp, later 1 w, [Event NewDate (calendar w (ticks w))])
    /\ status resp = 200
    /\ get (payload resp) "status" = Ok (VStr "Server is running")
    /\ get (payload resp) "timestamp" = Ok (VStr (calendar w (ticks w))).
Proof.
  intros Hh. unfold server.app. cbn [run_stack].
  unfold server.health at 1. cbn [method path].
  assert (lit_eqb "health" h = true) as ->.
  { unfold lit_eqb. rewrite Hh. by vm_compute. }
  rewrite exec_try_catch, exec_bind, exec_bind, exec_now_bind, exec_ret.
  cbn [fst snd app]. rewrite !exec_ret. cbn [fst snd app].
  eexists. split; [reflexivity|]. split; [done|]. split; by vm_compute.
Qed.

(** * Further properties of the database layer *)

(** ** Deleting *)

Lemma Array_filter_kept f items kept :
  Array_filter f items = Ok kept ->
  sublist kept items /\ Forall (fun x => f x = Ok true) kept
  /\ (length kept = length items -> kept = items).
Proof.
  revert kept. induction items as [|x items IH]; intros kept; cbn [Array_filter].
  - intros [= <-]. by repeat split.
  - destruct (f x) as [b|e] eqn:Ex; rewrite ?bind_Ok, ?bind_Raise; [|done].
    destruct (Array_filter f items) as [r|e] eqn:Er; rewrite ?bind_Ok, ?bind_Raise;
      [|done].
    destruct (IH r eq_refl) as (Hs & Hf & Hl).
    pose proof (Array_filter_length _ _ _ Er) as Hle.
    intros [= <-]. destruct b.
    + split; [by apply sublist_skip|]. split; [by apply Forall_cons|].
      cbn [length]. intros [= Hlen]. by rewrite Hl.
    + split; [by apply sublist_cons|]. split; [done|].
      cbn [length]. intros Hlen. lia.
Qed.



Lemma Forall_stored items kept :
  map jsonify items = items -> sublist kept items -> map jsonify kept = kept.
Proof.
  intros Hj Hs.
  assert (Forall (fun x => jsonify x = x) items) as Hall.
  { apply Forall_lookup. intros i x Hi. by eapply stored_item. }
  assert (Forall (fun x => jsonify x = x) kept) as Hk.
  { apply Forall_forall. intros x Hx. rewrite Forall_forall in Hall.
    apply Hall. by eapply elem_of_sublist. }
  clear -Hk. induction Hk as [|x l Hx _ IH]; [done|]. cbn [map]. by rewrite Hx, IH.
Qed.


(** ** Creating *)


(** ** Updating *)



(** * Further properties of the validators *)

(** ** The e-mail pattern *)

Lemma split_at_sign_spec l : forall cur user host,
  validator.split_at_sign l cur = Some (user, host) <->
  exists pre, user = rev cur ++ pre /\ l = pre ++ "@"%char :: host
    /\ forallb (fun c => negb (Ascii.eqb c "@")) pre = true.
Proof.
  induction l as [|c l IH]; intros cur user host; cbn [validator.split_at_sign].
  - split; [done|]. intros (pre & _ & H & _). by destruct pre.
  - destruct (Ascii.eqb c "@") eqn:Ec.
    + apply Ascii.eqb_eq in Ec as ->. split.
      * intros [= <- <-]. exists []. by rewrite app_nil_r.
      * intros (pre & -> & H & Hpre). destruct pre as [|d pre].
        -- rewrite app_nil_r. by injection H as <-.
        -- injection H as <- H. by cbn in Hpre.
    + rewrite IH. split.
      * intros (pre & -> & -> & Hpre). exists (c :: pre). cbn [rev forallb].
        rewrite <- app_assoc, Ec. by repeat split.
      * intros (pre & -> & H & Hpre). destruct pre as [|d pre].
        -- injection H as -> _. by rewrite Ascii.eqb_refl in Ec.
        -- injection H as <- ->. exists pre. cbn [rev forallb] in *.
           rewrite <- app_assoc. rewrite Ec in Hpre. by repeat split.
Qed.

Lemma inner_dot_spec l : forall seen,
  validator.inner_dot seen l = true <->
  exists a b, l = a ++ "."%char :: b /\ b <> [] /\ (seen = true \/ a <> []).
Proof.
  induction l as [|c l IH]; intros seen; cbn [validator.inner_dot].
  - split; [done|]. intros (a & b & H & _). by destruct a.
  - destruct l as [|d l].
    + split; [done|]. intros (a & b & H & Hb & _).
      destruct a as [|x [|y a]]; cbn in H; simplify_eq; done.
    + rewrite orb_true_iff, andb_true_iff, IH. split.
      * intros [[-> Hc]|(a & b & -> & Hb & _)].
        -- apply Ascii.eqb_eq in Hc as ->. exists [], (d :: l).
           split; [done|]. split; [done|]. by left.
        -- exists (c :: a), b.
           split; [done|]. split; [done|]. by right.
      * intros (a & b & H & Hb & Ha). destruct a as [|x a].
        -- left. destruct Ha as [->|]; [|done]. by injection H as ->.
        -- right. injection H as -> H. exists a, b.
           split; [done|]. split; [done|]. by left.
Qed.

Lemma no_ws_at_app a b :
  validator.no_ws_at (a ++ b) = validator.no_ws_at a && validator.no_ws_at b.
Proof. apply forallb_app. Qed.

Lemma no_ws_at_no_sign l :
  validator.no_ws_at l = true -> forallb (fun c => negb (Ascii.eqb c "@")) l = true.
Proof.
  unfold validator.no_ws_at. rewrite !forallb_forall. intros H c Hc.
  specialize (H c Hc). by apply andb_true_iff in H as [_ ?].
Qed.

Lemma emailRegex_test_spec (s : string) :
  validator.emailRegex_test s = true <->
  exists user name rest,
    chars s = user ++ "@"%char :: name ++ "."%char :: rest
    /\ user <> [] /\ name <> [] /\ rest <> []
    /\ validator.no_ws_at user = true /\ validator.no_ws_at name = true
    /\ validator.no_ws_at rest = true.
Proof.
  unfold validator.emailRegex_test. split.
  - destruct (validator.split_at_sign (chars s) []) as [[user host]|] eqn:E; [|done].
    apply split_at_sign_spec in E as (pre & -> & Hs & _). cbn [rev app].
    rewrite !andb_true_iff, negb_true_iff, Nat.eqb_neq.
    intros [[[Hlen Hu] Hh] Hd].
    apply inner_dot_spec in Hd as (a & b & -> & Hb & [?|Ha]); [done|].
    rewrite no_ws_at_app in Hh. apply andb_true_iff in Hh as [Hna Hnb].
    exists pre, a, b. split; [done|]. split; [by destruct pre|].
    split; [done|]. split; [done|]. split; [done|]. split; [done|].
    change ("."%char :: b) with (["."%char] ++ b) in Hnb.
    rewrite no_ws_at_app in Hnb. by apply andb_true_iff in Hnb as [_ ?].
  - intros (user & name & rest & Hs & Hu & Hn & Hr & Hnu & Hnn & Hnr).
    assert (validator.split_at_sign (chars s) [] = Some (user, name ++ "."%char :: rest)) as ->.
    { apply split_at_sign_spec. exists user. split; [done|]. split; [done|].
      by apply no_ws_at_no_sign. }
    rewrite !andb_true_iff. repeat split.
    + apply negb_true_iff, Nat.eqb_neq. by destruct user.
    + done.
    + rewrite no_ws_at_app, Hnn. cbn [andb].
      change ("."%char :: rest) with (["."%char] ++ rest).
      by rewrite no_ws_at_app, Hnr.
    + apply inner_dot_spec. exists name, rest.
      split; [done|]. split; [done|]. by right.
Qed.

(** [validateEmail] on a body whose [email] is a text: the request
    passes exactly when the text is empty (an empty e-mail is not
    checked) or is [user@name.rest] with three parts that are not empty
    and hold neither white space nor another [@] ([name] and [rest] may
    hold further dots); any other text is answered 400.  Nothing is read
    or written. *)
Theorem email_pattern_accepts (req : request) (s : string) (w : world) :
  prop (body req) "email" = VStr s ->
  (exec (validator.validateEmail req) w = (Ok None, w, [])
   <-> s = "" \/
       exists user name rest,
         chars s = user ++ "@"%char :: name ++ "."%char :: rest
         /\ user <> [] /\ name <> [] /\ rest <> []
         /\ validator.no_ws_at user = true /\ validator.no_ws_at name = true
         /\ validator.no_ws_at rest = true)
  /\ exists answer,
       exec (validator.validateEmail req) w = (Ok answer, w, [])
       /\ forall resp, answer = Some resp -> status resp = 400.
Proof.
  intros He. unfold validator.validateEmail. rewrite He. cbn [truthy].
  destruct (String.eqb_spec s "") as [->|Hs]; cbn [negb].
  { split; [split; [by left|done]|]. by exists None. }
  rewrite exec_bind_lift. cbn [ToString].
  pose proof (emailRegex_test_spec s) as Hspec.
  destruct (validator.emailRegex_test s); cbn [negb]; rewrite exec_ret.
  - split; [|by exists None]. split; [intros _; right; by apply Hspec|done].
  - split; [|eexists; split; [done|]; by intros resp [= <-]].
    split; [done|]. intros [?|H]; [done|]. by apply Hspec in H.
Qed.

(** ** Ids written in decimal *)

Lemma digit_not_ws c : is_digit c = true -> is_ws c = false.
Proof.
  unfold is_digit, is_ws. cbv zeta.
  intros [H1%Z.leb_le H2%Z.leb_le]%andb_true_iff.
  repeat match goal with
  | |- context [(?a <=? ?b)] => destruct (Z.leb_spec a b)
  | |- context [(?a =? ?b)] => destruct (Z.eqb_spec a b)
  end; try done; lia.
Qed.

Lemma digit_is_not c d : is_digit d = false -> is_digit c = true -> Ascii.eqb d c = false.
Proof.
  intros Hd Hc. destruct (Ascii.eqb_spec d c) as [->|]; [congruence|done].
Qed.

Lemma drop_ws_digits l : forallb is_digit l = true -> drop_ws l = l.
Proof.
  destruct l as [|c l]; [done|]. cbn [forallb drop_ws].
  intros [Hc _]%andb_true_iff. by rewrite (digit_not_ws c Hc).
Qed.

Lemma trim_chars_digits l : forallb is_digit l = true -> trim_chars l = l.
Proof.
  intros H. unfold trim_chars. rewrite (drop_ws_digits l H).
  rewrite drop_ws_digits; [apply rev_involutive|].
  apply forallb_forall. intros c Hc. apply in_rev in Hc.
  by apply (proj1 (forallb_forall _ _) H).
Qed.

Lemma span_digits_all l : forallb is_digit l = true -> span_digits l = (l, []).
Proof.
  induction l as [|c l IH]; [done|]. cbn [forallb span_digits].
  intros [-> Hl]%andb_true_iff. by rewrite (IH Hl).
Qed.

Lemma take_sign_digit c l : is_digit c = true -> take_sign (c :: l) = (false, c :: l).
Proof.
  intros Hc. unfold take_sign.
  destruct c as [[|] [|] [|] [|] [|] [|] [|] [|]]; try done.
Qed.

(** A text of digits starts with none of the prefixes of the other
    notations. *)
Lemma starts_with_letter a b l :
  is_digit b = false -> forallb is_digit l = true ->
  starts_with [a; b] l = false.
Proof.
  intros Hb Hl. destruct l as [|c [|d l]]; cbn [starts_with]; [done| |].
  - by rewrite andb_false_r.
  - cbn [forallb] in Hl. apply andb_true_iff in Hl as [_ [Hd _]%andb_true_iff].
    by rewrite (digit_is_not d b Hb Hd), andb_false_r.
Qed.

Lemma starts_with_Infinity l :
  forallb is_digit l = true -> starts_with (chars "Infinity") l = false.
Proof.
  destruct l as [|c l]; [done|]. cbn [forallb]. intros [Hc _]%andb_true_iff.
  cbn [chars list_ascii_of_string starts_with].
  by rewrite (digit_is_not c "I" eq_refl Hc).
Qed.

Lemma fold_digits_nonneg l : forall acc,
  0 <= acc -> forallb is_digit l = true ->
  0 <= fold_left (fun acc c => 10 * acc + digit_val c) l acc.
Proof.
  induction l as [|c l IH]; intros acc Hacc; cbn [forallb fold_left]; [done|].
  intros [Hc Hl]%andb_true_iff. apply IH; [|done].
  unfold is_digit, digit_val in *. cbv zeta in Hc.
  apply andb_true_iff in Hc as [H1%Z.leb_le H2%Z.leb_le]. lia.
Qed.

Lemma digits_val_nonneg l : forallb is_digit l = true -> 0 <= digits_val l.
Proof. by apply fold_digits_nonneg. Qed.

Lemma chars_str l : chars (str l) = l.
Proof. apply list_ascii_of_string_of_list_ascii. Qed.

Lemma take_sign_digits ds : forallb is_digit ds = true -> take_sign ds = (false, ds).
Proof.
  destruct ds as [|c l]; [done|]. cbn [forallb]. intros [Hc _]%andb_true_iff.
  by apply take_sign_digit.
Qed.

Lemma parseInt_digits ds :
  ds <> [] -> forallb is_digit ds = true -> digits_val ds < 2 ^ 53 ->
  represents (parseInt_string false (str ds)) (digits_val ds).
Proof.
  intros Hne Hd Hlt. pose proof (digits_val_nonneg ds Hd) as H0.
  unfold parseInt_string.
  rewrite chars_str, (drop_ws_digits ds Hd), (take_sign_digits ds Hd).
  change (chars "0x") with ["0"%char; "x"%char].
  change (chars "0X") with ["0"%char; "X"%char].
  rewrite !starts_with_letter by done. cbn [negb andb orb].
  rewrite (span_digits_all ds Hd). cbn [fst signed].
  destruct ds as [|c l] eqn:E; [done|]. rewrite <- E in *.
  apply round64_integer; [done|lia].
Qed.

Lemma StringToNumber_digits ds :
  ds <> [] -> forallb is_digit ds = true -> digits_val ds < 2 ^ 53 ->
  represents (StringToNumber (str ds)) (digits_val ds).
Proof.
  intros Hne Hd Hlt. pose proof (digits_val_nonneg ds Hd) as H0.
  unfold StringToNumber. rewrite chars_str, (trim_chars_digits ds Hd). cbv zeta.
  change (chars "0x") with ["0"%char; "x"%char].
  change (chars "0X") with ["0"%char; "X"%char].
  change (chars "0o") with ["0"%char; "o"%char].
  change (chars "0O") with ["0"%char; "O"%char].
  change (chars "0b") with ["0"%char; "b"%char].
  change (chars "0B") with ["0"%char; "B"%char].
  rewrite !starts_with_letter by done. cbn [orb].
  unfold scan_decimal. rewrite (take_sign_digits ds Hd).
  unfold scan_unsigned. rewrite (starts_with_Infinity ds Hd), (span_digits_all ds Hd).
  destruct ds as [|c l] eqn:E; [done|]. rewrite <- E in *.
  cbn [scan_exponent signed].
  apply round64_integer; [|lia].
  change (pow10 (0 - 0)) with (inject_Z 1). unfold Qeq. cbn. lia.
Qed.

(** An id written in decimal digits (leading zeros allowed), of a value
    below 2^53: [parseInt] reads its value; [validateId] rejects it
    exactly when the value is 0; and the test of [getById], [update] and
    [deleteRecord] holds of every record whose [id] is that number. *)
Theorem decimal_ids_are_read_back (ds : list ascii) :
  ds <> [] -> forallb is_digit ds = true -> digits_val ds < 2 ^ 53 ->
  let id := VStr (str ds) in
  let n := digits_val ds in
  (exists x, parseInt id = Ok x /\ represents x n)
  /\ validator.invalid_id id = Ok (n =? 0)
  /\ (forall o : gmap string value,
        o !! "id" = Some (num n) -> database.id_is id (VObj o) = Ok true).
Proof.
  intros Hne Hd Hlt id n. subst id n.
  pose proof (digits_val_nonneg ds Hd) as H0.
  pose proof (parseInt_digits ds Hne Hd Hlt) as Hp.
  pose proof (StringToNumber_digits ds Hne Hd Hlt) as Hn.
  split; [|split].
  - eexists. split; [reflexivity|exact Hp].
  - unfold validator.invalid_id, isNaN, parseInt. cbn [strict_eq ToNumber ToString].
    rewrite !bind_Ok.
    pose proof Hn as (q & Eq & Hq). rewrite Eq. cbn [num_isNaN].
    rewrite ?bind_Ok. f_equal.
    unfold num_leb.
    rewrite (num_ltb_represents _ (digits_val ds) _ 0) by (done || apply represents_num).
    rewrite (num_eqb_represents _ (digits_val ds) _ 0) by (done || apply represents_num).
    destruct (Z.ltb_spec (digits_val ds) 0); [lia|done].
  - intros o Ho. unfold database.id_is, parseInt. cbn [get ToString].
    rewrite Ho, ?bind_Ok. cbn [default]. f_equal.
    change (num_eqb (Fin (inject_Z (digits_val ds)))
              (parseInt_string false (str ds)) = true).
    rewrite (num_eqb_represents _ (digits_val ds) _ (digits_val ds))
      by (done || apply represents_num).
    apply Z.eqb_refl.
Qed.

(** ** Required fields *)

Lemma drop_ws_nil l : drop_ws l = [] <-> forallb is_ws l = true.
Proof.
  induction l as [|c l IH]; [done|]. cbn [drop_ws forallb].
  destruct (is_ws c); [by rewrite IH|]. split; done.
Qed.

Lemma drop_ws_head l c r : drop_ws l = c :: r -> is_ws c = false.
Proof.
  induction l as [|d l IH]; [done|]. cbn [drop_ws].
  destruct (is_ws d) eqn:E; [done|]. by intros [= <- _].
Qed.

Lemma trim_chars_nil l : trim_chars l = [] <-> forallb is_ws l = true.
Proof.
  unfold trim_chars. rewrite <- drop_ws_nil. split.
  - intros H. apply (f_equal (@rev ascii)) in H. rewrite rev_involutive in H.
    cbn [rev] in H. apply drop_ws_nil in H.
    destruct (drop_ws l) as [|c r] eqn:E; [done|].
    apply drop_ws_head in E. rewrite forallb_forall in H.
    rewrite (H c) in E; [done|]. apply in_rev. rewrite rev_involutive. by left.
  - by intros ->.
Qed.

Lemma trim_blank s : String.eqb (trim s) "" = forallb is_ws (chars s).
Proof.
  apply Bool.eq_true_iff_eq. rewrite String.eqb_eq, <- trim_chars_nil.
  unfold trim. destruct (trim_chars (chars s)); done.
Qed.

Lemma forallb_false {A} (f : A -> bool) l :
  forallb f l = false -> exists c, In c l /\ f c = false.
Proof.
  induction l as [|x l IH]; [done|]. cbn [forallb].
  destruct (f x) eqn:E.
  - intros (c & Hc & Hf)%IH. exists c. split; [by right|done].
  - intros _. exists x. split; [by left|done].
Qed.

(** [validateRequired] lets a request pass exactly when every required
    field of the body is there, is not [null], and, if it is a text,
    holds a character that is not white space; numbers (0 too),
    booleans, arrays and objects count as given.  Otherwise it answers
    400.  Either way it makes no call. *)
Theorem required_fields_must_not_be_blank (fields : list string) (req : request)
    (w : world) :
  let given (f : string) : Prop :=
    match prop (body req) f with
    | VUndefined | VNull => False
    | VStr s => exists c, In c (chars s) /\ is_ws c = false
    | _ => True
    end in
  (exec (validator.validateRequired fields req) w = (Ok None, w, [])
   <-> Forall given fields)
  /\ exists answer,
       exec (validator.validateRequired fields req) w = (Ok answer, w, [])
       /\ forall resp, answer = Some resp -> status resp = 400.
Proof.
  intros given. rewrite exec_validateRequired.
  assert (forall f, validator.is_missing (body req) f = false <-> given f) as Hgiven.
  { intros f. unfold validator.is_missing, given.
    destruct (prop (body req) f) as [| | | |s| |]; try done.
    rewrite trim_blank. split.
    - intros H. by apply forallb_false.
    - intros (c & Hin & Hc). apply not_true_iff_false. rewrite forallb_forall.
      intros H. by rewrite (H c Hin) in Hc. }
  assert (List.filter (validator.is_missing (body req)) fields = [] <-> Forall given fields)
    as Hnone.
  { induction fields as [|f fields IH]; [by split; [constructor|]|].
    cbn [List.filter]. rewrite Forall_cons, <- IH, <- (Hgiven f).
    destruct (validator.is_missing (body req) f); split; try done.
    - by intros [? ?].
    - by intros [_ ?]. }
  destruct (List.filter _ fields) as [|m missing] eqn:E; cbn [length Nat.ltb Nat.leb].
  - split; [|by exists None]. split; [intros _; by apply Hnone|done].
  - split; [|eexists; split; [done|]; by intros resp [= <-]].
    split; [done|]. intros H. by apply Hnone in H.
Qed.

(** ** Phone numbers *)

(** What [replace(/\D/g, '')] leaves are digits. *)
Lemma only_digits_kept (l : list ascii) :
  forallb is_digit (List.filter is_digit l) = true.
Proof.
  apply forallb_forall. intros c Hc. by apply filter_In in Hc as [_ Hc].
Qed.

(** [validatePhone] on a body that gives a phone (not [undefined], not
    [null]) which [String] turns into the text [s], as it does a text
    or a number: the request passes exactly when [s] holds ten digits,
    wherever they stand and whatever stands between them; so the empty
    text is refused, though it is given.  Anything else is answered
    400.  Nothing is read or written. *)
Theorem phone_needs_ten_digits (req : request) (s : string) (w : world) :
  prop (body req) "phone" <> VUndefined -> prop (body req) "phone" <> VNull ->
  ToString (prop (body req) "phone") = Ok s ->
  (exec (validator.validatePhone req) w = (Ok None, w, [])
   <-> length (List.filter is_digit (chars s)) = 10%nat)
  /\ exists answer,
       exec (validator.validatePhone req) w = (Ok answer, w, [])
       /\ forall resp, answer = Some resp -> status resp = 400.
Proof.
  intros Hu Hn Hp. unfold validator.validatePhone. cbv zeta.
  assert (exec (s ← lift (ToString (prop (body req) "phone"));
                if negb (validator.phoneRegex_test (List.filter is_digit (chars s)))
                then Ret (Some (res_json 400
                  (VObj (<["message" := VStr "Invalid phone format. Use 10 digits."]>
                        (<["statusCode" := num 400]>
                        {["status" := VBool false]})))))
                else Ret None) w
          = (Ok (if (length (List.filter is_digit (chars s)) =? 10)%nat
                 then None
                 else Some (res_json 400
                   (VObj (<["message" := VStr "Invalid phone format. Use 10 digits."]>
                         (<["statusCode" := num 400]>
                         {["status" := VBool false]}))))), w, [])) as Hrun.
  { rewrite exec_bind_lift, Hp. unfold validator.phoneRegex_test.
    rewrite only_digits_kept, andb_true_r.
    destruct (length _ =? 10)%nat; cbn [negb]; by rewrite exec_ret. }
  assert (exec match prop (body req) "phone" with
               | VUndefined | VNull => Ret None
               | _ =>
                   s ← lift (ToString (prop (body req) "phone"));
                   if negb (validator.phoneRegex_test
                              (List.filter is_digit (chars s)))
                   then Ret (Some (res_json 400
                     (VObj (<["message" := VStr "Invalid phone format. Use 10 digits."]>
                           (<["statusCode" := num 400]>
                           {["status" := VBool false]})))))
                   else Ret None
               end w
          = (Ok (if (length (List.filter is_digit (chars s)) =? 10)%nat
                 then None
                 else Some (res_json 400
                   (VObj (<["message" := VStr "Invalid phone format. Use 10 digits."]>
                         (<["statusCode" := num 400]>
                         {["status" := VBool false]}))))), w, [])) as ->.
  { by destruct (prop (body req) "phone"). }
  destruct (Nat.eqb_spec (length (List.filter is_digit (chars s))) 10) as [E|E].
  - split; [done|]. by exists None.
  - split; [split; [done|by intros ?]|].
    eexists. split; [done|]. by intros resp [= <-].
Qed.

(** * Further properties of the routes *)

(** ** Pages *)

Lemma num_add_represents x a y b :
  represents x a -> represents y b -> Z.abs (a + b) <= 2 ^ 53 ->
  represents (num_add x y) (a + b).
Proof.
  intros (p & -> & Hp) (q & -> & Hq) H. cbn [num_add].
  apply round64_integer; [|done]. rewrite Hp, Hq. unfold Qeq. cbn. lia.
Qed.

Lemma num_sub_represents x a y b :
  represents x a -> represents y b -> Z.abs (a - b) <= 2 ^ 53 ->
  represents (num_sub x y) (a - b).
Proof.
  intros (p & -> & Hp) (q & -> & Hq) H. unfold num_sub. cbn [num_neg num_add].
  apply round64_integer; [|done]. rewrite Hp, Hq. unfold Qeq. cbn. lia.
Qed.

Lemma num_mul_represents x a y b :
  represents x a -> represents y b -> Z.abs (a * b) <= 2 ^ 53 ->
  represents (num_mul x y) (a * b).
Proof.
  intros (p & -> & Hp) (q & -> & Hq) H. cbn [num_mul].
  apply round64_integer; [|done]. rewrite Hp, Hq. unfold Qeq. cbn. lia.
Qed.

Lemma clamp_index_represents len x z :
  represents x z -> 0 <= z -> clamp_index len x = Z.min z len.
Proof.
  intros (q & -> & Hq) Hz. unfold clamp_index, ToIntegerOrInfinity.
  assert (Qsign_neg q = false) as ->.
  { unfold Qsign_neg. apply Z.ltb_ge. unfold Qeq in Hq. cbn in Hq.
    destruct q as [n d]. cbn in *. nia. }
  assert (Qfloor q = z) as -> by (rewrite Hq; apply Qfloor_Z).
  by destruct (Z.ltb_spec z 0); [lia|].
Qed.

(** [slice(a, b)] with bounds in order is the [b - a] elements after the
    first [a]. *)
Lemma slice_list_represents {A} (l : list A) x a y b :
  represents x a -> represents y b -> 0 <= a <= b ->
  slice_list l x y = firstn (Z.to_nat (b - a)) (skipn (Z.to_nat a) l).
Proof.
  intros Hx Hy Hab. unfold slice_list.
  rewrite (clamp_index_represents _ x a), (clamp_index_represents _ y b) by (done || lia).
  set (n := length l).
  destruct (Z.le_gt_cases (Z.of_nat n) a) as [Hge|Hlt].
  - rewrite !skipn_all2 by (subst n; lia). by rewrite !firstn_nil.
  - rewrite (Z.min_l a) by lia.
    destruct (Z.le_gt_cases (Z.of_nat n) b) as [Hge'|Hlt'].
    + rewrite Z.min_r by lia.
      rewrite !firstn_all2; [done| |]; rewrite length_skipn; subst n; lia.
    + by rewrite Z.min_l by lia.
Qed.

Lemma exec_paginated data page limit total w :
  exec (responseHandler.paginated data page limit total) w =
  (Ok (VObj (<["timestamp" := VStr (calendar w (ticks w))]>
            (<["pagination" :=
                 VObj (<["hasPrev" := VBool (num_ltb (Fin 1) page)]>
                      (<["hasNext" := VBool (num_ltb page
                                               (Math_ceil (num_div total limit)))]>
                      (<["totalPages" := VNum (Math_ceil (num_div total limit))]>
                      (<["total" := VNum total]>
                      (<["limit" := VNum limit]>
                      {["page" := VNum page]})))))]>
            (<["data" := data]>
            (<["statusCode" := num 200]>
            {["status" := VBool true]}))))),
   later 1 w, [Event NewDate (calendar w (ticks w))]).
Proof. unfold responseHandler.paginated. by rewrite exec_now_bind, exec_ret. Qed.

Lemma get_jsonify_obj (m : gmap string value) k :
  get (jsonify (VObj m)) k
  = Ok (match m !! k with
        | Some VUndefined | None => VUndefined
        | Some x => jsonify x
        end).
Proof.
  cbn [jsonify get]. rewrite lookup_omap. by destruct (m !! k) as [[]|].
Qed.

Lemma exec_send_page (items : list value) (page limit : number) (p l : Z)
    (w : world) :
  represents page p -> represents limit l -> 1 <= p -> 1 <= l ->
  p * l <= 2 ^ 53 ->
  exists resp,
    exec (send_page (VArr items) page limit) w
    = (Ok resp, later 1 w, [Event NewDate (calendar w (ticks w))])
    /\ status resp = 200
    /\ get (payload resp) "data"
       = Ok (jsonify (VArr (firstn (Z.to_nat l)
                              (skipn (Z.to_nat ((p - 1) * l)) items))))
    /\ (pg ← get (payload resp) "pagination"; get pg "total")
       = Ok (num (Z.of_nat (length items))).
Proof.
  intros Hp Hl Hp1 Hl1 Hpl. unfold send_page.
  rewrite exec_bind_lift. cbn [get]. change (String.eqb "length" "length") with true.
  cbv iota zeta. rewrite exec_bind_lift. cbn [js_slice].
  assert (represents (num_mul (num_sub page (Fin 1)) limit) ((p - 1) * l)) as Hstart.
  { apply num_mul_represents; [|done|nia].
    apply num_sub_represents; [done|apply (represents_num 1)|lia]. }
  assert (represents (num_add (num_mul (num_sub page (Fin 1)) limit) limit)
            ((p - 1) * l + l)) as Hend.
  { apply num_add_represents; [done|done|nia]. }
  rewrite (slice_list_represents items _ ((p - 1) * l) _ ((p - 1) * l + l))
    by (done || nia).
  replace ((p - 1) * l + l - (p - 1) * l) with l by lia.
  rewrite exec_bind_lift. cbn [ToNumber num]. rewrite exec_bind, exec_paginated.
  cbv zeta. rewrite exec_ret. cbn [app].
  eexists. split; [reflexivity|]. split; [done|].
  unfold res_json. cbn [payload].
  set (data := VArr (firstn _ _)).
  split.
  - rewrite get_jsonify_obj. rewrite !lookup_insert_ne by done.
    by rewrite lookup_insert_eq.
  - rewrite get_jsonify_obj. rewrite lookup_insert_ne by done.
    rewrite lookup_insert_eq. cbn [jsonify]. rewrite bind_Ok.
    change (VObj (omap ?f ?m)) with (jsonify (VObj m)).
    rewrite get_jsonify_obj. rewrite !lookup_insert_ne by done.
    by rewrite lookup_insert_eq.
Qed.

(** What the three list routes send: for a page [p >= 1] and a limit
    [l >= 1] (with [p * l] within the integers doubles hold exactly),
    the [data] of the answer are the [l] records that follow the first
    [(p - 1) * l] of the list, fewer at its end, in the order of the
    list; [total] is the length of the whole list.  Only the clock is
    read. *)
Theorem page_is_a_slice (items : list value) (page limit : number) (p l : Z)
    (w : world) :
  represents page p -> represents limit l -> 1 <= p -> 1 <= l ->
  p * l <= 2 ^ 53 ->
  exists resp,
    exec (send_page (VArr items) page limit) w
    = (Ok resp, later 1 w, [Event NewDate (calendar w (ticks w))])
    /\ status resp = 200
    /\ get (payload resp) "data"
       = Ok (jsonify (VArr (firstn (Z.to_nat l)
                              (skipn (Z.to_nat ((p - 1) * l)) items))))
    /\ (pg ← get (payload resp) "pagination"; get pg "total")
       = Ok (num (Z.of_nat (length items))).
Proof. apply exec_send_page. Qed.


Lemma ret_bind {A B} (a : A) (k : A -> prog B) : (Ret a ≫= k) = k a.
Proof. done. Qed.

Lemma query_int_absent req name d :
  query req !! name = None -> query_int req name d = Ok (Fin (inject_Z d)).
Proof.
  intros H. unfold query_int, prop. rewrite H. cbn [default].
  assert (parseInt10 VUndefined = Ok NaN) as -> by (by vm_compute). done.
Qed.

Lemma app_get_orders lc env st ps q b h :
  server.app lc env st (Request GET ["api"; "orders"] ps q b h) =
  served env st [handler orderRoutes.list_orders]
    (Request GET [] ∅ q b h) (Request GET ["api"; "orders"] ps q b h).
Proof. reflexivity. Qed.

(** [GET /api/orders] without query parameters, on a file that holds an
    array: the answer is 200, its [data] are the first ten orders of the
    file (all of them when there are fewer), in the order of the file,
    its [total] is their number, and the disk is left as it was. *)
Theorem orders_list_defaults lc env st ps b h (w : world) (items : list value) :
  parsed w orderRoutes.FILENAME = VArr items ->
  let p := server.app lc env st (Request GET ["api"; "orders"] ps ∅ b h) in
  exists resp,
    outcome p w = Ok resp
    /\ status resp = 200
    /\ get (payload resp) "data" = Ok (VArr (firstn 10 items))
    /\ (pg ← get (payload resp) "pagination"; get pg "total")
       = Ok (num (Z.of_nat (length items)))
    /\ disk (after p w) = disk w.
Proof.
  intros Hp p. subst p. rewrite app_get_orders. unfold outcome, after.
  destruct (exec_send_page items (Fin (inject_Z 1)) (Fin (inject_Z 10)) 1 10 w)
    as (resp & He & Hs & Hd & Ht);
    [apply represents_num|apply represents_num|lia|lia|by vm_compute|].
  assert (exec (served env st [handler orderRoutes.list_orders]
                  (Request GET [] ∅ ∅ b h) (Request GET ["api"; "orders"] ps ∅ b h)) w
          = (Ok resp, later 1 w,
             read_log w orderRoutes.FILENAME ++ [Event NewDate (calendar w (ticks w))]))
    as ->.
  { rewrite exec_served, exec_run_stack_cons. unfold handler at 1.
    rewrite exec_bind. unfold orderRoutes.list_orders, catch500.
    rewrite exec_try_catch. cbn [query].
    rewrite !query_int_absent by done.
    rewrite !exec_bind_lift. unfold database.getAll. rewrite exec_bind_read, Hp.
    change (prop ∅ "userId") with VUndefined. change (prop ∅ "status") with VUndefined.
    cbn [truthy js_or]. rewrite !exec_bind, !exec_ret. rewrite ret_bind, He.
    cbn [fst snd app]. rewrite exec_ret. cbn [fst snd app].
    by rewrite !app_nil_r. }
  cbn [fst snd].
  exists resp. split; [done|]. split; [done|]. split.
  - rewrite Hd. cbn [jsonify]. do 2 f_equal.
    apply Forall_stored with (items := items); [by eapply parsed_items|].
    apply sublist_take.
  - split; [exact Ht|done].
Qed.

(** ** The status of an order *)



(** ** The e-mail of a new user *)

(** [POST /api/users], in its handler, for a body whose [email] is a
    text, on a file that holds an array that can be searched: the
    request is answered 409 exactly when the search finds a record, and
    a stored record with a text under [email] is found when that text,
    in lower case, contains the new e-mail in lower case somewhere (it
    need not be equal to it).  When the answer is 409 nothing is
    written. *)
Theorem email_in_use_is_a_substring_match (req : request) (m : string)
    (w : world) (items found : list value) :
  prop (body req) "email" = VStr m ->
  parsed w userRoutes.FILENAME = VArr items ->
  Array_filter (database.search_match "email" (VStr m)) items = Ok found ->
  let p := userRoutes.create_user req in
  (forall (o : gmap string value) (e : string),
     o !! "email" = Some (VStr e) ->
     database.search_match "email" (VStr m) (VObj o)
     = Ok (includes (toLowerCase e) (toLowerCase m)))
  /\ sublist found items
  /\ Forall (fun x => database.search_match "email" (VStr m) x = Ok true) found
  /\ exists resp,
       outcome p w = Ok resp
       /\ (status resp = 409 <-> found <> [])
       /\ (found <> [] ->
           disk (after p w) = disk w /\ writes_of (calls p w) = []).
Proof.
  intros Hm Hp Hf p. subst p.
  destruct (Array_filter_kept _ _ _ Hf) as (Hsub & Hall & _).
  split.
  { intros o e Ho. unfold database.search_match. cbn [get ToString].
    rewrite Ho. by cbn [default]. }
  split; [done|]. split; [done|].
  assert (exists resp w' l,
    exec (userRoutes.create_user req) w = (Ok resp, w', l)
    /\ match found with
       | [] => status resp = 201 \/ status resp = 500
       | _ :: _ => status resp = 409 /\ disk w' = disk w /\ writes_of l = []
       end) as (resp & w' & l & He & Hres).
  { unfold userRoutes.create_user, catch500. cbv zeta.
    rewrite Hm, exec_try_catch, exec_bind, exec_search, Hp.
    cbn [as_array]. rewrite bind_Ok, Hf.
    destruct found as [|x found]; cbn [length Nat.ltb Nat.leb].
    - rewrite exec_bind.
      destruct (exec (database.create _ _) w) as [[[r|e] w1] l1].
      + match goal with
        | |- context [exec (send_success 201 ?d ?msg) ?w0] =>
            destruct (exec_send_success 201 d msg w0) as (resp & -> & Hs)
        end.
        eexists _, _, _. split; [reflexivity|by left].
      + destruct (exec_send_error 500 "Failed to create user" w1) as (resp & Hr & Hs).
        unfold send_error in Hr. cbn [fst snd]. rewrite Hr.
        eexists _, _, _. split; [reflexivity|by right].
    - destruct (exec_send_error 409 "Email already exists" w) as (resp & -> & Hs).
      eexists _, _, _. split; [reflexivity|]. split; [done|]. split; [done|].
      by rewrite writes_of_app, writes_of_read_log. }
  unfold outcome, after, calls. rewrite He. cbn [fst snd].
  exists resp. split; [done|]. destruct found as [|x found].
  - split; [|done]. split; [|done]. destruct Hres as [Hs|Hs]; rewrite Hs; done.
  - destruct Hres as (Hs & Hd & Hw). by repeat split.
Qed.

(** * Requests that fail change nothing *)

Lemma settled_mono {A} (Q R : A -> Prop) (p : prog A) :
  (forall a, Q a -> R a) -> settled Q p -> settled R p.
Proof.
  intros HQR. induction p as [a|e|X c k IH]; cbn [settled]; [auto|done|].
  intros H x. by apply IH.
Qed.

Lemma settled_guarded {A} (Q : A -> Prop) (p : prog A) : settled Q p -> guarded Q p.
Proof.
  induction p as [a|e|X c k IH]; cbn [settled guarded]; [done|done|].
  intros H. destruct (call_write c); [done|]. intros x. by apply IH.
Qed.

Lemma never_writes_guarded {A} (Q : A -> Prop) (p : prog A) :
  never_writes p -> guarded Q p.
Proof.
  unfold never_writes. induction p as [a|e|X c k IH]; cbn [calls_only guarded];
    [done|done|].
  intros [Hc Hk]. unfold not_a_write in Hc. rewrite Hc. intros x. by apply IH.
Qed.

Lemma settled_bind {A B} (R : A -> Prop) (Q : B -> Prop) (p : prog A)
    (k : A -> prog B) :
  settled R p -> (forall a, R a -> settled Q (k a)) -> settled Q (p ≫= k).
Proof.
  intros Hp Hk. induction p as [a|e|X c k' IH]; cbn in *; [by apply Hk|done|].
  intros x. by apply IH.
Qed.

Lemma settled_try_catch {A} (Q : A -> Prop) (p : prog A) (h : exn -> prog A) :
  settled Q p -> settled Q (try_catch p h).
Proof.
  induction p as [a|e|X c k' IH]; cbn [settled try_catch]; [done|done|].
  intros H x. by apply IH.
Qed.

Lemma guarded_bind {A B} (R : A -> Prop) (Q : B -> Prop) (p : prog A)
    (k : A -> prog B) :
  guarded R p -> (forall a, guarded Q (k a)) ->
  (forall a, R a -> settled Q (k a)) -> guarded Q (p ≫= k).
Proof.
  intros Hp Hk Hs. induction p as [a|e|X c k' IH]; [apply Hk|done|].
  change (guarded Q (Do c (fun x => k' x ≫= k))). cbn [guarded] in *.
  destruct (call_write c).
  - intros x. by eapply settled_bind.
  - intros x. by apply IH.
Qed.

(** After a part that never writes, what follows decides. *)
Lemma guarded_bind_quiet {A B} (Q : B -> Prop) (p : prog A) (k : A -> prog B) :
  never_writes p -> (forall a, guarded Q (k a)) -> guarded Q (p ≫= k).
Proof.
  intros Hp Hk. apply (guarded_bind (fun _ => False)); [|done|done].
  by apply never_writes_guarded.
Qed.

(** After a part that may write, what follows must be settled. *)
Lemma guarded_bind_writer {A B} (Q : B -> Prop) (p : prog A) (k : A -> prog B) :
  guarded (fun _ => True) p -> (forall a, settled Q (k a)) -> guarded Q (p ≫= k).
Proof.
  intros Hp Hk. apply (guarded_bind (fun _ => True)); [done| |by intros].
  intros a. by apply settled_guarded.
Qed.

Lemma guarded_try_catch {A} (Q : A -> Prop) (p : prog A) (h : exn -> prog A) :
  guarded Q p -> (forall e, guarded Q (h e)) -> guarded Q (try_catch p h).
Proof.
  intros Hp Hh. induction p as [a|e|X c k' IH]; [done|apply Hh|].
  change (guarded Q (Do c (fun x => try_catch (k' x) h))). cbn [guarded] in *.
  destruct (call_write c).
  - intros x. by apply settled_try_catch.
  - intros x. by apply IH.
Qed.

(** What being guarded means for a run: a result outside [Q], or an
    exception, comes with no write and with the disk as it was. *)
Lemma settled_run {A} (Q : A -> Prop) (p : prog A) (w : world) :
  settled Q p -> exists a, outcome p w = Ok a /\ Q a.
Proof.
  unfold outcome. revert w. induction p as [a|e|X c k IH]; intros w Hp; [by exists a|done|].
  change (exec (Do c k) w)
    with (let (x, w1) := perform c w in
          let '(r, w2, log) := exec (k x) w1 in (r, w2, Event c x :: log)).
  destruct (perform c w) as [x w1].
  destruct (IH x w1 (Hp x)) as (a & Ha & HQ).
  destruct (exec (k x) w1) as [[r w2] log]. cbn [fst] in *. by exists a.
Qed.

Lemma guarded_run {A} (Q : A -> Prop) (p : prog A) (w : world) :
  guarded Q p ->
  (exists a, outcome p w = Ok a /\ Q a)
  \/ writes_of (calls p w) = [] /\ disk (after p w) = disk w.
Proof.
  unfold outcome, calls, after. revert w.
  induction p as [a|e|X c k IH]; intros w Hp; [by right|by right|].
  cbn [guarded] in Hp.
  destruct (call_write c) as [wr|] eqn:Ec.
  - left. apply (settled_run Q (Do c k) w). exact Hp.
  - change (exec (Do c k) w)
      with (let (x, w1) := perform c w in
            let '(r, w2, log) := exec (k x) w1 in (r, w2, Event c x :: log)).
    destruct (perform c w) as [x w1] eqn:E.
    destruct (IH x w1 (Hp x)) as [(a & Ha & HQ)|[Hw Hd]];
      destruct (exec (k x) w1) as [[r w2] log]; cbn [fst snd] in *.
    + left. by exists a.
    + right.
      change (writes_of (Event c x :: log))
        with (match call_write c with
              | Some y => y :: writes_of log
              | None => writes_of log
              end).
      rewrite Ec, Hd. split; [done|].
      unfold perform in E. destruct c as [p0|p0|p0 t|]; simpl in *; simplify_eq; done.
Qed.

Lemma guarded_writeFile filename data :
  guarded (fun _ => True) (database.writeFile filename data).
Proof.
  unfold database.writeFile, fs_writeFileSync. cbv zeta.
  change (guarded (fun _ : bool => True)
            (Do (WriteFileSync (database.filePath filename) (JSON_stringify data))
                (fun x => try_catch (prog_bind (fun _ : unit => Ret true) (lift x))
                                    (fun _ => Ret false)))).
  cbn [guarded call_write]. by intros [[]|e].
Qed.

Lemma settled_send_success code data message :
  code < 400 -> settled succeeded (send_success code data message).
Proof.
  intros H. unfold send_success, responseHandler.success, now_ISO.
  cbn [mbind prog_mbind prog_bind settled]. intros t. exact H.
Qed.

Ltac guard_step :=
  lazymatch goal with
  | |- guarded _ (database.writeFile _ _ ≫= _) =>
      apply guarded_bind_writer; [apply guarded_writeFile|intros ?]
  | |- guarded _ ((match ?x with _ => _ end) ≫= _) => destruct x
  | |- guarded _ (_ ≫= _) =>
      apply guarded_bind_quiet; [quiet unfold_readers|intros ?]
  | |- guarded _ (try_catch _ _) => apply guarded_try_catch; [|intros ?]
  | |- guarded _ (match ?x with _ => _ end) => destruct x
  | |- guarded _ (let _ := _ in _) => cbv zeta
  | |- guarded _ (Ret _) => exact I
  | |- guarded _ (mret _) => exact I
  | |- guarded _ (Throw _) => exact I
  | |- settled _ (Ret _) => exact I
  | |- settled _ (mret _) => exact I
  end.

Lemma guarded_create filename newRecord :
  guarded (fun _ => True) (database.create filename newRecord).
Proof. unfold database.create. repeat guard_step. Qed.

Lemma guarded_update filename id updateData :
  guarded (fun _ => True) (database.update filename id updateData).
Proof. unfold database.update. repeat guard_step. Qed.

Lemma guarded_deleteRecord filename id :
  guarded (fun _ => True) (database.deleteRecord filename id).
Proof. unfold database.deleteRecord. repeat guard_step. Qed.

Lemma guarded_handler (h : request -> prog response) (req : request) :
  guarded succeeded (h req) -> guarded answered (handler h req).
Proof.
  intros Hh. unfold handler. apply (guarded_bind succeeded); [done|done|].
  intros a Ha. by exists a.
Qed.

Ltac guard_handler_step :=
  lazymatch goal with
  | |- guarded _ (catch500 _ _) => unfold catch500
  | |- guarded _ (database.create _ _ ≫= _) =>
      apply guarded_bind_writer; [apply guarded_create|intros ?]
  | |- guarded _ (database.update _ _ _ ≫= _) =>
      apply guarded_bind_writer; [apply guarded_update|intros ?]
  | |- guarded _ (database.deleteRecord _ _ ≫= _) =>
      apply guarded_bind_writer; [apply guarded_deleteRecord|intros ?]
  | |- settled _ (send_success _ _ _) => apply settled_send_success; done
  | |- guarded _ (send_error _ _) => apply never_writes_guarded; quiet unfold_readers
  | |- guarded _ (send_success _ _ _) =>
      apply never_writes_guarded; quiet unfold_readers
  | |- guarded _ (send_page _ _ _) => apply never_writes_guarded; quiet unfold_readers
  | |- _ => guard_step
  end.

Ltac guard_routes unfold_handlers :=
  unfold routes_guarded;
  repeat match goal with |- Forall _ _ => constructor; cbn [route_stack] end;
  intros ?;
  lazymatch goal with
  | |- guarded _ (handler _ _) =>
      apply guarded_handler; unfold_handlers; repeat guard_handler_step
  | |- _ => apply never_writes_guarded; quiet unfold_readers
  end.

Lemma userRoutes_guarded : routes_guarded userRoutes.router.
Proof.
  unfold userRoutes.router. guard_routes
    ltac:(unfold userRoutes.list_users, userRoutes.get_user,
            userRoutes.create_user, userRoutes.put_user, userRoutes.patch_user,
            userRoutes.delete_user, userRoutes.active_users).
Qed.

Lemma productRoutes_guarded lc : routes_guarded (productRoutes.router lc).
Proof.
  unfold productRoutes.router. guard_routes
    ltac:(unfold productRoutes.list_products, productRoutes.get_product,
            productRoutes.create_product, productRoutes.put_product,
            productRoutes.patch_product, productRoutes.delete_product,
            productRoutes.low_stock, productRoutes.by_category).
Qed.

Lemma orderRoutes_guarded : routes_guarded orderRoutes.router.
Proof.
  unfold orderRoutes.router. guard_routes
    ltac:(unfold orderRoutes.list_orders, orderRoutes.get_order,
            orderRoutes.create_order, orderRoutes.put_order,
            orderRoutes.patch_order, orderRoutes.delete_order,
            orderRoutes.orders_of_user, orderRoutes.orders_by_status,
            orderRoutes.cancel_order).
Qed.

Lemma guarded_run_stack (stack : list middleware) (req : request) :
  Forall (fun m => guarded answered (m req)) stack ->
  guarded answered (run_stack stack req).
Proof.
  induction 1 as [|m stack Hm _ IH]; cbn [run_stack]; [done|].
  apply (guarded_bind answered); [done|by intros [resp|]|].
  by intros o (r & -> & Hr); exists r.
Qed.

Lemma guarded_run_router (routes : list route) (req : request) :
  routes_guarded routes -> guarded answered (run_router routes req).
Proof.
  induction 1 as [|r routes Hr _ IH]; cbn [run_router]; [done|].
  destruct (if verb_eqb _ _ then _ else _) as [ps|]; [|done].
  apply (guarded_bind answered).
  - apply guarded_run_stack. eapply Forall_impl; [exact Hr|]. by intros m Hm.
  - by intros [resp|].
  - by intros o (resp & -> & Hs); exists resp.
Qed.

Lemma guarded_mount prefix routes req :
  routes_guarded routes -> guarded answered (mount prefix routes req).
Proof.
  intros H. unfold mount. destruct (strip_prefix _ _); [|done].
  by apply guarded_run_router.
Qed.

Lemma guarded_app lc env st req : guarded succeeded (server.app lc env st req).
Proof.
  unfold server.app. apply guarded_try_catch.
  - apply (guarded_bind answered).
    + apply guarded_run_stack.
      repeat (apply Forall_cons; split); [| | | |by apply Forall_nil].
      * apply never_writes_guarded. unfold server.health.
        destruct (method req), (path req) as [|h [|]]; try done.
        all: by destruct (lit_eqb "health" h).
      * apply guarded_mount, userRoutes_guarded.
      * apply guarded_mount, productRoutes_guarded.
      * apply guarded_mount, orderRoutes_guarded.
    + by intros [resp|].
    + by intros o (resp & -> & Hs).
  - intros e. apply never_writes_guarded. unfold server.error_handler.
    quiet idtac.
Qed.

(** A request that is answered with an error status, 400 or above, has
    changed nothing: the server reached no [fs.writeFileSync] for it,
    and the disk is as it was.  (Once a handler has written, it throws
    nothing and answers 200 or 201.) *)
Theorem failed_requests_change_nothing lc env st (req : request) (w : world)
    (resp : response) :
  outcome (server.app lc env st req) w = Ok resp ->
  400 <= status resp ->
  writes_of (calls (server.app lc env st req) w) = []
  /\ disk (after (server.app lc env st req) w) = disk w.
Proof.
  intros Ho Hs.
  destruct (guarded_run succeeded _ w (guarded_app lc env st req))
    as [(a & Ha & Hok)|H]; [|done].
  rewrite Ho in Ha. injection Ha as <-. unfold succeeded in Hok. lia.
Qed.

(** ** What is written is read back *)


(** ** Records looked up by a text field *)

Lemma exec_send_success_data code data message w :
  exists resp,
    exec (send_success code data message) w
    = (Ok resp, later 1 w, [Event NewDate (calendar w (ticks w))])
    /\ status resp = code
    /\ get (payload resp) "data"
       = Ok (match data with VUndefined => VUndefined | _ => jsonify data end).
Proof.
  unfold send_success, responseHandler.success.
  rewrite exec_bind, exec_now_bind, exec_ret. cbn [fst snd app]. rewrite exec_ret.
  cbn [fst snd app]. eexists. split; [reflexivity|]. split; [done|].
  unfold res_json. cbn [payload]. rewrite get_jsonify_obj.
  rewrite lookup_insert_ne by done. rewrite lookup_insert_eq. by destruct data.
Qed.

Lemma filter_sublist {A} (g : A -> bool) (l : list A) : sublist (List.filter g l) l.
Proof.
  induction l as [|x l IH]; [constructor|]. cbn [List.filter].
  destruct (g x); by constructor.
Qed.

(** The test [item => item[field].toLowerCase() === wanted.toLowerCase()]
    over a list: it throws as soon as one record has no text there. *)
Lemma Array_filter_text_field (field wanted : string) (items : list value) :
  let f := fun item : value =>
    v ← (s ← get item field;
         l ← call_toLowerCase s;
         r ← call_toLowerCase (VStr wanted);
         Ok (VBool (String.eqb l r)));
    Ok (truthy v) in
  let g := fun item : value =>
    match get item field with
    | Ok (VStr s) => String.eqb (toLowerCase s) (toLowerCase wanted)
    | _ => false
    end in
  (Forall (fun o => exists s, get o field = Ok (VStr s)) items
   /\ Array_filter f items = Ok (List.filter g items))
  \/ (~ Forall (fun o => exists s, get o field = Ok (VStr s)) items
      /\ exists e, Array_filter f items = Raise e).
Proof.
  intros f g.
  assert (forall x,
    (exists s, get x field = Ok (VStr s) /\ f x = Ok (g x))
    \/ ((forall s, get x field <> Ok (VStr s)) /\ exists e, f x = Raise e)) as Hx.
  { intros x. unfold f, g.
    destruct (get x field) as [[| | | |s| |]|e]; cbn [call_toLowerCase];
      rewrite ?bind_Ok, ?bind_Raise; cbn [call_toLowerCase];
      rewrite ?bind_Ok, ?bind_Raise; try (right; split; [done|by eexists]).
    left. by exists s. }
  clearbody f g. induction items as [|x items IH]; [by left|].
  cbn [Array_filter List.filter].
  destruct (Hx x) as [(s & Hs & ->)|(Hs & e & ->)]; rewrite ?bind_Ok, ?bind_Raise.
  - destruct IH as [(Hall & ->)|(Hn & e & ->)]; rewrite ?bind_Ok, ?bind_Raise.
    + left. split; [|done]. constructor; [by exists s|done].
    + right. split; [|by exists e]. intros H. apply Hn.
      by apply Forall_cons in H as [_ H].
  - right. split; [|by exists e]. intros H.
    apply Forall_cons in H as [(s & Hs') _]. by apply (Hs s).
Qed.

(** [GET /api/orders/status/:status], in its handler, on a file that
    holds an array: if some order has no text under [status] (none, a
    number, [null], or the entry is no object) the answer is 500,
    whatever status is asked; otherwise it is 404 when no order has the
    status asked, letter case aside, and else 200 with exactly those
    orders, in the order of the file.  The disk is left as it was. *)
Theorem orders_by_status_answer (req : request) (st : string) (w : world)
    (items : list value) :
  prop (params req) "status" = VStr st ->
  parsed w orderRoutes.FILENAME = VArr items ->
  let p := orderRoutes.orders_by_status req in
  let all_texts := Forall (fun o => exists s, get o "status" = Ok (VStr s)) items in
  let found :=
    List.filter (fun o => match get o "status" with
                          | Ok (VStr s) => String.eqb (toLowerCase s) (toLowerCase st)
                          | _ => false
                          end) items in
  exists resp,
    outcome p w = Ok resp
    /\ disk (after p w) = disk w
    /\ (status resp = 500 <-> ~ all_texts)
    /\ (all_texts ->
        match found with
        | [] => status resp = 404
        | _ :: _ => status resp = 200 /\ get (payload resp) "data" = Ok (VArr found)
        end).
Proof.
  intros Hst Hp p all_texts found. subst p all_texts found.
  pose proof (parsed_items _ _ _ Hp) as Hjs.
  set (g := fun o : value => match get o "status" with
                             | Ok (VStr s) => String.eqb (toLowerCase s) (toLowerCase st)
                             | _ => false
                             end).
  assert (exists resp w' l,
    exec (orderRoutes.orders_by_status req) w = (Ok resp, w', l)
    /\ disk w' = disk w
    /\ (Forall (fun o => exists s, get o "status" = Ok (VStr s)) items ->
        match List.filter g items with
        | [] => status resp = 404
        | _ :: _ => status resp = 200
                    /\ get (payload resp) "data" = Ok (VArr (List.filter g items))
        end)
    /\ (~ Forall (fun o => exists s, get o "status" = Ok (VStr s)) items ->
        status resp = 500)) as (resp & w' & l & He & Hd & Hyes & Hno).
  { unfold orderRoutes.orders_by_status, catch500.
    rewrite Hst, exec_try_catch, exec_bind, exec_filter, Hp.
    cbn [as_array]. rewrite bind_Ok.
    destruct (Array_filter_text_field "status" st items) as [(Hall & ->)|(Hn & e & ->)];
      cbn [fst snd].
    - fold g. pose proof (Forall_stored _ _ Hjs (filter_sublist g items)) as Hk.
      destruct (List.filter g items) as [|x found] eqn:Ef; cbn [length Nat.eqb].
      + destruct (exec_send_error 404 "No orders found with this status" w)
          as (resp & -> & Hs).
        by eexists _, _, _.
      + rewrite exec_bind_lift. cbn [ToString].
        match goal with
        | |- context [exec (send_success 200 ?d ?msg) ?w0] =>
            destruct (exec_send_success_data 200 d msg w0) as (resp & -> & Hs & Hdata)
        end.
        eexists _, _, _. split; [reflexivity|]. split; [done|]. split; [|done].
        intros _. split; [done|]. rewrite Hdata. cbn [jsonify]. by rewrite Hk.
    - destruct (exec_send_error 500 "Failed to fetch orders by status" w)
        as (resp & Hr & Hs).
      unfold send_error in Hr. rewrite Hr. by eexists _, _, _. }
  unfold outcome, after. rewrite He. cbn [fst snd].
  exists resp. split; [done|]. split; [done|]. split; [|done].
  destruct (Array_filter_text_field "status" st items) as [(Hall & _)|(Hn & _)].
  - split; [|done]. intros H. specialize (Hyes Hall).
    destruct (List.filter g items); [|destruct Hyes as [Hyes _]]; by rewrite Hyes in H.
  - split; [done|exact Hno].
Qed.

(** [GET /api/products/category/:category], in its handler, on a file
    that holds an array: if some product has no text under [category]
    the answer is 500, whatever category is asked; otherwise it is 404
    when no product is of the category asked, letter case aside, and
    else 200 with exactly those products, in the order of the file.  The
    disk is left as it was. *)
Theorem products_by_category_answer (req : request) (c : string) (w : world)
    (items : list value) :
  prop (params req) "category" = VStr c ->
  parsed w productRoutes.FILENAME = VArr items ->
  let p := productRoutes.by_category req in
  let all_texts := Forall (fun o => exists s, get o "category" = Ok (VStr s)) items in
  let found :=
    List.filter (fun o => match get o "category" with
                          | Ok (VStr s) => String.eqb (toLowerCase s) (toLowerCase c)
                          | _ => false
                          end) items in
  exists resp,
    outcome p w = Ok resp
    /\ disk (after p w) = disk w
    /\ (status resp = 500 <-> ~ all_texts)
    /\ (all_texts ->
        match found with
        | [] => status resp = 404
        | _ :: _ => status resp = 200 /\ get (payload resp) "data" = Ok (VArr found)
        end).
Proof.
  intros Hc Hp p all_texts found. subst p all_texts found.
  pose proof (parsed_items _ _ _ Hp) as Hjs.
  set (g := fun o : value => match get o "category" with
                             | Ok (VStr s) => String.eqb (toLowerCase s) (toLowerCase c)
                             | _ => false
                             end).
  pose proof (Forall_stored _ _ Hjs (filter_sublist g items)) as Hk.
  unfold outcome, after, productRoutes.by_category, catch500.
  rewrite Hc, exec_try_catch, exec_bind, exec_filter, Hp.
  cbn [as_array]. rewrite bind_Ok.
  destruct (Array_filter_text_field "category" c items) as [(Hall & ->)|(Hn & e & ->)];
    cbn [fst snd].
  - fold g. destruct (List.filter g items) as [|x found] eqn:Ef; cbn [length Nat.eqb].
    + destruct (exec_send_error 404 "No products found in this category" w)
        as (resp & -> & Hs).
      exists resp. cbn [fst snd]. split; [done|]. split; [done|].
      split; [|done]. split; [|done]. intros H. by rewrite Hs in H.
    + match goal with
      | |- context [exec (send_success 200 ?d ?msg) ?w0] =>
          destruct (exec_send_success_data 200 d msg w0) as (resp & -> & Hs & Hdata)
      end.
      exists resp. cbn [fst snd]. split; [done|]. split; [done|].
      split; [split; [|done]; intros H; by rewrite Hs in H|].
      intros _. split; [done|]. rewrite Hdata. cbn [jsonify]. by rewrite Hk.
  - destruct (exec_send_error 500 "Failed to fetch products by category" w)
      as (resp & Hr & Hs).
    unfold send_error in Hr. rewrite Hr. exists resp. cbn [fst snd].
    split; [done|]. split; [done|]. split; [done|]. by intros H.
Qed.

(** * What the answers say about themselves *)

Lemma returns_any {A} (p : prog A) : returns (fun _ => True) p.
Proof. induction p as [a|e|X c k IH]; cbn [returns]; done. Qed.

Lemma returns_mono {A} (Q R : A -> Prop) (p : prog A) :
  (forall a, Q a -> R a) -> returns Q p -> returns R p.
Proof.
  intros HQR. induction p as [a|e|X c k IH]; cbn [returns]; [auto|done|].
  intros H x. by apply IH.
Qed.

Lemma returns_bind {A B} (R : A -> Prop) (Q : B -> Prop) (p : prog A)
    (k : A -> prog B) :
  returns R p -> (forall a, R a -> returns Q (k a)) -> returns Q (p ≫= k).
Proof.
  intros Hp Hk. induction p as [a|e|X c k' IH]; cbn in *; [by apply Hk|done|].
  intros x. by apply IH.
Qed.

Lemma returns_bind_any {A B} (Q : B -> Prop) (p : prog A) (k : A -> prog B) :
  (forall a, returns Q (k a)) -> returns Q (p ≫= k).
Proof. intros Hk. apply (returns_bind (fun _ => True)); [apply returns_any|auto]. Qed.

Lemma returns_try_catch {A} (Q : A -> Prop) (p : prog A) (h : exn -> prog A) :
  returns Q p -> (forall e, returns Q (h e)) -> returns Q (try_catch p h).
Proof.
  intros Hp Hh. induction p as [a|e|X c k' IH]; cbn in *; [done|apply Hh|].
  intros x. by apply IH.
Qed.

Lemma returns_run {A} (Q : A -> Prop) (p : prog A) (w : world) (a : A) :
  returns Q p -> outcome p w = Ok a -> Q a.
Proof.
  unfold outcome. revert w. induction p as [b|e|X c k IH]; intros w Hp.
  - by intros [= <-].
  - done.
  - change (exec (Do c k) w)
      with (let (x, w1) := perform c w in
            let '(r, w2, log) := exec (k x) w1 in (r, w2, Event c x :: log)).
    destruct (perform c w) as [x w1]. specialize (IH x w1 (Hp x)).
    destruct (exec (k x) w1) as [[r w2] log]. exact IH.
Qed.

Ltac label_payload :=
  unfold labelled, res_json; cbn [payload status truthy];
  rewrite ?(left_id_L ∅ (∪));
  split; rewrite get_jsonify_obj;
  repeat (rewrite lookup_insert_ne by done);
  rewrite ?lookup_insert_eq, ?lookup_singleton_eq; done.

Lemma returns_send_error code message :
  400 <= code -> returns labelled (send_error code message).
Proof.
  intros H. unfold send_error, responseHandler.error, now_ISO.
  cbn [mbind prog_mbind prog_bind returns]. intros t.
  assert ((code <? 400) = false) as Hc by lia.
  unfold labelled, res_json. cbn [payload status truthy]. rewrite Hc.
  rewrite (left_id_L ∅ (∪)).
  split; rewrite get_jsonify_obj; repeat (rewrite lookup_insert_ne by done);
    by rewrite ?lookup_insert_eq, ?lookup_singleton_eq.
Qed.

Lemma returns_send_success code data message :
  code < 400 -> returns labelled (send_success code data message).
Proof.
  intros H. unfold send_success, responseHandler.success, now_ISO.
  cbn [mbind prog_mbind prog_bind returns]. intros t.
  assert ((code <? 400) = true) as Hc by lia.
  unfold labelled, res_json. cbn [payload status]. rewrite Hc.
  split; rewrite get_jsonify_obj; repeat (rewrite lookup_insert_ne by done);
    by rewrite ?lookup_insert_eq, ?lookup_singleton_eq.
Qed.

Lemma returns_send_page xs page limit : returns labelled (send_page xs page limit).
Proof.
  unfold send_page. do 3 (apply returns_bind_any; intros ?). cbv zeta.
  unfold responseHandler.paginated, now_ISO.
  cbn [mbind prog_mbind prog_bind returns]. intros t. label_payload.
Qed.

Lemma returns_catch500 message p :
  returns labelled p -> returns labelled (catch500 message p).
Proof.
  intros H. unfold catch500. apply returns_try_catch; [done|]. intros e.
  by apply (returns_send_error 500 message).
Qed.

Lemma returns_handler (h : request -> prog response) (req : request) :
  returns labelled (h req) -> returns labels (handler h req).
Proof.
  intros H. unfold handler. apply (returns_bind labelled); [done|].
  intros a Ha r [= <-]. done.
Qed.

Ltac label_step :=
  lazymatch goal with
  | |- returns _ (catch500 _ _) => apply returns_catch500
  | |- returns _ (send_error _ _) => apply returns_send_error; lia
  | |- returns _ (send_success _ _ _) => apply returns_send_success; lia
  | |- returns _ (send_page _ _ _) => apply returns_send_page
  | |- returns _ (try_catch _ _) => apply returns_try_catch; [|intros ?]
  | |- returns _ (mbind _ _) => apply returns_bind_any; intros ?
  | |- returns _ (match ?x with _ => _ end) => destruct x
  | |- returns _ (let _ := _ in _) => cbv zeta
  | |- returns _ (Throw _) => exact I
  | |- returns labels (Ret None) => by intros ?
  | |- returns labels (mret None) => by intros ?
  | |- returns labels (Ret (Some _)) => intros ? [= <-]; label_payload
  | |- returns labels (mret (Some _)) => intros ? [= <-]; label_payload
  end.

Ltac label_routes unfold_handlers :=
  unfold routes_labelled;
  repeat match goal with |- Forall _ _ => constructor; cbn [route_stack] end;
  intros ?;
  lazymatch goal with
  | |- returns _ (handler _ _) =>
      apply returns_handler; unfold_handlers; repeat label_step
  | |- _ =>
      unfold validator.validateId, validator.validateRequired,
        validator.validateEmail, validator.validatePhone;
      repeat label_step
  end.

Lemma userRoutes_labelled : routes_labelled userRoutes.router.
Proof.
  unfold userRoutes.router. label_routes
    ltac:(unfold userRoutes.list_users, userRoutes.get_user,
            userRoutes.create_user, userRoutes.put_user, userRoutes.patch_user,
            userRoutes.delete_user, userRoutes.active_users).
Qed.

Lemma productRoutes_labelled lc : routes_labelled (productRoutes.router lc).
Proof.
  unfold productRoutes.router. label_routes
    ltac:(unfold productRoutes.list_products, productRoutes.get_product,
            productRoutes.create_product, productRoutes.put_product,
            productRoutes.patch_product, productRoutes.delete_product,
            productRoutes.low_stock, productRoutes.by_category).
Qed.

Lemma orderRoutes_labelled : routes_labelled orderRoutes.router.
Proof.
  unfold orderRoutes.router. label_routes
    ltac:(unfold orderRoutes.list_orders, orderRoutes.get_order,
            orderRoutes.create_order, orderRoutes.put_order,
            orderRoutes.patch_order, orderRoutes.delete_order,
            orderRoutes.orders_of_user, orderRoutes.orders_by_status,
            orderRoutes.cancel_order).
Qed.

Lemma returns_run_stack (stack : list middleware) (req : request) :
  Forall (fun m => returns labels (m req)) stack ->
  returns labels (run_stack stack req).
Proof.
  induction 1 as [|m stack Hm _ IH]; cbn [run_stack]; [by intros ?|].
  apply (returns_bind labels); [done|]. by intros [resp|] Hr.
Qed.

Lemma returns_run_router (routes : list route) (req : request) :
  routes_labelled routes -> returns labels (run_router routes req).
Proof.
  induction 1 as [|r routes Hr _ IH]; cbn [run_router]; [by intros ?|].
  destruct (if verb_eqb _ _ then _ else _) as [ps|]; [|done].
  apply (returns_bind labels).
  - apply returns_run_stack. eapply Forall_impl; [exact Hr|]. by intros m Hm.
  - by intros [resp|] Hr'.
Qed.

Lemma returns_mount prefix routes req :
  routes_labelled routes -> returns labels (mount prefix routes req).
Proof.
  intros H. unfold mount. destruct (strip_prefix _ _); [|by intros ?].
  by apply returns_run_router.
Qed.

(** Whatever a route of the three routers answers, from a validator or
    from its handler, and whatever the request and the disk: the
    payload names in [statusCode] the status the response is sent with,
    and its [status] flag is [true] exactly when that status is below
    400.  No route answers a failure with [status: true] or a success
    with [status: false]. *)
Theorem answers_name_their_status lc (routes : list route) (req : request)
    (w : world) (resp : response) :
  In routes [userRoutes.router; productRoutes.router lc; orderRoutes.router] ->
  outcome (run_router routes req) w = Ok (Some resp) ->
  get (payload resp) "statusCode" = Ok (num (status resp))
  /\ get (payload resp) "status" = Ok (VBool (status resp <? 400)).
Proof.
  intros Hin Ho.
  assert (routes_labelled routes) as Hl.
  { cbn [In] in Hin. destruct Hin as [<-|[<-|[<-|[]]]].
    - apply userRoutes_labelled.
    - apply productRoutes_labelled.
    - apply orderRoutes_labelled. }
  apply (returns_run labels _ w (Some resp) (returns_run_router routes req Hl) Ho).
  reflexivity.
Qed.

(** * What validation lets through *)








(** ** Validation at sample inputs *)



(** * A record fetched by its id *)

(** A request that a route of the products router answers: the answer
    of the route's stack is the answer of the server. *)
Lemma exec_app_products lc env st (req routed : request) (stack : list middleware)
    (rest : prog (option response)) (w w1 : world) (resp : response) l1 :
  server.health req = Ret None ->
  mount ["api"; "users"] userRoutes.router req = Ret None ->
  mount ["api"; "products"] (productRoutes.router lc) req
  = (a ← run_stack stack routed;
     match a with Some r => Ret (Some r) | None => rest end) ->
  exec (run_stack stack routed) w = (Ok (Some resp), w1, l1) ->
  exec (server.app lc env st req) w = (Ok resp, w1, l1).
Proof.
  intros Hh Hu Hm Hs. unfold server.app. cbn [run_stack].
  rewrite Hh, !ret_bind, Hu, !ret_bind, Hm.
  rewrite exec_try_catch, !exec_bind, Hs. cbn [fst snd].
  rewrite !exec_ret. cbn [fst snd]. by rewrite !app_nil_r.
Qed.

(** What the handler of [GET /api/products/:id] answers. *)
Lemma exec_get_product req s w items :
  params req !! "id" = Some (VStr s) ->
  parsed w productRoutes.FILENAME = VArr items ->
  exists resp l,
    exec (productRoutes.get_product req) w = (Ok resp, later 1 w, l)
    /\ match Array_findIndex (database.id_is (VStr s)) items with
       | Ok (Some i) =>
           status resp = 200
           /\ exists x, items !! i = Some x /\ get (payload resp) "data" = Ok x
       | Ok None => status resp = 404
       | Raise _ => status resp = 500
       end.
Proof.
  intros Hid Hp. unfold productRoutes.get_product, catch500.
  assert (prop (params req) "id" = VStr s) as -> by (unfold prop; by rewrite Hid).
  rewrite exec_try_catch, exec_bind, exec_getById, Hp.
  cbn [as_array]. rewrite bind_Ok. unfold Array_find.
  destruct (Array_findIndex _ items) as [[i|]|e] eqn:Ef;
    rewrite ?bind_Raise, ?bind_Ok; cbn [fst snd].
  - pose proof Ef as Ef'.
    apply Array_findIndex_Some in Ef' as (x & Hx & Hx').
    apply id_is_true in Hx' as (o & n & -> & Hn).
    rewrite nth_lookup, Hx.
    change (js_or (default VUndefined (Some (VObj o))) VNull) with (VObj o).
    cbn [truthy negb].
    destruct (exec_send_success_data 200 (VObj o) "Product fetched successfully" w)
      as (resp & -> & Hs & Hd).
    eexists _, _. split; [reflexivity|]. split; [done|].
    exists (VObj o). split; [done|]. rewrite Hd.
    by rewrite (stored_item _ _ _ (parsed_items _ _ _ Hp) Hx).
  - change (js_or VUndefined VNull) with VNull. cbn [truthy negb].
    destruct (exec_send_error 404 "Product not found" w) as (resp & -> & Hs).
    by eexists _, _.
  - destruct (exec_send_error 500 "Failed to fetch product" w) as (resp & Hr & Hs).
    unfold send_error in Hr. rewrite Hr. by eexists _, _.
Qed.

(** [GET /api/products/<s>] for a text [s] that is not empty, on a file
    that holds an array: an id [validateId] rejects is answered 400;
    otherwise the answer is 200 with, as [data], the first product of
    the file whose [id] is the number [parseInt(s)], 404 when there is
    none, and 500 when the search throws (on an entry that is [null]).
    The disk is left as it was. *)
Theorem product_is_fetched_by_id lc env st (s : string) ps q b h (w : world)
    (items : list value) :
  s <> "" ->
  parsed w productRoutes.FILENAME = VArr items ->
  let p := server.app lc env st (Request GET ["api"; "products"; s] ps q b h) in
  exists resp,
    outcome p w = Ok resp
    /\ disk (after p w) = disk w
    /\ match validator.invalid_id (VStr s) with
       | Ok false =>
           match Array_findIndex (database.id_is (VStr s)) items with
           | Ok (Some i) =>
               status resp = 200
               /\ exists x, items !! i = Some x /\ get (payload resp) "data" = Ok x
           | Ok None => status resp = 404
           | Raise _ => status resp = 500
           end
       | _ => status resp = 400
       end.
Proof.
  intros Hs Hp p. subst p. unfold outcome, after.
  set (routed := Request GET [s] {["id" := VStr s]} q b h).
  assert (params routed !! "id" = Some (VStr s)) as Hid by done.
  destruct (exec_validateId_string routed s w Hs Hid) as (o & Hval & Hv).
  destruct (exec_get_product routed s w items Hid Hp) as (resp & l & Hget & Hg).
  assert (exists r,
    exec (run_stack [validator.validateId; handler productRoutes.get_product]
            routed) w
    = match o with
      | Some _ => (Ok (Some r), w, [])
      | None => (Ok (Some r), later 1 w, l)
      end
    /\ match o with Some r' => r = r' | None => r = resp end) as (r & Hstack & Hr).
  { rewrite exec_run_stack_cons, Hval. destruct o as [r'|]; [by exists r'|].
    exists resp. rewrite exec_run_stack_cons. unfold handler.
    rewrite exec_bind, Hget, exec_ret. cbn. by rewrite app_nil_r. }
  exists r.
  assert (exists w1 l1,
    exec (server.app lc env st (Request GET ["api"; "products"; s] ps q b h)) w
    = (Ok r, w1, l1) /\ disk w1 = disk w) as (w1 & l1 & -> & Hd).
  { destruct o; eexists _, _; (split; [eapply exec_app_products; [reflexivity..|exact Hstack]|done]). }
  split; [done|]. split; [done|].
  destruct (validator.invalid_id (VStr s)) as [[|]|e] eqn:Ev.
  1,3: by destruct Hv as (r' & -> & H400); subst r.
  by subst o r.
Qed.

(** * A deleted user is gone *)







(** * What a new user is made of *)


(** * The further properties at sample inputs *)

Lemma unrouted_request_is_404_witness :
  let req := Request PUT ["api"; "Users-of-old"; "7"] ∅ ∅ ∅ ∅ in
  let w := world_of userRoutes.FILENAME (VArr []) in
  (forall h, path req = [h] -> toLowerCase h <> "health")
  /\ (forall a c rest, path req = a :: c :: rest -> toLowerCase a = "api" ->
        toLowerCase c <> "users" /\ toLowerCase c <> "products"
        /\ toLowerCase c <> "orders")
  /\ exists resp,
       exec (plain_app req) w = (Ok resp, w, []) /\ status resp = 404.
Proof.
  intros req w.
  assert (forall h, path req = [h] -> toLowerCase h <> "health") as H1
    by (by intros h [=]).
  assert (forall a c rest, path req = a :: c :: rest -> toLowerCase a = "api" ->
            toLowerCase c <> "users" /\ toLowerCase c <> "products"
            /\ toLowerCase c <> "orders") as H2.
  { intros a c rest [= <- <- <-] _. by vm_compute. }
  split; [exact H1|]. split; [exact H2|].
  destruct (unrouted_request_is_404 (fun _ _ => Fin 0) None (fun _ => "") req w
              H1 H2) as (resp & He & Hs & _).
  exists resp. split; [exact He|exact Hs].
Defined.

Lemma get_requests_never_write_witness :
  let req := Request GET ["api"; "orders"; "1"] ∅ ∅ ∅ ∅ in
  let w := world_of orderRoutes.FILENAME (VArr [sample_order]) in
  method req = GET
  /\ writes_of (calls (plain_app req) w) = []
  /\ disk (after (plain_app req) w) = disk w.
Proof.
  intros req w. split; [reflexivity|].
  exact (get_requests_never_write (fun _ _ => Fin 0) None (fun _ => "") req w
           eq_refl).
Defined.

Lemma health_needs_no_disk_witness :
  let w := world_of userRoutes.FILENAME VNull in
  toLowerCase "Health" = "health"
  /\ exists resp,
       outcome (plain_app (Request GET ["Health"] ∅ ∅ ∅ ∅)) w = Ok resp
       /\ status resp = 200.
Proof.
  intros w.
  assert (toLowerCase "Health" = "health") as H1 by (by vm_compute).
  split; [exact H1|].
  destruct (health_needs_no_disk (fun _ _ => Fin 0) None (fun _ => "") "Health"
              ∅ ∅ ∅ ∅ w H1) as (resp & He & Hs & _).
  exists resp. split; [|exact Hs].
  unfold outcome, plain_app. by rewrite He.
Defined.




Lemma email_pattern_accepts_witness :
  let req := Request POST [] ∅ ∅ {["email" := VStr "a@b.c"]} ∅ in
  let w := world_of userRoutes.FILENAME (VArr []) in
  prop (body req) "email" = VStr "a@b.c"
  /\ exec (validator.validateEmail req) w = (Ok None, w, []).
Proof.
  intros req w.
  assert (prop (body req) "email" = VStr "a@b.c") as H1 by (by vm_compute).
  split; [exact H1|].
  apply (proj1 (email_pattern_accepts req "a@b.c" w H1)).
  right. exists ["a"%char], ["b"%char], ["c"%char]. by vm_compute.
Defined.

Lemma decimal_ids_are_read_back_witness :
  ["0"%char; "4"%char; "2"%char] <> []
  /\ forallb is_digit ["0"%char; "4"%char; "2"%char] = true
  /\ digits_val ["0"%char; "4"%char; "2"%char] < 2 ^ 53
  /\ validator.invalid_id (VStr "042") = Ok false
  /\ database.id_is (VStr "042") (VObj {["id" := num 42]}) = Ok true.
Proof.
  assert (["0"%char; "4"%char; "2"%char] <> []) as H1 by done.
  assert (forallb is_digit ["0"%char; "4"%char; "2"%char] = true) as H2
    by (by vm_compute).
  assert (digits_val ["0"%char; "4"%char; "2"%char] < 2 ^ 53) as H3
    by (by vm_compute).
  split; [exact H1|]. split; [exact H2|]. split; [exact H3|].
  destruct (decimal_ids_are_read_back ["0"%char; "4"%char; "2"%char] H1 H2 H3)
    as (_ & Hv & Hid).
  split; [exact Hv|]. apply (Hid {["id" := num 42]}). by vm_compute.
Defined.

Lemma phone_needs_ten_digits_witness :
  let req := Request POST [] ∅ ∅ {["phone" := num (-9876543210)]} ∅ in
  let w := world_of userRoutes.FILENAME (VArr []) in
  prop (body req) "phone" <> VUndefined
  /\ prop (body req) "phone" <> VNull
  /\ ToString (prop (body req) "phone") = Ok "-9876543210"
  /\ exec (validator.validatePhone req) w = (Ok None, w, []).
Proof.
  intros req w.
  assert (prop (body req) "phone" <> VUndefined) as H1 by (by vm_compute).
  assert (prop (body req) "phone" <> VNull) as H2 by (by vm_compute).
  assert (ToString (prop (body req) "phone") = Ok "-9876543210") as H3
    by (by vm_compute).
  split; [exact H1|]. split; [exact H2|]. split; [exact H3|].
  apply (proj1 (phone_needs_ten_digits req "-9876543210" w H1 H2 H3)).
  by vm_compute.
Defined.

Lemma page_is_a_slice_witness :
  let w := world_of orderRoutes.FILENAME (VArr []) in
  let items := [order_zero; sample_order; text_id_record] in
  represents (Fin (inject_Z 2)) 2 /\ represents (Fin (inject_Z 1)) 1
  /\ 1 <= 2 /\ 1 <= 1 /\ 2 * 1 <= 2 ^ 53
  /\ exists resp,
       outcome (send_page (VArr items) (Fin (inject_Z 2)) (Fin (inject_Z 1))) w
       = Ok resp
       /\ get (payload resp) "data" = Ok (VArr [sample_order]).
Proof.
  intros w items.
  assert (represents (Fin (inject_Z 2)) 2) as H1 by (by exists (inject_Z 2)).
  assert (represents (Fin (inject_Z 1)) 1) as H2 by (by exists (inject_Z 1)).
  assert (1 <= 2) as H3 by lia.
  assert (1 <= 1) as H4 by lia.
  assert (2 * 1 <= 2 ^ 53) as H5 by (by vm_compute).
  split; [exact H1|]. split; [exact H2|]. split; [exact H3|]. split; [exact H4|].
  split; [exact H5|].
  destruct (page_is_a_slice items (Fin (inject_Z 2)) (Fin (inject_Z 1)) 2 1 w
              H1 H2 H3 H4 H5) as (resp & He & _ & Hd & _).
  exists resp. split; [unfold outcome; by rewrite He|].
  rewrite Hd. by vm_compute.
Defined.

Lemma orders_list_defaults_witness :
  let w := world_of orderRoutes.FILENAME (VArr [order_zero; sample_order]) in
  let p := plain_app (Request GET ["api"; "orders"] ∅ ∅ ∅ ∅) in
  parsed w orderRoutes.FILENAME = VArr [order_zero; sample_order]
  /\ exists resp,
       outcome p w = Ok resp
       /\ status resp = 200
       /\ get (payload resp) "data" = Ok (VArr [order_zero; sample_order]).
Proof.
  intros w p.
  assert (parsed w orderRoutes.FILENAME = VArr [order_zero; sample_order]) as H1
    by (by vm_compute).
  split; [exact H1|].
  destruct (orders_list_defaults (fun _ _ => Fin 0) None (fun _ => "") ∅ ∅ ∅ w
              [order_zero; sample_order] H1) as (resp & Ho & Hs & Hd & _).
  exists resp. split; [exact Ho|]. split; [exact Hs|exact Hd].
Defined.


Lemma email_in_use_is_a_substring_match_witness :
  let req := Request POST [] ∅ ∅ {["email" := VStr "ada@x.org"]} ∅ in
  let taken := VObj {["email" := VStr "Lada@X.org"]} in
  let w := world_of userRoutes.FILENAME (VArr [taken]) in
  prop (body req) "email" = VStr "ada@x.org"
  /\ parsed w userRoutes.FILENAME = VArr [taken]
  /\ Array_filter (database.search_match "email" (VStr "ada@x.org")) [taken]
     = Ok [taken]
  /\ exists resp,
       outcome (userRoutes.create_user req) w = Ok resp /\ status resp = 409.
Proof.
  intros req taken w.
  assert (prop (body req) "email" = VStr "ada@x.org") as H1 by (by vm_compute).
  assert (parsed w userRoutes.FILENAME = VArr [taken]) as H2 by (by vm_compute).
  assert (Array_filter (database.search_match "email" (VStr "ada@x.org")) [taken]
          = Ok [taken]) as H3 by (by vm_compute).
  split; [exact H1|]. split; [exact H2|]. split; [exact H3|].
  destruct (email_in_use_is_a_substring_match req "ada@x.org" w [taken] [taken]
              H1 H2 H3) as (_ & _ & _ & resp & Ho & Hs & _).
  exists resp. split; [exact Ho|]. by apply Hs.
Defined.

Lemma failed_requests_change_nothing_witness :
  let req := Request POST ["api"; "users"] ∅ ∅ {["name" := VStr "Ada"]} ∅ in
  let w := world_of userRoutes.FILENAME (VArr []) in
  exists resp,
    outcome (plain_app req) w = Ok resp
    /\ 400 <= status resp
    /\ writes_of (calls (plain_app req) w) = []
    /\ disk (after (plain_app req) w) = disk w.
Proof.
  intros req w.
  destruct (outcome (plain_app req) w) as [resp|e] eqn:Ho.
  - exists resp.
    assert (400 <= status resp) as Hs.
    { revert Ho. vm_compute. intros [= <-]. by vm_compute. }
    split; [reflexivity|]. split; [exact Hs|].
    exact (failed_requests_change_nothing (fun _ _ => Fin 0) None (fun _ => "")
             req w resp Ho Hs).
  - exfalso. revert Ho. by vm_compute.
Defined.

Lemma orders_by_status_answer_witness :
  let req := Request GET ["status"; "PENDING"] {["status" := VStr "PENDING"]} ∅ ∅ ∅ in
  let w := world_of orderRoutes.FILENAME (VArr [sample_order]) in
  let p := orderRoutes.orders_by_status req in
  prop (params req) "status" = VStr "PENDING"
  /\ parsed w orderRoutes.FILENAME = VArr [sample_order]
  /\ exists resp,
       outcome p w = Ok resp
       /\ status resp = 200
       /\ get (payload resp) "data" = Ok (VArr [sample_order]).
Proof.
  intros req w p.
  assert (prop (params req) "status" = VStr "PENDING") as H1 by (by vm_compute).
  assert (parsed w orderRoutes.FILENAME = VArr [sample_order]) as H2
    by (by vm_compute).
  split; [exact H1|]. split; [exact H2|].
  destruct (orders_by_status_answer req "PENDING" w [sample_order] H1 H2)
    as (resp & Ho & _ & _ & Hall).
  exists resp. split; [exact Ho|]. apply Hall.
  constructor; [|constructor]. by exists "pending".
Defined.

Lemma products_by_category_answer_witness :
  let req := Request GET ["category"; "home"] {["category" := VStr "home"]} ∅ ∅ ∅ in
  let w := world_of productRoutes.FILENAME (VArr [VObj sample_product_body; VNull]) in
  let p := productRoutes.by_category req in
  prop (params req) "category" = VStr "home"
  /\ parsed w productRoutes.FILENAME = VArr [VObj sample_product_body; VNull]
  /\ exists resp, outcome p w = Ok resp /\ status resp = 500.
Proof.
  intros req w p.
  assert (prop (params req) "category" = VStr "home") as H1 by (by vm_compute).
  assert (parsed w productRoutes.FILENAME = VArr [VObj sample_product_body; VNull])
    as H2 by (by vm_compute).
  split; [exact H1|]. split; [exact H2|].
  destruct (products_by_category_answer req "home" w
              [VObj sample_product_body; VNull] H1 H2)
    as (resp & Ho & _ & H500 & _).
  exists resp. split; [exact Ho|]. apply H500. intros Hall.
  apply Forall_cons in Hall as [_ Hall]. apply Forall_cons in Hall as [[s Hs] _].
  discriminate Hs.
Defined.

Lemma answers_name_their_status_witness :
  let req := Request POST [] ∅ ∅ {["name" := VStr "Ada"]} ∅ in
  let w := world_of userRoutes.FILENAME (VArr []) in
  let lc := fun _ _ : string => Fin 0 in
  In userRoutes.router [userRoutes.router; productRoutes.router lc; orderRoutes.router]
  /\ exists resp,
       outcome (run_router userRoutes.router req) w = Ok (Some resp)
       /\ status resp = 400
       /\ get (payload resp) "statusCode" = Ok (num 400)
       /\ get (payload resp) "status" = Ok (VBool false).
Proof.
  intros req w lc.
  assert (In userRoutes.router
            [userRoutes.router; productRoutes.router lc; orderRoutes.router]) as H1
    by (by left).
  split; [exact H1|].
  destruct (outcome (run_router userRoutes.router req) w) as [[resp|]|e] eqn:Ho.
  - exists resp.
    assert (status resp = 400) as Hs.
    { revert Ho. vm_compute. intros [= <-]. by vm_compute. }
    split; [reflexivity|]. split; [exact Hs|].
    destruct (answers_name_their_status lc userRoutes.router req w resp H1 Ho)
      as [Hc Hf].
    rewrite Hs in Hc, Hf. split; [exact Hc|exact Hf].
  - exfalso. revert Ho. by vm_compute.
  - exfalso. revert Ho. by vm_compute.
Defined.

Lemma product_is_fetched_by_id_witness :
  let lamp := VObj (<["id" := num 1]> sample_product_body) in
  let w := world_of productRoutes.FILENAME (VArr [lamp]) in
  let p := plain_app (Request GET ["api"; "products"; "1"] ∅ ∅ ∅ ∅) in
  "1" <> ""
  /\ parsed w productRoutes.FILENAME = VArr [lamp]
  /\ exists resp,
       outcome p w = Ok resp
       /\ status resp = 200
       /\ get (payload resp) "data" = Ok lamp.
Proof.
  intros lamp w p. assert ("1" <> "") as H1 by done.
  assert (parsed w productRoutes.FILENAME = VArr [lamp]) as H2 by (by vm_compute).
  split; [exact H1|]. split; [exact H2|].
  pose proof (product_is_fetched_by_id (fun _ _ => Fin 0) None (fun _ => "") "1"
                ∅ ∅ ∅ ∅ w [lamp] H1 H2) as T.
  cbv zeta in T. destruct T as (resp & Ho & _ & T).
  change (validator.invalid_id (VStr "1")) with (@Ok bool false) in T.
  change (Array_findIndex (database.id_is (VStr "1")) [lamp])
    with (@Ok (option nat) (Some 0%nat)) in T.
  destruct T as (Hs & x & Hx & Hd).
  exists resp. split; [exact Ho|]. split; [exact Hs|].
  injection Hx as <-. exact Hd.
Defined.


